(** * msu3-hills: the terrain generator of [src/main.c]

    A shallow embedding of the generation pipeline of [main.c]
    (MakeHeightmap, BlurHeightmap, MakeVBO, LandscapeVBO, ObjectVBO,
    MakeFacetTex, Serialize, Deserialize), of DrawVBO, of the keyboard
    and file messages of DialogProc and of the command line of WinMain,
    with the properties of it that the specification states and further
    ones read off the code.

    Conventions of the embedding.
    - [UINT] and [LONG] are 32 bits wide (the program is a Win32 one);
      they are integers of [Z], reduced with [uint] and [long] where the
      source computes a size or a count.
    - [FLOAT] arithmetic sits behind the interface [FloatOps]: a theorem
      stated for every [FloatOps] holds whatever rounding the compiler
      applies. Concrete runs use the instance [binary32] (IEEE-754 single
      precision, round to nearest even, from the standard library).
    - [rand]/[srand] of the C library sit behind [RandOps]; concrete runs
      use the generator of the Microsoft C runtime.
    - An array is a list, read with [aget] and written with [aset]. A
      read outside the block yields the default handed to [aget], a
      write outside it leaves the list as it is (in C both are
      undefined). The two reads the source makes of storage it never
      initialised (the block [ftmp] in BlurHeightmap, the cell one past
      [farr] in LandscapeVBO) take their value from the environment
      [Env].
    - [size_t] is 32 bits wide as well. In MakeHeightmap, whose size
      is an argument, the request to [calloc] counts ([calloc_bytes]):
      [2^32] bytes or more yield NULL, every other request is granted.
      Elsewhere a block that is asked for is taken as granted.
    - A NULL result is [None]; a run that dereferences NULL, computes a
      [LONG] product that does not fit or walks off the band table is
      [Crash]. *)

From Stdlib Require Import ZArith Lia String Ascii.
From Stdlib Require Import Floats.SpecFloat.
From stdpp Require Import base list.

Local Open Scope Z_scope.

(** ** Machine integers *)

(** A value reduced to an unsigned 32-bit [UINT]: its low 32 bits
    ([uint_mod]: the value modulo [2^32]). *)
Definition uint (z : Z) : Z := Z.land z 0xFFFFFFFF.

(** A value reduced to a two's complement 32-bit [LONG]. *)
Definition long (z : Z) : Z := uint (z + 2 ^ 31) - 2 ^ 31.

(** The value is one a [LONG] can hold. *)
Definition fits_long (z : Z) : bool := (- 2 ^ 31 <=? z) && (z <? 2 ^ 31).

(** ** Floating point, behind an interface *)

Class FloatOps := {
  FLOAT : Type;
  (** the literal [m * 2^e]; every literal of the source, rounded to
      single precision, is of this form *)
  flit : Z -> Z -> FLOAT;
  (** [(FLOAT)n] *)
  of_Z : Z -> FLOAT;
  (** [tr(f)], that is [(LONG)f] *)
  tr : FLOAT -> Z;
  fadd : FLOAT -> FLOAT -> FLOAT;
  fsub : FLOAT -> FLOAT -> FLOAT;
  fmul : FLOAT -> FLOAT -> FLOAT;
  fdiv : FLOAT -> FLOAT -> FLOAT;
  fneg : FLOAT -> FLOAT;
  fabs : FLOAT -> FLOAT;
  fsqrt : FLOAT -> FLOAT;
  fexp : FLOAT -> FLOAT;
  (** [pow(2.0, f)] *)
  fpow2 : FLOAT -> FLOAT;
  feqb : FLOAT -> FLOAT -> bool;
  fltb : FLOAT -> FLOAT -> bool;
  fleb : FLOAT -> FLOAT -> bool
}.

(** ** The C library's pseudo-random generator *)

Class RandOps := {
  rng : Type;
  srand : Z -> rng;
  rand : rng -> Z * rng;
  rand_nonneg : forall g, 0 <= fst (rand g)
}.

(** ** Runs that may crash *)

Inductive outcome (A : Type) : Type :=
| Ret (a : A)
| Crash.
Arguments Ret {A} a.
Arguments Crash {A}.

Definition obind {A B} (o : outcome A) (k : A -> outcome B) : outcome B :=
  match o with
  | Ret a => k a
  | Crash => Crash
  end.

#[global] Instance outcome_bind : MBind outcome := fun A B k o => obind o k.
#[global] Instance outcome_ret : MRet outcome := @Ret.

(** ** Arrays *)

(** [aget d l i] is [l[i]]; [d] stands for what lies outside the block. *)
Definition aget {A} (d : A) (l : list A) (i : Z) : A :=
  if i <? 0 then d else default d (l !! Z.to_nat i).

(** [aset l i v] is [l[i] = v]. *)
Definition aset {A} (l : list A) (i : Z) (v : A) : list A :=
  if i <? 0 then l else <[Z.to_nat i := v]> l.

(** [calloc(n, _)] and a [malloc] block with contents [stale]. *)
Definition calloc {A} (zero : A) (n : Z) : list A := replicate (Z.to_nat n) zero.

(** [calloc(n, width)] where the request counts: [n * width] bytes
    that a 32-bit [size_t] cannot express make the block NULL. *)
Definition calloc_bytes {A} (zero : A) (n width : Z) : option (list A) :=
  if n * width <? 2 ^ 32 then Some (calloc zero n) else None.

Fixpoint tabulate_from {A} (f : Z -> A) (i : Z) (n : nat) : list A :=
  match n with
  | O => []
  | S n' => f i :: tabulate_from f (i + 1) n'
  end.

Definition malloc {A} (stale : Z -> A) (n : Z) : list A :=
  tabulate_from stale 0 (Z.to_nat n).

(** ** Loops *)

(** [for (i = a; i < hi; i += stride) s = body i s], at most [fuel] rounds. *)
Fixpoint for_up_fuel {S} (fuel : nat) (i hi stride : Z) (body : Z -> S -> S) (s : S) : S :=
  match fuel with
  | O => s
  | Datatypes.S n =>
      if i <? hi then for_up_fuel n (i + stride) hi stride body (body i s) else s
  end.

(** With [stride >= 1] the loop ends within [hi - a] rounds
    (see [for_up_fuel_enough]). *)
Definition for_up {S} (a hi stride : Z) (body : Z -> S -> S) (s : S) : S :=
  for_up_fuel (Z.to_nat (hi - a)) a hi stride body s.

(** [for (i = a; i > lo; i--) s = body i s]. *)
Fixpoint for_down_fuel {S} (fuel : nat) (i lo : Z) (body : Z -> S -> S) (s : S) : S :=
  match fuel with
  | O => s
  | Datatypes.S n =>
      if lo <? i then for_down_fuel n (i - 1) lo body (body i s) else s
  end.

Definition for_down {S} (a lo : Z) (body : Z -> S -> S) (s : S) : S :=
  for_down_fuel (Z.to_nat (a - lo)) a lo body s.

(** [for (step = a; step; step >>= 1) s = body step s]; a [UINT] is zero
    after 32 shifts. *)
Fixpoint halving_fuel {S} (fuel : nat) (step : Z) (body : Z -> S -> S) (s : S) : S :=
  match fuel with
  | O => s
  | Datatypes.S n =>
      if step =? 0 then s else halving_fuel n (Z.shiftr step 1) body (body step s)
  end.

Definition halving {S} (a : Z) (body : Z -> S -> S) (s : S) : S :=
  halving_fuel 32 a body s.

Section Heightmap.
Context {FO : FloatOps} {RO : RandOps}.

Definition f0 : FLOAT := flit 0 0.

(** [frand(f)]: a value between [-f] and [f] from the draw [r = rand()]. *)
Definition frand (r : Z) (f : FLOAT) : FLOAT :=
  fsub (fmul (fmul (flit 2 0) (fdiv (of_Z (Z.land r 0x7FFF)) (of_Z 0x7FFF))) f) f.

(** The state the two passes of MakeHeightmap thread: the grid and the
    generator. *)
Definition hm_state : Type := list FLOAT * rng.

(** The assignment of the diamond pass at [(x, y)]. *)
Definition diamond_cell (sinc step : Z) (hdef : FLOAT) (y x : Z) (st : hm_state) : hm_state :=
  let '(farr, g) := st in
  let '(r, g') := rand g in
  let v := fadd (fmul hdef (frand r (flit 1 (-1))))
             (fmul (flit 1 (-2))
                (fadd (fadd (fadd (aget f0 farr ((x - step) + (y - step) * sinc))
                                  (aget f0 farr ((x + step) + (y - step) * sinc)))
                            (aget f0 farr ((x - step) + (y + step) * sinc)))
                      (aget f0 farr ((x + step) + (y + step) * sinc)))) in
  (aset farr (x + y * sinc) v, g').

(** The body of the inner loop of the square pass at [(x, y)]. *)
Definition square_cell (size sinc step : Z) (hdef : FLOAT) (y x : Z) (st : hm_state) : hm_state :=
  let '(farr, g) := st in
  let yend := if y =? 0 then size else y in
  let ybgn := if y =? 0 then y else if y =? size then 0 else y in
  let xend := if x =? 0 then size else x in
  let xbgn := if x =? 0 then x else if x =? size then 0 else x in
  let '(r, g') := rand g in
  let v := fadd (fmul hdef (frand r (flit 1 (-1))))
             (fmul (flit 1 (-2))
                (fadd (fadd (fadd (aget f0 farr ((xend - step) + y * sinc))
                                  (aget f0 farr ((xbgn + step) + y * sinc)))
                            (aget f0 farr (x + (yend - step) * sinc)))
                      (aget f0 farr (x + (ybgn + step) * sinc)))) in
  let farr := aset farr (x + y * sinc) v in
  let farr := if x =? 0 then aset farr (size + y * sinc) (aget f0 farr (0 + y * sinc)) else farr in
  let farr := if y =? 0 then aset farr (x + size * sinc) (aget f0 farr (x + 0 * sinc)) else farr in
  (farr, g').

Definition diamond_pass (size sinc step : Z) (hdef : FLOAT) (st : hm_state) : hm_state :=
  for_up step size (Z.shiftl step 1)
    (fun y st => for_up step size (Z.shiftl step 1) (diamond_cell sinc step hdef y) st) st.

(** The square pass; [oddc] alternates between [0] and [~0] from row to row. *)
Definition square_row (size sinc step : Z) (hdef : FLOAT) (y : Z) (ost : Z * hm_state) : Z * hm_state :=
  let '(oddc, st) := ost in
  (Z.lnot oddc,
   for_up (if oddc =? 0 then step else 0) size (Z.shiftl step 1)
     (square_cell size sinc step hdef y) st).

Definition square_pass (size sinc step : Z) (hdef : FLOAT) (st : hm_state) : hm_state :=
  snd (for_up 0 size step (square_row size sinc step hdef) (0, st)).

(** One round of the loop over [step]. *)
Definition octave (size sinc : Z) (dmpf : FLOAT) (step : Z) (hst : FLOAT * hm_state) : FLOAT * hm_state :=
  let '(hdef, st) := hst in
  (fmul hdef dmpf, square_pass size sinc step hdef (diamond_pass size sinc step hdef st)).

(** [MakeHeightmap(size, dmpf)]: the grid, or [None] for NULL, and the
    generator after the draws. The cell count [sinc * sinc] is a product
    of [LONG]s: from [size = 2^16] on it does not fit. At [size = 2^15]
    it fits, but the [4 * sinc * sinc] bytes asked of [calloc] do not fit
    a [size_t]: the block is NULL, the result of [calloc] is not looked
    at, and the first round of the loops writes through it. With a
    block of [sinc * sinc] cells every index of the loops lies within
    the block. *)
Definition MakeHeightmap (size : Z) (dmpf : FLOAT) (g : rng) :
    outcome (option (list FLOAT) * rng) :=
  if negb (Z.land size (uint (size - 1)) =? 0) || (size =? 1) then Ret (None, g)
  else
    let sinc := long (size + 1) in
    if negb (fits_long (sinc * sinc)) then Crash
    else
      match calloc_bytes f0 (sinc * sinc) 4 with
      | None => if Z.shiftr size 1 =? 0 then Ret (None, g) else Crash
      | Some farr =>
          let dmpf := fpow2 (fneg (fabs dmpf)) in
          let '(_, (farr, g)) :=
            halving (Z.shiftr size 1) (octave size sinc dmpf) (dmpf, (farr, g)) in
          Ret (Some farr, g)
      end.

End Heightmap.

Section Blur.
Context {FO : FloatOps}.

(** The Gaussian kernel of BlurHeightmap: [blur[1..tr(fsig)]] are the
    weights, [blur[0]] the centre weight. *)
Definition blur_kernel (fsig : FLOAT) : list FLOAT :=
  let fsum := fdiv (flit 9 0) (fmul (fmul (flit 2 0) fsig) fsig) in
  let blur := calloc f0 (tr fsig + 1) in
  let blur := for_down (tr fsig) 0
                (fun x blur =>
                   let blur := aset blur x (fexp (fmul (of_Z (- x * x)) fsum)) in
                   aset blur 0 (fadd (aget f0 blur 0) (aget f0 blur x)))
                blur in
  let blur := aset blur 0 (fdiv (flit 1 (-1)) (fadd (aget f0 blur 0) (flit 1 (-1)))) in
  for_down (tr fsig) 0
    (fun x blur => aset blur x (fmul (aget f0 blur x) (aget f0 blur 0))) blur.

(** The sum over [z] of the row pass at [(x, y)]. *)
Definition row_sum (farr blur : list FLOAT) (size : Z) (fsig : FLOAT) (dpos x : Z) : FLOAT :=
  for_down (tr fsig) 0
    (fun z fsum =>
       fadd fsum
         (fmul (fadd (aget f0 farr (dpos + (if x - z <? 0 then x - z + size else x - z)))
                     (aget f0 farr (dpos + (if size <? x + z then x + z - size else x + z))))
               (aget f0 blur z)))
    f0.

(** The sum over [z] of the column pass at [(x, y)]. *)
Definition col_sum (ftmp blur : list FLOAT) (size : Z) (fsig : FLOAT) (x y : Z) : FLOAT :=
  for_down (tr fsig) 0
    (fun z fsum =>
       fadd fsum
         (fmul (fadd (aget f0 ftmp (x + (if y - z <? 0 then (y - z + size) * (size + 1)
                                         else (y - z) * (size + 1))))
                     (aget f0 ftmp (x + (if size <? y + z then (y + z - size) * (size + 1)
                                         else (y + z) * (size + 1)))))
               (aget f0 blur z)))
    f0.

(** The row pass: it fills [ftmp] from [farr]. *)
Definition row_pass (farr blur : list FLOAT) (size : Z) (fsig : FLOAT) (ftmp : list FLOAT) : list FLOAT :=
  for_up 0 (size + 1) 1
    (fun y ftmp =>
       let dpos := y * (size + 1) in
       for_up 0 (size + 1) 1
         (fun x ftmp =>
            aset ftmp (dpos + x)
              (fadd (fmul (aget f0 ftmp (dpos + x)) (aget f0 blur 0))
                    (row_sum farr blur size fsig dpos x)))
         ftmp)
    ftmp.

(** The column pass: it updates [farr] from [ftmp]. *)
Definition col_pass (ftmp blur : list FLOAT) (size : Z) (fsig : FLOAT) (farr : list FLOAT) : list FLOAT :=
  for_up 0 (size + 1) 1
    (fun x farr =>
       for_up 0 (size + 1) 1
         (fun y farr =>
            aset farr (x + y * (size + 1))
              (fadd (fmul (aget f0 farr (x + y * (size + 1))) (aget f0 blur 0))
                    (col_sum ftmp blur size fsig x y)))
         farr)
    farr.

(** [BlurHeightmap(farr, size, fsig)]; [stale] is what the block that
    [malloc] hands out for [ftmp] holds ([sizeof(FLOAT)] is 4 and the byte
    count a 32-bit one). The result is [farr] afterwards. *)
Definition BlurHeightmap (stale : Z -> FLOAT) (farr : list FLOAT) (size : Z) (fsig : FLOAT) : list FLOAT :=
  let fsig := fmul (fabs fsig) (flit 3 0) in
  if feqb fsig f0 then farr
  else if (size <=? 0) || fleb (of_Z size) fsig then farr
  else
    let blur := blur_kernel fsig in
    let ftmp := malloc stale (uint ((size + 1) * (size + 1) * 4) / 4) in
    let ftmp := row_pass farr blur size fsig ftmp in
    col_pass ftmp blur size fsig farr.

End Blur.

(** ** The mesh types *)

(** [FCLR]: the [DWORD] view [RGBA] of the union; on the little-endian
    target [R] is its low byte and [A] its high byte. *)
Abbreviation FCLR := Z (only parsing).
Definition FCLR_R (c : FCLR) : Z := Z.land c 0xFF.
Definition FCLR_G (c : FCLR) : Z := Z.land (Z.shiftr c 8) 0xFF.
Definition FCLR_B (c : FCLR) : Z := Z.land (Z.shiftr c 16) 0xFF.
Definition FCLR_A (c : FCLR) : Z := Z.land (Z.shiftr c 24) 0xFF.
Definition set_R (c : FCLR) (v : Z) : FCLR := Z.lor (Z.land c 0xFFFFFF00) (Z.land v 0xFF).
Definition set_G (c : FCLR) (v : Z) : FCLR := Z.lor (Z.land c 0xFFFF00FF) (Z.shiftl (Z.land v 0xFF) 8).
Definition set_B (c : FCLR) (v : Z) : FCLR := Z.lor (Z.land c 0xFF00FFFF) (Z.shiftl (Z.land v 0xFF) 16).
Definition set_A (c : FCLR) (v : Z) : FCLR := Z.lor (Z.land c 0x00FFFFFF) (Z.shiftl (Z.land v 0xFF) 24).

(** [FTRI]: the twelve indices [a .. l] of the four triangles of a cell. *)
Record FTRI := mkFTRI {
  ta : Z; tb : Z; tc : Z;
  td : Z; te : Z; tf : Z;
  tg : Z; th : Z; ti : Z;
  tj : Z; tk : Z; tl : Z
}.

Definition FTRI_zero : FTRI := mkFTRI 0 0 0 0 0 0 0 0 0 0 0 0.

(** The twelve index slots of a cell, in the order of the element array. *)
Definition FTRI_slots (t : FTRI) : list Z :=
  [ta t; tb t; tc t; td t; te t; tf t; tg t; th t; ti t; tj t; tk t; tl t].

Section Mesh.
Context {FO : FloatOps}.

(** [FVEC] (fields [x], [y], [z]) and [FTEX] (fields [u], [v]). *)
Record FVEC := mkFVEC { vx : FLOAT; vy : FLOAT; vz : FLOAT }.
Record FTEX := mkFTEX { tu : FLOAT; tv : FLOAT }.

Definition FVEC_zero : FVEC := mkFVEC f0 f0 f0.
Definition FTEX_zero : FTEX := mkFTEX f0 f0.

Definition set_vx (p : FVEC) (v : FLOAT) : FVEC := mkFVEC v (vy p) (vz p).
Definition set_vy (p : FVEC) (v : FLOAT) : FVEC := mkFVEC (vx p) v (vz p).
Definition set_vz (p : FVEC) (v : FLOAT) : FVEC := mkFVEC (vx p) (vy p) v.
Definition set_tu (p : FTEX) (v : FLOAT) : FTEX := mkFTEX v (tv p).

(** [FHEI]: a band of the height colouring. *)
Record FHEI := mkFHEI { fhei : FLOAT; fclr : FCLR }.

(** [FVBO]. The names of the GL buffer objects ([iind], [ivec], [inrm],
    [iclr], [itex]) are left out; [ntex] holds the texels handed to GL
    under that name ([None] for the name 0). *)
#[warnings="-register-all"]
Inductive FVBO : Type := mkFVBO {
  next : option FVBO;
  flgs : Z;
  ndim : Z;
  ndot : Z;
  npol : Z;
  ntex : option (list FCLR);
  seed : Z;
  grid : FLOAT;
  wlvl : FLOAT;
  indx : list FTRI;
  vect : list FVEC;
  norm : list FVEC;
  clrs : list FCLR;
  texc : list FTEX
}.

End Mesh.

Definition USE_NONE : Z := 0.
Definition USE_ARBV : Z := Z.shiftl 1 0.
Definition USE_FILL : Z := Z.shiftl 1 1.
Definition USE_NORM : Z := Z.shiftl 1 2.
Definition USE_TEXC : Z := Z.shiftl 1 3.
Definition USE_CLRS : Z := Z.shiftl 1 4.
Definition USE_OBJS : Z := Z.shiftl 1 5.

Definition DEF_LPWR : Z := 7.
Definition DEF_NOBJ : Z := 50.
Definition DEF_FEXL : Z := 4.
Definition DEF_FEXT : string := ".txt".

Section MakeVBO.
Context {FO : FloatOps}.

(** [MakeVBO(ndot)]: zeroed arrays for [ndot] vertices. *)
Definition MakeVBO (ndot0 : Z) : option FVBO :=
  if ndot0 =? 0 then None
  else Some {| next := None; flgs := 0; ndim := 0; ndot := ndot0; npol := 0;
               ntex := None; seed := 0; grid := f0; wlvl := f0;
               indx := calloc FTRI_zero (1 + Z.shiftr ndot0 1);
               vect := calloc FVEC_zero ndot0;
               norm := calloc FVEC_zero ndot0;
               clrs := calloc 0 ndot0;
               texc := calloc FTEX_zero ndot0 |}.

End MakeVBO.

Section FacetTex.
Context {RO : RandOps}.

(** The texels MakeFacetTex draws. Its two loops write [ctex[0]],
    [ctex[1]], ... in this order, one draw of [rand] each; [n] is the
    number of texels left and [done] the texels written so far, last
    first. *)
Fixpoint draw_texels (n : nat) (trns : bool) (rndc : Z) (done : list FCLR) (g : rng) :
    list FCLR * rng :=
  match n with
  | O => (rev_append done [], g)
  | S n' =>
      let '(r, g') := rand g in
      let v := Z.land (r mod rndc - rndc) 0xFF in
      let c := if trns
               then set_A (set_B (set_G (set_R 0 255) 255) 255) v
               else set_A (set_B (set_G (set_R 0 v) v) v) 255 in
      draw_texels n' trns rndc (c :: done) g'
  end.

Definition facet_texels (trns : bool) (rndc : Z) (g : rng) : list FCLR * rng :=
  let itex := 2 ^ 8 in
  draw_texels (Z.to_nat (itex * itex)) trns rndc [] g.

(** [MakeFacetTex(rndc)]: [None] stands for the texture name 0. *)
Definition MakeFacetTex (rndc : Z) (g : rng) : option (list FCLR) * rng :=
  let trns := rndc <? 0 in
  let rndc := Z.abs rndc mod 257 in
  if rndc =? 0 then (None, g)
  else let r := facet_texels trns rndc g in (Some (fst r), snd r).

End FacetTex.

(** ** The environment of a run *)

(** What a run takes from its surroundings: whether the ARB buffer
    functions were loaded, the contents of the block [malloc] returns for
    [ftmp], and the cell that lies one past the heightmap. *)
Record Env {FO : FloatOps} := mkEnv {
  has_ARB : bool;
  stale : Z -> FLOAT;
  past_end : FLOAT
}.

Section Landscape.
Context {FO : FloatOps} {RO : RandOps}.

(** The index loop: twelve slots for each of the [ndim * ndim] cells. *)
Definition index_cell (nd dpos : Z) : FTRI :=
  {| ta := dpos + (nd + 1); tb := dpos; tc := dpos + 1;
     td := dpos + (nd + 1); te := dpos + 1; tf := dpos + (nd + nd + 2) + 1;
     tg := dpos + (nd + 1); th := dpos + (nd + nd + 2) + 1; ti := dpos + (nd + nd + 2);
     tj := dpos + (nd + 1); tk := dpos + (nd + nd + 2); tl := dpos |}.

Definition index_pass (nd : Z) (indx0 : list FTRI) : list FTRI :=
  snd (for_up 0 nd 1
         (fun y '(i, ix) =>
            let dpos := Z.shiftl (y * (nd + 1)) 1 in
            let '(_, i, ix) :=
              for_up 0 nd 1
                (fun x '(dpos, i, ix) => (dpos + 1, i + 1, aset ix i (index_cell nd dpos)))
                (dpos, i, ix) in
            (i, ix))
         (0, indx0)).

(** The minimum and maximum of the heightmap; the loop starts at the cell
    one past the end. *)
Definition height_range (e : Env) (nd : Z) (farr : list FLOAT) : FLOAT * FLOAT :=
  for_down ((nd + 1) * (nd + 1)) (-1)
    (fun x '(fmin, fmax) =>
       let h := aget (past_end e) farr x in
       (if fltb fmin h then fmin else h, if fltb h fmax then fmax else h))
    (aget f0 farr 0, aget f0 farr 0).

(** The corner vertices: planar position, scaled height, clamped from
    below to [wl]. *)
Definition corner_vertices (nd : Z) (gr fh wl fmin fmax : FLOAT) (farr : list FLOAT)
    (vect0 : list FVEC) : list FVEC :=
  for_up 0 (nd + 1) 1
    (fun y vc =>
       let dpos := Z.shiftl (y * (nd + 1)) 1 in
       snd (for_up 0 (nd + 1) 1
              (fun x '(dpos, vc) =>
                 let px := fsub (fmul gr (of_Z x)) (fmul (fmul (flit 1 (-1)) gr) (of_Z nd)) in
                 let py := fsub (fmul gr (of_Z y)) (fmul (fmul (flit 1 (-1)) gr) (of_Z nd)) in
                 let pz := fsub (fmul (fsub (aget f0 farr (x + y * (nd + 1))) fmin) fmax)
                                (fmul (flit 1 (-1)) fh) in
                 let pz := if fltb pz wl then wl else pz in
                 (dpos + 1, aset vc dpos (mkFVEC px py pz)))
              (dpos, vc)))
    vect0.

(** The centre vertices: the mean of the four corners of the cell. *)
Definition center_vertices (nd : Z) (gr : FLOAT) (vect0 : list FVEC) : list FVEC :=
  for_up 0 nd 1
    (fun y vc =>
       let dpos := (nd + 1) + Z.shiftl (y * (nd + 1)) 1 in
       snd (for_up 0 nd 1
              (fun x '(dpos, vc) =>
                 let px := fsub (fmul gr (fadd (of_Z x) (flit 1 (-1))))
                                (fmul (fmul (flit 1 (-1)) gr) (of_Z nd)) in
                 let py := fsub (fmul gr (fadd (of_Z y) (flit 1 (-1))))
                                (fmul (fmul (flit 1 (-1)) gr) (of_Z nd)) in
                 let pz := fmul (flit 1 (-2))
                             (fadd (fadd (fadd (vz (aget FVEC_zero vc (dpos - nd - 1)))
                                               (vz (aget FVEC_zero vc (dpos - nd - 0))))
                                         (vz (aget FVEC_zero vc (dpos + nd + 1))))
                                   (vz (aget FVEC_zero vc (dpos + nd + 2)))) in
                 (dpos + 1, aset vc dpos (mkFVEC px py pz)))
              (dpos, vc)))
    vect0.

(** [for (fmax = i = 0; lscp[i].fhei > 0.0; i++) fmax += lscp[i].fhei]:
    the sum of the band heights and the index of the band that ends the
    table. [rest] is the table from [lscp[i]] on; walking off it crashes. *)
Fixpoint band_total (rest : list FHEI) (i : Z) (fmax : FLOAT) : outcome (FLOAT * Z) :=
  match rest with
  | [] => Crash
  | b :: rest' =>
      if fltb f0 (fhei b) then band_total rest' (i + 1) (fadd fmax (fhei b))
      else Ret (fmax, i)
  end.

(** [while (lscp[i].fhei > 0.0 && (fmin -= lscp[i].fhei) > 0.0) i++]. *)
Fixpoint band_walk (rest : list FHEI) (i : Z) (fmin : FLOAT) : outcome Z :=
  match rest with
  | [] => Crash
  | b :: rest' =>
      if fltb f0 (fhei b)
      then let fmin := fsub fmin (fhei b) in
           if fltb f0 fmin then band_walk rest' (i + 1) fmin else Ret i
      else Ret i
  end.

(** [lscp[i]]. *)
Definition band_at (lscp : list FHEI) (i : Z) : outcome FHEI :=
  if i <? 0 then Crash
  else match lscp !! Z.to_nat i with
       | Some b => Ret b
       | None => Crash
       end.

(** The band colour of a vertex whose scaled height is [fmin], alpha
    forced to 255. *)
Definition band_color (lscp : list FHEI) (fmin : FLOAT) : outcome FCLR :=
  i ← band_walk lscp 0 fmin;
  b ← band_at lscp i;
  let i := if fleb (fhei b) f0 then i - 1 else i in
  b ← band_at lscp i;
  Ret (Z.lor (fclr b) 0xFF000000).

(** The colour of the corner vertex [(x, y)]. *)
Definition corner_color (nd : Z) (fh wl fmax : FLOAT) (wclr wtrn : Z) (lscp : list FHEI)
    (vc : list FVEC) (y x : Z) (cl : list FCLR) : outcome (list FCLR) :=
  let dpos := Z.shiftl (y * (nd + 1)) 1 in
  let z := vz (aget FVEC_zero vc (dpos + x)) in
  let fmin := fdiv (fmul fmax (fsub z wl)) (fsub (fmul (flit 1 (-1)) fh) wl) in
  c ← band_color lscp fmin;
  let cl := aset cl (dpos + x) c in
  if feqb z wl then
    let xl := if 0 <? x then x - 1 else nd - 1 in
    let xh := if x <? nd then x else 0 in
    let yl := if 0 <? y then dpos - (nd + 1) else (nd + 1) + Z.shiftl ((nd - 1) * (nd + 1)) 1 in
    let yh := if y <? nd then dpos + (nd + 1) else (nd + 1) in
    if feqb (vz (aget FVEC_zero vc (xl + yl))) wl &&
       feqb (vz (aget FVEC_zero vc (xl + yh))) wl &&
       feqb (vz (aget FVEC_zero vc (xh + yl))) wl &&
       feqb (vz (aget FVEC_zero vc (xh + yh))) wl
    then Ret (aset cl (dpos + x) (Z.lor wclr (uint (wtrn * 0x1000000))))
    else Ret cl
  else Ret cl.

Definition corner_colors (nd : Z) (fh wl fmax : FLOAT) (wclr wtrn : Z) (lscp : list FHEI)
    (vc : list FVEC) (clrs0 : list FCLR) : outcome (list FCLR) :=
  for_up 0 (nd + 1) 1
    (fun y ocl =>
       for_up 0 (nd + 1) 1
         (fun x ocl => cl ← ocl; corner_color nd fh wl fmax wclr wtrn lscp vc y x cl)
         ocl)
    (Ret clrs0).

(** The colour of the centre vertex of the cell [(x, y)]. *)
Definition center_color (nd : Z) (wl : FLOAT) (wclr wtrn : Z) (vc : list FVEC)
    (y x : Z) (cl : list FCLR) : list FCLR :=
  let dpos := Z.shiftl (y * (nd + 1)) 1 in
  let xl := x in
  let xh := if x <? nd then x + 1 else 0 in
  let yl := dpos in
  let yh := if y <? nd then dpos + Z.shiftl (nd + 1) 1 else 0 in
  let c00 := aget 0 cl (xl + yl) in
  let c01 := aget 0 cl (xl + yh) in
  let c10 := aget 0 cl (xh + yl) in
  let c11 := aget 0 cl (xh + yh) in
  let c := aget 0 cl (dpos + x + (nd + 1)) in
  let c := set_R c (Z.shiftr (FCLR_R c00 + FCLR_R c01 + FCLR_R c10 + FCLR_R c11) 2) in
  let c := set_G c (Z.shiftr (FCLR_G c00 + FCLR_G c01 + FCLR_G c10 + FCLR_G c11) 2) in
  let c := set_B c (Z.shiftr (FCLR_B c00 + FCLR_B c01 + FCLR_B c10 + FCLR_B c11) 2) in
  let c := set_A c 255 in
  let c :=
    if feqb (vz (aget FVEC_zero vc (dpos + x + (nd + 1)))) wl then
      let i := ((if FCLR_A c00 =? wtrn then 0 else 1) +
                (if FCLR_A c01 =? wtrn then 0 else 1) +
                (if FCLR_A c10 =? wtrn then 0 else 1) +
                (if FCLR_A c11 =? wtrn then 0 else 1)) * (255 - wtrn) in
      let c := if i =? 0 then wclr else c in
      set_A c (wtrn + Z.shiftr i 2)
    else c in
  aset cl (dpos + x + (nd + 1)) c.

Definition center_colors (nd : Z) (wl : FLOAT) (wclr wtrn : Z) (vc : list FVEC)
    (clrs0 : list FCLR) : list FCLR :=
  for_up 0 (nd + 1) 1
    (fun y cl => for_up 0 (nd + 1) 1 (center_color nd wl wclr wtrn vc y) cl)
    clrs0.

(** The gradient of the corner vertices ([norm.x] and [norm.y]). *)
Definition corner_normals (nd : Z) (vc : list FVEC) (norm0 : list FVEC) : list FVEC :=
  for_up 0 (nd + 1) 1
    (fun y nm =>
       let dpos := Z.shiftl (y * (nd + 1)) 1 in
       for_up 0 (nd + 1) 1
         (fun x nm =>
            let nx := fsub (vz (aget FVEC_zero vc (dpos + (if 0 <? x then x - 1 else nd - 1))))
                           (vz (aget FVEC_zero vc (dpos + (if x <? nd then x + 1 else 1)))) in
            let nm := aset nm (dpos + x) (set_vx (aget FVEC_zero nm (dpos + x)) nx) in
            let ny := fsub (vz (aget FVEC_zero vc
                                  (x + (if 0 <? y then dpos - Z.shiftl (nd + 1) 1
                                        else Z.shiftl ((nd - 1) * (nd + 1)) 1))))
                           (vz (aget FVEC_zero vc
                                  (x + (if y <? nd then dpos + Z.shiftl (nd + 1) 1
                                        else Z.shiftl (nd + 1) 1)))) in
            aset nm (dpos + x) (set_vy (aget FVEC_zero nm (dpos + x)) ny))
         nm)
    norm0.

(** The gradient of the centre vertices. *)
Definition center_normals (nd : Z) (vc : list FVEC) (norm0 : list FVEC) : list FVEC :=
  for_up 0 nd 1
    (fun y nm =>
       let dpos := (nd + 1) + Z.shiftl (y * (nd + 1)) 1 in
       for_up 0 nd 1
         (fun x nm =>
            let nx := fsub (vz (aget FVEC_zero vc (dpos + (if 0 <? x then x - 1 else nd - 1))))
                           (vz (aget FVEC_zero vc (dpos + (if x <? nd - 1 then x + 1 else 0)))) in
            let nm := aset nm (dpos + x) (set_vx (aget FVEC_zero nm (dpos + x)) nx) in
            let ny := fsub (vz (aget FVEC_zero vc
                                  (x + (if 0 <? y then dpos - Z.shiftl (nd + 1) 1
                                        else (nd + 1) + Z.shiftl ((nd - 1) * (nd + 1)) 1))))
                           (vz (aget FVEC_zero vc
                                  (x + (if y <? nd - 1 then dpos + Z.shiftl (nd + 1) 1
                                        else nd + 1)))) in
            aset nm (dpos + x) (set_vy (aget FVEC_zero nm (dpos + x)) ny))
         nm)
    norm0.

(** [norm.z = 2 * grid], then every normal is scaled to unit length. *)
Definition unit_normals (nd : Z) (gr : FLOAT) (norm0 : list FVEC) : list FVEC :=
  for_down (Z.shiftl nd 1) (-1)
    (fun y nm =>
       for_up (y * (nd + 1)) (nd + y * (nd + 1) + 1) 1
         (fun x nm =>
            let n := set_vz (aget FVEC_zero nm x) (fmul (flit 2 0) gr) in
            let fmax := fdiv (flit 1 0)
                          (fsqrt (fadd (fadd (fmul (vx n) (vx n)) (fmul (vy n) (vy n)))
                                       (fmul (vz n) (vz n)))) in
            aset nm x (mkFVEC (fmul (vx n) fmax) (fmul (vy n) fmax) (fmul (vz n) fmax)))
         nm)
    norm0.

(** The texture coordinates of the corner and of the centre vertices. *)
Definition texture_coords (nd : Z) (texc0 : list FTEX) : list FTEX :=
  for_down nd (-1)
    (fun y tc =>
       let dpos := Z.shiftl (y * (nd + 1)) 1 in
       snd (for_up 0 (nd + 1) 1
              (fun x '(dpos, tc) =>
                 let tc := aset tc dpos (mkFTEX (of_Z x) (of_Z y)) in
                 let tc := aset tc (dpos + (nd + 1))
                             (mkFTEX (fadd (of_Z x) (flit 1 (-1)))
                                     (fadd (of_Z y) (flit 1 (-1)))) in
                 (dpos + 1, tc))
              (dpos, tc)))
    texc0.

(** *** ObjectVBO *)

(** The first centre vertex of row [y] of the cells. *)
Definition center_row (nd y : Z) : Z := (nd + 1) + Z.shiftl (y * (nd + 1)) 1.

(** The first scan: how many centre vertices lie above the water. *)
Definition count_spots (vobj : FVBO) : Z :=
  for_up 0 (ndim vobj) 1
    (fun y xh =>
       for_up (center_row (ndim vobj) y) (ndim vobj + center_row (ndim vobj) y) 1
         (fun x xh =>
            if fltb (wlvl vobj) (vz (aget FVEC_zero (vect vobj) x)) then xh + 1 else xh)
         xh)
    0.

(** The second scan: [farr[--yh] = x] for each of them. *)
Definition fill_spots (vobj : FVBO) (xh : Z) : list Z :=
  snd (for_up 0 (ndim vobj) 1
         (fun y st =>
            for_up (center_row (ndim vobj) y) (ndim vobj + center_row (ndim vobj) y) 1
              (fun x '(yh, farr) =>
                 if fltb (wlvl vobj) (vz (aget FVEC_zero (vect vobj) x))
                 then (yh - 1, aset farr (yh - 1) x)
                 else (yh, farr))
              st)
         (xh, malloc (fun _ => 0) xh)).

(** The draw of [xl] of the [xh] spots: [fobj[xl] = farr[x]], then the
    last spot takes the place of the drawn one. *)
Definition draw_spot (xl : Z) (st : Z * list Z * list Z * rng) : Z * list Z * list Z * rng :=
  let '(xh, fobj, farr, g) := st in
  let '(r, g') := rand g in
  let x := Z.rem r xh in
  let fobj := aset fobj xl (aget 0 farr x) in
  let xh := xh - 1 in
  let farr := aset farr x (aget 0 farr xh) in
  (xh, fobj, farr, g').

(** [fobj] after the selection loop: [fobj[0]] is the number of anchors,
    [fobj[1 ..]] are the anchors. *)
Definition select_spots (vobj : FVBO) (inum : Z) (g : rng) : list Z * rng :=
  let xh := count_spots vobj in
  let xl := if xh <? inum then xh else inum in
  let fobj := aset (malloc (fun _ => 0) (1 + xl)) 0 xl in
  let farr := fill_spots vobj xh in
  let '(_, fobj, _, g) := for_down xl 0 draw_spot (xh, fobj, farr, g) in
  (fobj, g).

(** The arrays of the prop mesh. *)
Definition prop_arrays : Type :=
  list FTRI * list FVEC * list FVEC * list FCLR * list FTEX.

(** A coordinate of a vertex of the ring of tier [y]. *)
Definition ring_coord (b p e fy : FLOAT) : FLOAT :=
  fadd (fadd b (fmul (fmul (fsub p b) (flit 3 (-2)))
                     (fsub (flit 1 0) (fmul (fmul (flit 1 (-2)) (flit 3 (-2))) fy))))
       (fmul e fy).

Definition ring_vertex (fbgn p fend : FVEC) (fy : FLOAT) : FVEC :=
  mkFVEC (ring_coord (vx fbgn) (vx p) (vx fend) fy)
         (ring_coord (vy fbgn) (vy p) (vy fend) fy)
         (ring_coord (vz fbgn) (vz p) (vz fend) fy).

(** Tier [y] of the prop number [x]. *)
Definition prop_tier (fbgn fend fv00 fv01 fv11 fv10 nrm : FVEC) (x y : Z)
    (arr : prop_arrays) : prop_arrays :=
  let '(ix, vc, nm, cl, tc) := arr in
  let xl := x * 3 + y in
  let xh := xl * 5 in
  let ix := aset ix xl (mkFTRI (xh + 0) (xh + 4) (xh + 1)
                               (xh + 0) (xh + 1) (xh + 2)
                               (xh + 0) (xh + 2) (xh + 3)
                               (xh + 0) (xh + 3) (xh + 4)) in
  let cl := aset cl (xh + 0) 0xFF00B000 in
  let cl := aset cl (xh + 1) 0xFF00B000 in
  let cl := aset cl (xh + 2) 0xFF00B000 in
  let cl := aset cl (xh + 3) 0xFF00B000 in
  let cl := aset cl (xh + 4) 0xFF00B000 in
  let nm := aset nm (xh + 0) nrm in
  let vc := aset vc (xh + 0)
              (mkFVEC (fadd (vx fbgn) (fmul (vx fend) (of_Z (y + 2))))
                      (fadd (vy fbgn) (fmul (vy fend) (of_Z (y + 2))))
                      (fadd (vz fbgn) (fmul (vz fend) (of_Z (y + 2))))) in
  let vc := aset vc (xh + 1) (ring_vertex fbgn fv00 fend (of_Z y)) in
  let vc := aset vc (xh + 2) (ring_vertex fbgn fv01 fend (of_Z y)) in
  let vc := aset vc (xh + 3) (ring_vertex fbgn fv11 fend (of_Z y)) in
  let vc := aset vc (xh + 4) (ring_vertex fbgn fv10 fend (of_Z y)) in
  let tc := aset tc (xh + 0) (mkFTEX (fmul (flit 1 (-1)) (flit 1 (-2)))
                                     (fmul (flit 1 (-1)) (flit 1 (-2)))) in
  let tc := aset tc (xh + 2) (set_tu (aget FTEX_zero tc (xh + 2)) (flit 1 (-2))) in
  let tc := aset tc (xh + 4) (set_tu (aget FTEX_zero tc (xh + 4)) (flit 1 (-2))) in
  (ix, vc, nm, cl, tc).

(** The three tiers of the prop number [x], anchored at [fobj[x + 1]]. *)
Definition prop_object (vobj : FVBO) (fobj : list Z) (rgrid : FLOAT) (x : Z)
    (arr : prop_arrays) : prop_arrays :=
  let anchor := aget 0 fobj (x + 1) in
  let fv00 := aget FVEC_zero (vect vobj) (anchor - (ndim vobj + 1) + 0) in
  let fv01 := aget FVEC_zero (vect vobj) (anchor - (ndim vobj + 1) + 1) in
  let fv11 := aget FVEC_zero (vect vobj) (anchor + (ndim vobj + 1) + 1) in
  let fv10 := aget FVEC_zero (vect vobj) (anchor + (ndim vobj + 1) + 0) in
  let fbgn := aget FVEC_zero (vect vobj) anchor in
  let fend := aget FVEC_zero (norm vobj) anchor in
  let fend := mkFVEC (fmul (vx fend) (fmul (flit 1 (-1)) rgrid))
                     (fmul (vy fend) (fmul (flit 1 (-1)) rgrid))
                     (fmul (vz fend) (fmul (flit 1 (-1)) rgrid)) in
  for_up 0 3 1
    (prop_tier fbgn fend fv00 fv01 fv11 fv10 (aget FVEC_zero (norm vobj) anchor) x)
    arr.

(** [ObjectVBO(vobj, inum)]. With no spot above the water [MakeVBO(0)]
    is NULL and the next statement writes through it. *)
Definition ObjectVBO (vobj : option FVBO) (inum : Z) (g : rng) : outcome (option FVBO) :=
  match vobj with
  | None => Ret None
  | Some vobj =>
      if inum =? 0 then Ret None
      else
        let '(fobj, g) := select_spots vobj inum g in
        match MakeVBO (uint (3 * 5 * aget 0 fobj 0)) with
        | None => Crash
        | Some retn =>
            let '(tex, g) := MakeFacetTex 64 g in
            let rgrid := fdiv (grid vobj) (of_Z (ndim vobj)) in
            let '(ix, vc, nm, cl, tc) :=
              for_down (aget 0 fobj 0 - 1) (-1) (prop_object vobj fobj rgrid)
                (indx retn, vect retn, norm retn, clrs retn, texc retn) in
            Ret (Some {| next := next retn; flgs := USE_ARBV; ndim := ndim retn;
                         ndot := ndot retn; npol := uint (3 * 3 * 4 * aget 0 fobj 0);
                         ntex := tex; seed := seed retn; grid := rgrid; wlvl := wlvl retn;
                         indx := ix; vect := vc; norm := nm; clrs := cl; texc := tc |})
        end
  end.

(** *** LandscapeVBO *)

Definition set_next (v : FVBO) (nx : option FVBO) : FVBO :=
  {| next := nx; flgs := flgs v; ndim := ndim v; ndot := ndot v; npol := npol v;
     ntex := ntex v; seed := seed v; grid := grid v; wlvl := wlvl v;
     indx := indx v; vect := vect v; norm := norm v; clrs := clrs v; texc := texc v |}.

(** The heightmap LandscapeVBO builds: [srand(seed)], then
    [BlurHeightmap(farr = MakeHeightmap(ndim, 1.0), ndim, 1.5)]. *)
Definition landscape_heightmap (e : Env) (nd seed0 : Z) :
    outcome (option (list FLOAT) * rng) :=
  match MakeHeightmap nd (flit 1 0) (srand seed0) with
  | Crash => Crash
  | Ret (None, g) => Ret (None, g)
  | Ret (Some farr, g) => Ret (Some (BlurHeightmap (stale e) farr nd (flit 3 (-1))), g)
  end.

(** The colours of the vertices [vc]: the sum of the band heights and
    the water colour [wclr] with its transparency [wtrn] from the band
    that ends the table, then the corner and the centre vertices. *)
Definition landscape_colors (nd : Z) (fh wl : FLOAT) (lscp : list FHEI) (vc : list FVEC)
    (clrs0 : list FCLR) : outcome (list FCLR) :=
  '(fmax, i) ← band_total lscp 0 (of_Z 0);
  b ← band_at lscp i;
  let wclr := Z.land (fclr b) 0xFFFFFF in
  let wtrn := FCLR_A (fclr b) in
  cl ← corner_colors nd fh wl fmax wclr wtrn lscp vc clrs0;
  Ret (center_colors nd wl wclr wtrn vc cl).

(** The landscape built from the heightmap [farr]: the statements of
    LandscapeVBO from the scan for the height range to the assignment of
    [npol]. [retn] is the result of MakeVBO, [ix] its index array after
    the index loop. *)
Definition landscape_mesh (e : Env) (nd flgs1 seed0 : Z) (gr fh wl : FLOAT) (lscp : list FHEI)
    (retn : FVBO) (ix : list FTRI) (farr : list FLOAT) (g : rng) : outcome (FVBO * rng) :=
  let '(fmin, fmax) := height_range e nd farr in
  let fmax := fdiv fh (fsub fmax fmin) in
  let vc := corner_vertices nd gr fh wl fmin fmax farr (vect retn) in
  let vc := center_vertices nd gr vc in
  cl ← landscape_colors nd fh wl lscp vc (clrs retn);
  let nm := corner_normals nd vc (norm retn) in
  let nm := center_normals nd vc nm in
  let nm := unit_normals nd gr nm in
  let tex := MakeFacetTex 64 g in
  let tc := texture_coords nd (texc retn) in
  Ret ({| next := None; flgs := flgs1; ndim := nd; ndot := ndot retn;
          npol := uint (3 * 4 * nd * nd); ntex := fst tex; seed := seed0;
          grid := fmul (of_Z nd) gr; wlvl := wl;
          indx := ix; vect := vc; norm := nm; clrs := cl; texc := tc |}, snd tex).

(** [LandscapeVBO(ndim, flgs, seed, grid, fhei, wlvl, lscp, file)]; the
    mesh it returns. What it writes to [file] is [LandscapeVBO_file]. *)
Definition LandscapeVBO (e : Env) (ndim0 flgs0 seed0 : Z) (grid0 fhei0 wlvl0 : FLOAT)
    (lscp : option (list FHEI)) : outcome (option FVBO) :=
  match lscp with
  | None => Ret None
  | Some lscp =>
      if (ndim0 =? 0) || fleb grid0 f0 then Ret None
      else
        let flgs1 := if has_ARB e then flgs0 else Z.land flgs0 (uint (Z.lnot USE_ARBV)) in
        let nd := uint (2 ^ ndim0) in
        let fh := fabs fhei0 in
        let wl := if fltb (fmul (flit (-1) (-1)) fh) wlvl0 then wlvl0
                  else fmul (flit (-1) (-1)) fh in
        match MakeVBO (uint ((nd + 1) * (nd + nd + 2))) with
        | None => Crash
        | Some retn =>
            let ix := index_pass nd (indx retn) in
            match landscape_heightmap e nd seed0 with
            | Crash => Crash
            | Ret (None, _) => Crash
            | Ret (Some farr, g) =>
                '(land, g) ← landscape_mesh e nd flgs1 seed0 grid0 fh wl lscp retn ix farr g;
                nx ← ObjectVBO (Some land) DEF_NOBJ g;
                Ret (Some (set_next land nx))
            end
        end
  end.

End Landscape.

(** ** Serialization *)

(** [strstr(s, needle)]: the part of [s] from the first occurrence of
    [needle] on, [None] for NULL. *)
Fixpoint strstr (s needle : string) : option string :=
  if String.prefix needle s then Some s
  else match s with
       | EmptyString => None
       | String _ s' => strstr s' needle
       end.

Definition strlen (s : string) : Z := Z.of_nat (String.length s).

(** The test both Serialize and Deserialize make on the path:
    [(file = strstr(file, DEF_FEXT)) && (strlen(file) == DEF_FEXL)]. *)
Definition text_format (file : string) : bool :=
  match strstr file DEF_FEXT with
  | Some rest => strlen rest =? DEF_FEXL
  | None => false
  end.

(** The two wire formats. A file holds an [image]; the thirteen values
    are the seed, the flags and eleven floats. *)
Class WireOps {FO : FloatOps} := {
  image : Type;
  (** [fprintf(filp, DEF_FRMT, ...)] *)
  print_FRMT : Z -> Z -> list FLOAT -> image;
  (** [fscanf(filp, DEF_FRMT, ...)]: the variables afterwards *)
  scan_FRMT : image -> Z * Z * list FLOAT -> Z * Z * list FLOAT;
  (** the six [fwrite] *)
  write_raw : Z -> Z -> list FLOAT -> image;
  (** the six [fread]: the variables afterwards *)
  read_raw : image -> Z * Z * list FLOAT -> Z * Z * list FLOAT
}.

Section Persistence.
Context {FO : FloatOps} {RO : RandOps} {WO : WireOps}.

(** The camera and the light: the globals [fang], [ftrn], [ldir], [lpos]. *)
Record camera := mkCamera {
  fang : FTEX;
  ftrn : FVEC;
  ldir : list FLOAT;
  lpos : list FLOAT
}.

(** The eleven floats in the order both formats store them. *)
Definition camera_fields (cam : camera) : list FLOAT :=
  [tu (fang cam); tv (fang cam);
   vx (ftrn cam); vy (ftrn cam); vz (ftrn cam);
   aget f0 (ldir cam) 0; aget f0 (ldir cam) 1; aget f0 (ldir cam) 2;
   aget f0 (lpos cam) 0; aget f0 (lpos cam) 1; aget f0 (lpos cam) 2].

Definition set_camera_fields (cam : camera) (fl : list FLOAT) : camera :=
  {| fang := mkFTEX (aget f0 fl 0) (aget f0 fl 1);
     ftrn := mkFVEC (aget f0 fl 2) (aget f0 fl 3) (aget f0 fl 4);
     ldir := aset (aset (aset (ldir cam) 0 (aget f0 fl 5)) 1 (aget f0 fl 6)) 2 (aget f0 fl 7);
     lpos := aset (aset (aset (lpos cam) 0 (aget f0 fl 8)) 1 (aget f0 fl 9)) 2 (aget f0 fl 10) |}.

(** [CamLightReset()]. *)
Definition CamLightReset : camera :=
  {| fang := mkFTEX (flit 0 0) (flit (-60) 0);
     ftrn := mkFVEC (flit 0 0) (flit 0 0) (fmul (flit (-1) (-1)) (flit 600 0));
     ldir := [flit 0 0; flit 0 0; flit (-1) 0; flit 1 0];
     lpos := [flit 0 0; flit 0 0; fmul (flit 10 0) (flit 600 0); flit 1 0] |}.

(** The files: what [fopen(file, "rb")] finds, and whether
    [fopen(file, "wb")] succeeds. *)
Record files := mkFiles {
  fopen_rb : string -> option image;
  fopen_wb : string -> bool
}.

(** [Serialize(file, vobj)]: what [file] holds afterwards, [None] when it
    could not be opened. *)
Definition Serialize (fs : files) (cam : camera) (file : string) (vobj : FVBO) : option image :=
  if fopen_wb fs file then
    Some (if text_format file
          then print_FRMT (seed vobj) (flgs vobj) (camera_fields cam)
          else write_raw (seed vobj) (flgs vobj) (camera_fields cam))
  else None.

(** What LandscapeVBO writes: [if (file) Serialize(file, retn)]. *)
Definition LandscapeVBO_file (fs : files) (cam : camera) (file : option string)
    (res : outcome (option FVBO)) : option image :=
  match res, file with
  | Ret (Some retn), Some file => Serialize fs cam file retn
  | _, _ => None
  end.

(** The band table of Deserialize. *)
Definition Deserialize_lscp : list FHEI :=
  [ {| fhei := flit 13421773 (-27); fclr := 0xFF76DDFC |};
    {| fhei := flit 8 0; fclr := 0xFF30A15D |};
    {| fhei := flit 13 (-1); fclr := 0xFF808080 |};
    {| fhei := flit 5 0; fclr := 0xFFFFFFFF |};
    {| fhei := flit 0 0; fclr := 0x80AC630D |} ].

(** [Deserialize(file, open, flgs, seed)]. [g] is the state of the
    generator on entry and [now] the value of [time(0)]. The result is
    the camera, the mesh, and what the call writes to [file]. *)
Definition Deserialize (e : Env) (fs : files) (g : rng) (now : Z)
    (file : string) (open : bool) (flgs0 seed0 : Z) :
    camera * outcome (option FVBO) * option image :=
  let cam := CamLightReset in
  let seed1 := if seed0 =? 0 then uint (fst (rand g) * now) else seed0 in
  let '(seed1, flgs1, fl, file1) :=
    match (if open then fopen_rb fs file else None) with
    | Some img =>
        let '(sd, fg, fl) :=
          if text_format file
          then scan_FRMT img (seed1, flgs0, camera_fields cam)
          else read_raw img (seed1, flgs0, camera_fields cam) in
        (sd, fg, fl, None)
    | None => (seed1, flgs0, camera_fields cam, Some file)
    end in
  let cam := set_camera_fields cam fl in
  let res := LandscapeVBO e DEF_LPWR flgs1 seed1 (flit 16 0) (flit 600 0)
               (fmul (flit (-1) (-2)) (flit 600 0)) (Some Deserialize_lscp) in
  (cam, res, LandscapeVBO_file fs cam file1 res).

End Persistence.

(** ** Drawing *)

(** The GL constants DrawVBO uses, by the parameter they are passed as. *)
Inductive GLmode := GL_FILL | GL_LINE.
Inductive GLcap :=
  GL_VERTEX_ARRAY | GL_NORMAL_ARRAY | GL_TEXTURE_COORD_ARRAY | GL_COLOR_ARRAY | GL_TEXTURE_2D.
Inductive GLtarget := GL_INDEX_BUFFER_ARB | GL_ARRAY_BUFFER_ARB.

(** The buffer objects of a mesh, by the field of [FVBO] that holds
    their name. *)
Inductive GLbuffer := iind | ivec | inrm | itex | iclr.

Section Drawing.
Context {FO : FloatOps}.

(** The calls DrawVBO makes, with their arguments. A buffer is [None]
    for the name 0, an array is [None] for the offset 0 into the buffer
    that is bound. The first argument of [glPolygonMode] is always
    [GL_FRONT_AND_BACK], the mode of [glDrawElements] [GL_TRIANGLES]. *)
Inductive GLcall :=
| glPolygonMode (mode : GLmode)
| glColor4ub (r g b a : Z)
| glEnableClientState (cap : GLcap)
| glDisableClientState (cap : GLcap)
| glEnable (cap : GLcap)
| glDisable (cap : GLcap)
| glBindBufferARB (target : GLtarget) (buffer : option GLbuffer)
| glBindTexture (texture : option (list FCLR))
| glVertexPointer (array : option (list FVEC))
| glNormalPointer (array : option (list FVEC))
| glTexCoordPointer (array : option (list FTEX))
| glColorPointer (array : option (list FCLR))
| glDrawElements (count : Z) (indices : option (list FTRI)).

(** [flgs & bit]. *)
Definition has_flag (fl bit : Z) : bool := negb (Z.land fl bit =? 0).

(** [flgs & ~bit]. *)
Definition clear_flag (fl bit : Z) : Z := Z.land fl (uint (Z.lnot bit)).

Definition set_flgs (v : FVBO) (fl : Z) : FVBO :=
  {| next := next v; flgs := fl; ndim := ndim v; ndot := ndot v; npol := npol v;
     ntex := ntex v; seed := seed v; grid := grid v; wlvl := wlvl v;
     indx := indx v; vect := vect v; norm := norm v; clrs := clrs v; texc := texc v |}.

(** The calls of DrawVBO for one mesh whose flags are [fl], up to the
    test of [next]. *)
Definition draw_calls (fl : Z) (v : FVBO) : list GLcall :=
  [glPolygonMode (if has_flag fl USE_FILL then GL_FILL else GL_LINE)] ++
  (if has_flag fl USE_CLRS then [] else [glColor4ub 255 255 255 255]) ++
  [glEnableClientState GL_VERTEX_ARRAY] ++
  (if has_flag fl USE_ARBV then
     [glBindBufferARB GL_INDEX_BUFFER_ARB (Some iind);
      glBindBufferARB GL_ARRAY_BUFFER_ARB (Some ivec);
      glVertexPointer None] ++
     (if has_flag fl USE_NORM then
        [glEnableClientState GL_NORMAL_ARRAY;
         glBindBufferARB GL_ARRAY_BUFFER_ARB (Some inrm);
         glNormalPointer None]
      else []) ++
     (if has_flag fl USE_TEXC then
        [glEnable GL_TEXTURE_2D;
         glEnableClientState GL_TEXTURE_COORD_ARRAY;
         glBindTexture (ntex v);
         glBindBufferARB GL_ARRAY_BUFFER_ARB (Some itex);
         glTexCoordPointer None]
      else []) ++
     (if has_flag fl USE_CLRS then
        [glEnableClientState GL_COLOR_ARRAY;
         glBindBufferARB GL_ARRAY_BUFFER_ARB (Some iclr);
         glColorPointer None]
      else []) ++
     [glDrawElements (npol v) None;
      glBindBufferARB GL_INDEX_BUFFER_ARB None;
      glBindBufferARB GL_ARRAY_BUFFER_ARB None]
   else
     [glVertexPointer (Some (vect v))] ++
     (if has_flag fl USE_NORM then
        [glEnableClientState GL_NORMAL_ARRAY; glNormalPointer (Some (norm v))]
      else []) ++
     (if has_flag fl USE_TEXC then
        [glEnable GL_TEXTURE_2D;
         glEnableClientState GL_TEXTURE_COORD_ARRAY;
         glBindTexture (ntex v);
         glTexCoordPointer (Some (texc v))]
      else []) ++
     (if has_flag fl USE_CLRS then
        [glEnableClientState GL_COLOR_ARRAY; glColorPointer (Some (clrs v))]
      else []) ++
     [glDrawElements (npol v) (Some (indx v))]) ++
  [glDisableClientState GL_COLOR_ARRAY;
   glDisableClientState GL_TEXTURE_COORD_ARRAY;
   glDisableClientState GL_NORMAL_ARRAY;
   glDisableClientState GL_VERTEX_ARRAY;
   glDisable GL_TEXTURE_2D].

(** DrawVBO on a mesh [v] whose field [flgs] holds [fl] (the caller has
    just written it): the calls made, and the mesh afterwards. *)
Fixpoint draw (fl : Z) (v : FVBO) {struct v} : list GLcall * FVBO :=
  match v with
  | mkFVBO nx _ _ _ _ _ _ _ _ _ _ _ _ _ =>
      match nx with
      | None => (draw_calls fl v, set_flgs v (clear_flag fl USE_OBJS))
      | Some c =>
          if has_flag fl USE_OBJS then
            let flc := if has_flag (flgs c) USE_OBJS then fl else clear_flag fl USE_OBJS in
            let r := draw flc c in
            (draw_calls fl v ++ fst r, set_next (set_flgs v fl) (Some (snd r)))
          else (draw_calls fl v, set_flgs v fl)
      end
  end.

(** [DrawVBO(vobj)]. *)
Definition DrawVBO (vobj : option FVBO) : list GLcall * option FVBO :=
  match vobj with
  | None => ([], None)
  | Some v => let r := draw (flgs v) v in (fst r, Some (snd r))
  end.

End Drawing.

(** ** The window *)

(** [VK_RETURN] and [VK_SPACE] of [windows.h], and a character constant
    of the source. *)
Definition VK_RETURN : Z := 0x0D.
Definition VK_SPACE : Z := 0x20.
Definition chr (c : ascii) : Z := Z.of_N (N_of_ascii c).

Section Window.
Context {FO : FloatOps} {RO : RandOps} {WO : WireOps}.

(** The globals the window procedure works on: [keys] (256 cells),
    the camera and the light, [land] and [path]. *)
Record window := mkWindow {
  keys : list bool;
  cam : camera;
  land : option FVBO;
  path : string
}.

(** [land->flgs ^= bit]. *)
Definition toggle (bit : Z) (w : window) : outcome window :=
  match land w with
  | None => Crash
  | Some v =>
      Ret {| keys := keys w; cam := cam w;
             land := Some (set_flgs v (Z.lxor (flgs v) bit)); path := path w |}
  end.

(** [WM_KEYDOWN]; [arb] tells whether [glGenBuffersARB] is loaded. *)
Definition key_down (arb : bool) (wPrm : Z) (w : window) : outcome window :=
  let k := Z.land wPrm 0xFF in
  let w := {| keys := aset (keys w) k true; cam := cam w; land := land w; path := path w |} in
  if k =? VK_RETURN then
    Ret {| keys := keys w; cam := CamLightReset; land := land w; path := path w |}
  else if k =? chr "Z" then (if arb then toggle USE_ARBV w else Ret w)
  else if k =? chr "X" then toggle USE_FILL w
  else if k =? chr "C" then toggle USE_NORM w
  else if k =? chr "V" then toggle USE_CLRS w
  else if k =? chr "B" then toggle USE_TEXC w
  else if k =? chr "N" then toggle USE_OBJS w
  else Ret w.

(** [WM_KEYUP]. *)
Definition key_up (wPrm : Z) (w : window) : window :=
  {| keys := aset (keys w) (Z.land wPrm 0xFF) false; cam := cam w; land := land w;
     path := path w |}.

(** [WM_DROPFILES]: [file] is the path DragQueryFile stores. *)
Definition drop_files (file : string) (w : window) : window :=
  {| keys := aset (aset (keys w) 0 true) VK_SPACE true; cam := cam w; land := land w;
     path := file |}.

(** The start of [WM_PAINT]: with [keys[VK_SPACE]] set the landscape is
    built anew. The result is the window and what the call writes to
    [path]. *)
Definition regenerate (e : Env) (fs : files) (g : rng) (now : Z) (w : window) :
    outcome (window * option image) :=
  if aget false (keys w) VK_SPACE then
    let keys1 := aset (keys w) VK_SPACE false in
    match land w with
    | None => Crash
    | Some v =>
        let '(cam1, res, out) := Deserialize e fs g now (path w) (aget false keys1 0) (flgs v) 0 in
        match res with
        | Crash => Crash
        | Ret land1 =>
            Ret ({| keys := aset keys1 0 false; cam := cam1; land := land1; path := path w |},
                 out)
        end
    end
  else Ret (w, None).

(** [WM_INITDIALOG]: the landscape the program starts with. *)
Definition init_dialog (e : Env) (fs : files) (g : rng) (now : Z) (file : string) :
    outcome (window * option image) :=
  let '(cam1, res, out) :=
    Deserialize e fs g now file true
      (Z.lor (Z.lor (Z.lor (Z.lor (Z.lor USE_ARBV USE_FILL) USE_NORM) USE_TEXC) USE_CLRS)
         USE_OBJS) 0 in
  match res with
  | Crash => Crash
  | Ret land1 =>
      Ret ({| keys := calloc false 256; cam := cam1; land := land1; path := file |}, out)
  end.

End Window.

(** ** The events of a window *)

Section Session.
Context {FO : FloatOps} {RO : RandOps} {WO : WireOps}.

(** What happens to the window between its creation and its end.
    [Regenerate] is the start of [WM_PAINT]; what the memory, the files,
    the generator and the clock hold at that time comes with it. *)
Inductive event :=
| KeyDown (wPrm : Z)
| KeyUp (wPrm : Z)
| DropFiles (file : string)
| Regenerate (stale : Z -> FLOAT) (past : FLOAT) (fs : files) (g : rng) (now : Z)
| Draw.

Definition set_land (w : window) (l : option FVBO) : window :=
  {| keys := keys w; cam := cam w; land := l; path := path w |}.

(** One event; the GL calls of DrawVBO are added to the trace. *)
Definition step (arb : bool) (ev : event) (st : window * list GLcall) :
    outcome (window * list GLcall) :=
  let '(w, t) := st in
  match ev with
  | KeyDown wPrm => w' ← key_down arb wPrm w; Ret (w', t)
  | KeyUp wPrm => Ret (key_up wPrm w, t)
  | DropFiles file => Ret (drop_files file w, t)
  | Regenerate stale past fs g now =>
      r ← regenerate {| has_ARB := arb; stale := stale; past_end := past |} fs g now w;
      Ret (fst r, t)
  | Draw => let r := DrawVBO (land w) in Ret (set_land w (snd r), t ++ fst r)
  end.

Fixpoint run (arb : bool) (evs : list event) (st : window * list GLcall) :
    outcome (window * list GLcall) :=
  match evs with
  | [] => Ret st
  | ev :: evs' => st' ← step arb ev st; run arb evs' st'
  end.

End Session.

(** ** The command line *)

Definition DEF_FILE : string := "conf" ++ DEF_FEXT.

(** The loop of WinMain that steps over the blanks and the double
    quotes in front of the command line; ["034"] is the double quote. *)
Fixpoint skip_blanks (cmdl : string) : string :=
  match cmdl with
  | String c rest =>
      if (Ascii.eqb c " " || Ascii.eqb c "034")%bool then skip_blanks rest else cmdl
  | EmptyString => cmdl
  end.

(** The copy of the command line is cut at its first double quote. *)
Fixpoint cut_at_quote (s : string) : string :=
  match s with
  | String c rest => if Ascii.eqb c "034" then EmptyString else String c (cut_at_quote rest)
  | EmptyString => EmptyString
  end.

(** The [path] WinMain takes from its command line. *)
Definition command_path (cmdl : string) : string :=
  if strlen cmdl =? 0 then DEF_FILE else cut_at_quote (skip_blanks cmdl).

(** ** Instances for concrete runs *)

(** IEEE-754 single precision, every operation rounded to nearest even. *)
Module Binary32.

Definition prec : Z := 24.
Definition emax : Z := 128.

Definition lit (m e : Z) : spec_float := binary_normalize prec emax m e false.

(** [(LONG)f]: truncation towards zero; what has no [LONG] value gives
    the "integer indefinite" of the x86 conversion. *)
Definition to_long (f : spec_float) : Z :=
  match f with
  | S754_zero _ => 0
  | S754_finite s m e =>
      let v := if 0 <=? e then Z.pos m * 2 ^ e else Z.quot (Z.pos m) (2 ^ (- e)) in
      let v := if s then - v else v in
      if (- 2 ^ 31 <=? v) && (v <? 2 ^ 31) then v else - 2 ^ 31
  | _ => - 2 ^ 31
  end.

(** [floor(ln 2 * 2^128)]. *)
Definition LN2 : Z := 235865763225513294137944142764154484399.

(** The Taylor series of [exp(num / den)], in units of [2^-64]. *)
Fixpoint exp_series (n : nat) (i term sum num den : Z) : Z :=
  match n with
  | O => sum
  | S n' =>
      let term' := Z.quot (term * num) (den * i) in
      exp_series n' (i + 1) term' (sum + term') num den
  end.

(** [exp(num / den)] for a rational argument: [2^q * exp(r)] with
    [num / den = q * ln 2 + r]. *)
Definition exp_ratio (num den : Z) : spec_float :=
  let q := (2 * num * 2 ^ 128 + den * LN2) / (2 * den * LN2) in
  if q <? - 300 then S754_zero false
  else if 300 <? q then S754_infinity false
  else lit (exp_series 40 1 (2 ^ 64) (2 ^ 64) (num * 2 ^ 128 - q * LN2 * den) (den * 2 ^ 128))
           (q - 64).

(** The value [num / den] of a finite float. *)
Definition ratio (s : bool) (m : positive) (e : Z) : Z * Z :=
  ((if s then - Z.pos m else Z.pos m) * (if 0 <=? e then 2 ^ e else 1),
   if 0 <=? e then 1 else 2 ^ (- e)).

Definition exp (f : spec_float) : spec_float :=
  match f with
  | S754_zero _ => lit 1 0
  | S754_infinity s => if s then S754_zero false else f
  | S754_nan => S754_nan
  | S754_finite s m e => let '(num, den) := ratio s m e in exp_ratio num den
  end.

(** [pow(2.0, f)]: exact when [f] is an integer. *)
Definition pow2 (f : spec_float) : spec_float :=
  match f with
  | S754_zero _ => lit 1 0
  | S754_infinity s => if s then S754_zero false else f
  | S754_nan => S754_nan
  | S754_finite s m e =>
      let '(num, den) := ratio s m e in
      if num mod den =? 0 then lit 1 (num / den)
      else exp_ratio (num * LN2) (den * 2 ^ 128)
  end.

End Binary32.

#[global] Instance binary32 : FloatOps := {|
  FLOAT := spec_float;
  flit := Binary32.lit;
  of_Z := fun n => Binary32.lit n 0;
  tr := Binary32.to_long;
  fadd := SFadd Binary32.prec Binary32.emax;
  fsub := SFsub Binary32.prec Binary32.emax;
  fmul := SFmul Binary32.prec Binary32.emax;
  fdiv := SFdiv Binary32.prec Binary32.emax;
  fneg := SFopp;
  fabs := SFabs;
  fsqrt := SFsqrt Binary32.prec Binary32.emax;
  fexp := Binary32.exp;
  fpow2 := Binary32.pow2;
  feqb := SFeqb;
  fltb := SFltb;
  fleb := SFleb
|}.

(** The generator of the Microsoft C runtime: [holdrand] is the state. *)
Definition msvcrt_rand (holdrand : Z) : Z * Z :=
  let holdrand := uint (holdrand * 214013 + 2531011) in
  (Z.land (Z.shiftr holdrand 16) 0x7FFF, holdrand).

#[global] Instance msvcrt : RandOps := {|
  rng := Z;
  srand := fun seed0 => uint seed0;
  rand := msvcrt_rand;
  rand_nonneg := fun g =>
    proj2 (Z.land_nonneg (Z.shiftr (uint (g * 214013 + 2531011)) 16) 0x7FFF)
          (or_intror (proj1 (Z.leb_le 0 0x7FFF) eq_refl))
|}.

(** Wire images that keep the thirteen values and the format they were
    written in ([true] for the text format). A read in the other format
    leaves the variables as they were. *)
#[global] Instance tagged_wire {FO : FloatOps} : WireOps := {|
  image := bool * (Z * Z * list FLOAT);
  print_FRMT := fun sd fg fl => (true, (sd, fg, fl));
  scan_FRMT := fun img old => if fst img then snd img else old;
  write_raw := fun sd fg fl => (false, (sd, fg, fl));
  read_raw := fun img old => if fst img then old else snd img
|}.

(** An environment with the ARB functions loaded, [ftmp] holding [v]
    everywhere and [w] past the heightmap. *)
Definition env_of {FO : FloatOps} (v w : FLOAT) : Env :=
  {| has_ARB := true; stale := fun _ => v; past_end := w |}.

(** * Properties *)

(** ** Machine integers *)

Lemma uint_mod (z : Z) : uint z = z mod 2 ^ 32.
Proof. unfold uint. change 0xFFFFFFFF with (Z.ones 32). apply Z.land_ones. lia. Qed.

Lemma uint_small (z : Z) : 0 <= z < 2 ^ 32 -> uint z = z.
Proof. intros H. rewrite uint_mod. now apply Z.mod_small. Qed.

Lemma long_small (z : Z) : - 2 ^ 31 <= z < 2 ^ 31 -> long z = z.
Proof. intros H. unfold long. rewrite uint_small; lia. Qed.

(** ** Arrays and loops *)

Lemma aget_aset_eq {A} (d : A) (l : list A) (i : Z) (v : A) :
  0 <= i < Z.of_nat (length l) -> aget d (aset l i v) i = v.
Proof.
  intros Hi. unfold aget, aset.
  destruct (i <? 0) eqn:E; [lia|].
  rewrite list_lookup_insert_eq by lia. reflexivity.
Qed.

Lemma aget_aset_ne {A} (d : A) (l : list A) (i j : Z) (v : A) :
  i <> j -> aget d (aset l i v) j = aget d l j.
Proof.
  intros Hij. unfold aget, aset.
  destruct (j <? 0) eqn:Ej; [reflexivity|].
  destruct (i <? 0) eqn:Ei; [reflexivity|].
  rewrite list_lookup_insert_ne by lia. reflexivity.
Qed.

Lemma length_aset {A} (l : list A) (i : Z) (v : A) : length (aset l i v) = length l.
Proof. unfold aset. destruct (i <? 0); [reflexivity|apply length_insert]. Qed.

Lemma length_calloc {A} (z : A) (n : Z) : length (calloc z n) = Z.to_nat n.
Proof. apply length_replicate. Qed.

Lemma aget_calloc {A} (d z : A) (n i : Z) : 0 <= i < n -> aget d (calloc z n) i = z.
Proof.
  intros Hi. unfold aget, calloc.
  destruct (i <? 0) eqn:E; [lia|].
  rewrite lookup_replicate_2 by lia. reflexivity.
Qed.

Lemma length_tabulate_from {A} (f : Z -> A) (i : Z) (n : nat) :
  length (tabulate_from f i n) = n.
Proof. revert i. induction n as [|n IH]; intros i; simpl; [reflexivity|]. now rewrite IH. Qed.


Lemma length_malloc {A} (f : Z -> A) (n : Z) : length (malloc f n) = Z.to_nat n.
Proof. apply length_tabulate_from. Qed.


(** The loop rule: an invariant that may mention the loop variable. *)
Lemma for_up_fuel_inv {S} (P : Z -> S -> Prop) (hi stride : Z) (body : Z -> S -> S) :
  (forall j s, j < hi -> P j s -> P (j + stride) (body j s)) ->
  forall fuel i s, P i s -> exists j, P j (for_up_fuel fuel i hi stride body s).
Proof.
  intros Hstep fuel. induction fuel as [|n IH]; intros i s HP; simpl.
  - eauto.
  - destruct (i <? hi) eqn:E; [|eauto].
    apply IH. apply Hstep; [lia|assumption].
Qed.

Lemma for_up_inv {S} (P : Z -> S -> Prop) (a hi stride : Z) (body : Z -> S -> S) (s : S) :
  P a s ->
  (forall j s, j < hi -> P j s -> P (j + stride) (body j s)) ->
  exists j, P j (for_up a hi stride body s).
Proof. intros H0 Hstep. unfold for_up. now apply for_up_fuel_inv. Qed.

(** The same with an invariant of the state alone; [Q] is what is known
    of the loop variable. *)
Lemma for_up_inv_state {S} (Q : Z -> Prop) (P : S -> Prop) (a hi stride : Z)
    (body : Z -> S -> S) (s : S) :
  Q a -> (forall j, Q j -> j < hi -> Q (j + stride)) ->
  P s -> (forall j s, Q j -> j < hi -> P s -> P (body j s)) ->
  P (for_up a hi stride body s).
Proof.
  intros Qa Qs Ps Hb.
  destruct (for_up_inv (fun j s => Q j /\ P s) a hi stride body s) as [j [_ H]]; auto.
  intros j s' Hj [HQ HP]. split; auto.
Qed.

Lemma for_down_fuel_inv {S} (P : Z -> S -> Prop) (lo : Z) (body : Z -> S -> S) :
  (forall j s, lo < j -> P j s -> P (j - 1) (body j s)) ->
  forall fuel i s, P i s -> exists j, P j (for_down_fuel fuel i lo body s).
Proof.
  intros Hstep fuel. induction fuel as [|n IH]; intros i s HP; simpl.
  - eauto.
  - destruct (lo <? i) eqn:E; [|eauto].
    apply IH. apply Hstep; [lia|assumption].
Qed.

Lemma for_down_inv_state {S} (P : S -> Prop) (a lo : Z) (body : Z -> S -> S) (s : S) :
  P s -> (forall j s, lo < j <= a -> P s -> P (body j s)) ->
  P (for_down a lo body s).
Proof.
  intros Ps Hb. unfold for_down.
  destruct (for_down_fuel_inv (fun j s => j <= a /\ P s) lo body) with
    (fuel := Z.to_nat (a - lo)) (i := a) (s := s) as [j [_ H]]; auto.
  - intros j s' Hj [Hja HP]. split; [lia|]. apply Hb; [lia|assumption].
  - split; [lia|assumption].
Qed.

Lemma halving_inv_state {S} (P : S -> Prop) (a : Z) (body : Z -> S -> S) (s : S) :
  0 <= a -> P s -> (forall j s, 1 <= j -> P s -> P (body j s)) ->
  P (halving a body s).
Proof.
  intros Ha Ps Hb. unfold halving. generalize 32%nat as fuel. intros fuel.
  revert a s Ha Ps. induction fuel as [|n IH]; intros a s Ha Ps; simpl; [assumption|].
  destruct (a =? 0) eqn:E; [assumption|].
  apply IH.
  - apply Z.shiftr_nonneg. lia.
  - apply Hb; [lia|assumption].
Qed.

(** The fuel of [for_up] is enough: more rounds change nothing. *)
Lemma for_up_fuel_enough {S} (hi stride : Z) (body : Z -> S -> S) :
  1 <= stride ->
  forall fuel i s, (Z.to_nat (hi - i) <= fuel)%nat ->
    for_up_fuel fuel i hi stride body s = for_up i hi stride body s.
Proof.
  intros Hs. unfold for_up.
  assert (H : forall n fuel i s, (Z.to_nat (hi - i) <= n)%nat -> (n <= fuel)%nat ->
            for_up_fuel fuel i hi stride body s = for_up_fuel n i hi stride body s).
  { induction n as [|n IH]; intros fuel i s Hn Hf.
    - destruct fuel; simpl; [reflexivity|].
      destruct (i <? hi) eqn:E; [lia|reflexivity].
    - destruct fuel as [|fuel]; [lia|]. simpl.
      destruct (i <? hi) eqn:E; [|reflexivity].
      apply IH; lia. }
  intros fuel i s Hf. apply H; lia.
Qed.

Lemma for_down_fuel_enough {S} (lo : Z) (body : Z -> S -> S) :
  forall fuel i s, (Z.to_nat (i - lo) <= fuel)%nat ->
    for_down_fuel fuel i lo body s = for_down i lo body s.
Proof.
  unfold for_down.
  assert (H : forall n fuel i s, (Z.to_nat (i - lo) <= n)%nat -> (n <= fuel)%nat ->
            for_down_fuel fuel i lo body s = for_down_fuel n i lo body s).
  { induction n as [|n IH]; intros fuel i s Hn Hf.
    - destruct fuel; simpl; [reflexivity|].
      destruct (lo <? i) eqn:E; [lia|reflexivity].
    - destruct fuel as [|fuel]; [lia|]. simpl.
      destruct (lo <? i) eqn:E; [|reflexivity].
      apply IH; lia. }
  intros fuel i s Hf. apply H; lia.
Qed.

(** A [UINT] is zero after 32 shifts: the fuel of [halving] is enough. *)
Lemma halving_fuel_enough {S} (body : Z -> S -> S) :
  forall fuel a s, 0 <= a < 2 ^ 32 -> (32 <= fuel)%nat ->
    halving_fuel fuel a body s = halving a body s.
Proof.
  unfold halving.
  assert (H : forall n fuel a s, 0 <= a < 2 ^ Z.of_nat n -> (n <= fuel)%nat ->
            halving_fuel fuel a body s = halving_fuel n a body s).
  { induction n as [|n IH]; intros fuel a s Ha Hf.
    - assert (a = 0) by (simpl in Ha; lia). subst a.
      destruct fuel; reflexivity.
    - destruct fuel as [|fuel]; [lia|]. simpl.
      destruct (a =? 0) eqn:E; [reflexivity|].
      apply IH; [|lia].
      rewrite Z.shiftr_div_pow2 by lia.
      rewrite Nat2Z.inj_succ, Z.pow_succ_r in Ha by lia.
      split; [apply Z.div_pos; lia|].
      apply Z.div_lt_upper_bound; lia. }
  intros fuel a s Ha Hf. apply H; [|assumption]. exact Ha.
Qed.

(** ** MakeHeightmap *)

(** A cell of a grid with rows of [n] cells has one pair of coordinates. *)
Lemma cell_index_inj (n x y x' y' : Z) :
  0 <= x < n -> 0 <= x' < n -> x + y * n = x' + y' * n -> x = x' /\ y = y'.
Proof.
  intros Hx Hx' H.
  assert (y = y') by nia. subst. lia.
Qed.

Section HeightmapFacts.
Context {FO : FloatOps} {RO : RandOps}.

(** The toroidal wrap of a grid of [(size + 1) * (size + 1)] cells: the
    last column repeats the first, the last row repeats the first. *)
Definition wraps (size : Z) (farr : list FLOAT) : Prop :=
  (forall y, 0 <= y <= size ->
     aget f0 farr (size + y * (size + 1)) = aget f0 farr (0 + y * (size + 1))) /\
  (forall x, 0 <= x <= size ->
     aget f0 farr (x + size * (size + 1)) = aget f0 farr (x + 0 * (size + 1))).

(** What every assignment of MakeHeightmap keeps. *)
Definition grid_inv (size : Z) (st : hm_state) : Prop :=
  length (fst st) = Z.to_nat ((size + 1) * (size + 1)) /\ wraps size (fst st).

Lemma wraps_interior (size x y : Z) (v : FLOAT) (farr : list FLOAT) :
  0 < x < size -> 0 < y < size ->
  wraps size farr -> wraps size (aset farr (x + y * (size + 1)) v).
Proof.
  intros Hx Hy [Hc Hr]. split.
  - intros y' Hy'. rewrite !aget_aset_ne; [now apply Hc| |].
    + intros E. apply cell_index_inj in E; lia.
    + intros E. apply cell_index_inj in E; lia.
  - intros x' Hx'. rewrite !aget_aset_ne; [now apply Hr| |].
    + intros E. apply cell_index_inj in E; lia.
    + intros E. apply cell_index_inj in E; lia.
Qed.

Lemma diamond_cell_inv (size step : Z) (hdef : FLOAT) (y x : Z) (st : hm_state) :
  0 < x < size -> 0 < y < size ->
  grid_inv size st -> grid_inv size (diamond_cell (size + 1) step hdef y x st).
Proof.
  intros Hx Hy [Hl Hw]. destruct st as [farr g]. unfold grid_inv, diamond_cell.
  destruct (rand g) as [r g']. cbv zeta. cbn [fst] in *. split.
  - now rewrite length_aset.
  - now apply wraps_interior.
Qed.

Lemma square_cell_inv (size step : Z) (hdef : FLOAT) (y x : Z) (st : hm_state) :
  0 <= x < size -> 0 <= y < size -> ~ (x = 0 /\ y = 0) ->
  grid_inv size st -> grid_inv size (square_cell size (size + 1) step hdef y x st).
Proof.
  intros Hx Hy Hxy [Hl Hw]. destruct st as [farr g]. unfold grid_inv, square_cell.
  destruct (rand g) as [r g']. cbv zeta. cbn [fst] in *.
  match goal with |- context [aset farr _ ?v] => generalize v end. intros v.
  assert (Hlen : Z.of_nat (length farr) = (size + 1) * (size + 1)) by (rewrite Hl; nia).
  destruct Hw as [Hc Hr].
  destruct (x =? 0) eqn:Ex; destruct (y =? 0) eqn:Ey.
  - lia.
  - (* a cell of the first column: the last column is updated with it *)
    assert (x = 0) by lia. subst x. split; cbn [fst].
    + now rewrite !length_aset.
    + split.
      * intros y' Hy'. destruct (Z.eq_dec y' y) as [->|Hne].
        -- rewrite aget_aset_eq by (rewrite length_aset; nia).
           symmetry. apply aget_aset_ne. lia.
        -- rewrite !aget_aset_ne; [now apply Hc| | | |];
             intros E; apply cell_index_inj in E; lia.
      * intros x' Hx'. rewrite !aget_aset_ne; [now apply Hr| | | |];
          intros E; apply cell_index_inj in E; lia.
  - (* a cell of the first row: the last row is updated with it *)
    assert (y = 0) by lia. subst y. split; cbn [fst].
    + now rewrite !length_aset.
    + split.
      * intros y' Hy'. rewrite !aget_aset_ne; [now apply Hc| | | |];
          intros E; apply cell_index_inj in E; lia.
      * intros x' Hx'. destruct (Z.eq_dec x' x) as [->|Hne].
        -- rewrite aget_aset_eq by (rewrite length_aset; nia).
           symmetry. apply aget_aset_ne. nia.
        -- rewrite !aget_aset_ne; [now apply Hr| | | |];
             intros E; apply cell_index_inj in E; lia.
  - split; cbn [fst].
    + now rewrite length_aset.
    + apply wraps_interior; [lia|lia|now split].
Qed.

Lemma diamond_pass_inv (size step : Z) (hdef : FLOAT) (st : hm_state) :
  1 <= step -> grid_inv size st -> grid_inv size (diamond_pass size (size + 1) step hdef st).
Proof.
  intros Hs Hst. unfold diamond_pass.
  assert (Hsh : Z.shiftl step 1 = 2 * step) by (rewrite Z.shiftl_mul_pow2; lia).
  rewrite Hsh.
  apply (for_up_inv_state (fun y => 1 <= y)); [lia|intros; lia|assumption|].
  intros y st' Hy Hylt Hst'.
  apply (for_up_inv_state (fun x => 1 <= x)); [lia|intros; lia|assumption|].
  intros x st'' Hx Hxlt Hst''. apply diamond_cell_inv; [lia|lia|assumption].
Qed.

Lemma square_pass_inv (size step : Z) (hdef : FLOAT) (st : hm_state) :
  1 <= step -> grid_inv size st -> grid_inv size (square_pass size (size + 1) step hdef st).
Proof.
  intros Hs Hst. unfold square_pass.
  assert (Hsh : Z.shiftl step 1 = 2 * step) by (rewrite Z.shiftl_mul_pow2; lia).
  destruct (for_up_inv
              (fun y (ost : Z * hm_state) =>
                 0 <= y /\ (y = 0 -> fst ost = 0) /\ grid_inv size (snd ost))
              0 size step (square_row size (size + 1) step hdef) (0, st))
    as [j (_ & _ & H)]; [cbn; auto with zarith| |exact H].
  intros y [oddc st'] Hy (Hy0 & Hodd & Hst'). cbn [fst snd] in *.
  unfold square_row. cbn [fst snd]. split; [lia|]. split; [lia|].
  rewrite Hsh.
  apply (for_up_inv_state (fun x => 0 <= x /\ (y = 0 -> 1 <= x))); [| |assumption|].
  - destruct (oddc =? 0) eqn:E; [lia|]. split; [lia|]. intros Hy'. specialize (Hodd Hy'). lia.
  - intros x [Hx0 Hx1] Hx. split; [lia|]. intros Hy'. specialize (Hx1 Hy'). lia.
  - intros x st'' [Hx0 Hx1] Hx Hst''. apply square_cell_inv; [lia|lia| |assumption].
    intros [-> Hy']. specialize (Hx1 Hy'). lia.
Qed.

Lemma octave_inv (size : Z) (dmpf : FLOAT) (step : Z) (hst : FLOAT * hm_state) :
  1 <= step -> grid_inv size (snd hst) ->
  grid_inv size (snd (octave size (size + 1) dmpf step hst)).
Proof.
  intros Hs Hst. destruct hst as [hdef st]. unfold octave. cbn [snd] in *.
  apply square_pass_inv; [assumption|]. now apply diamond_pass_inv.
Qed.

Lemma calloc_grid_inv (size : Z) (g : rng) :
  0 <= size -> grid_inv size (calloc f0 ((size + 1) * (size + 1)), g).
Proof.
  intros Hsz. split; cbn [fst].
  - apply length_calloc.
  - split; intros i Hi; rewrite !aget_calloc by nia; reflexivity.
Qed.

Lemma land_pow2_pred (k : Z) : 0 <= k -> Z.land (2 ^ k) (2 ^ k - 1) = 0.
Proof.
  intros Hk. replace (2 ^ k - 1) with (Z.ones k) by (rewrite Z.ones_equiv; lia).
  rewrite Z.land_ones by lia. apply Z_mod_same_full.
Qed.

(** For sizes [2^k] up to [2^14] MakeHeightmap returns a grid of
    [(size + 1)^2] cells that wraps. *)
Lemma MakeHeightmap_pow2 (k : Z) (dmpf : FLOAT) (g : rng) :
  1 <= k <= 14 ->
  exists farr g',
    MakeHeightmap (2 ^ k) dmpf g = Ret (Some farr, g') /\
    grid_inv (2 ^ k) (farr, g').
Proof.
  intros Hk.
  assert (Hlo : 2 ^ 1 <= 2 ^ k) by (apply Z.pow_le_mono_r; lia).
  assert (Hhi : 2 ^ k <= 2 ^ 14) by (apply Z.pow_le_mono_r; lia).
  change (2 ^ 1) with 2 in Hlo. change (2 ^ 14) with 16384 in Hhi.
  set (size := 2 ^ k) in *.
  unfold MakeHeightmap.
  assert (Hu : uint (size - 1) = size - 1) by (apply uint_small; lia).
  rewrite Hu. subst size. rewrite land_pow2_pred by lia. set (size := 2 ^ k) in *.
  replace (size =? 1) with false by (symmetry; apply Z.eqb_neq; lia).
  cbn [negb orb Z.eqb].
  assert (Hl1 : long (size + 1) = size + 1) by (apply long_small; lia).
  rewrite Hl1.
  assert (Hfit : fits_long ((size + 1) * (size + 1)) = true).
  { unfold fits_long. apply andb_true_iff. split; [apply Z.leb_le|apply Z.ltb_lt]; nia. }
  rewrite Hfit. cbn [negb]. unfold calloc_bytes.
  replace ((size + 1) * (size + 1) * 4 <? 2 ^ 32) with true
    by (symmetry; apply Z.ltb_lt; nia).
  match goal with
  | |- context [halving ?a ?b ?s] =>
      pose proof (halving_inv_state (fun hst => grid_inv size (snd hst)) a b s) as H;
      destruct (halving a b s) as [hdef [farr g']]
  end.
  exists farr, g'. split; [reflexivity|].
  apply H.
  - apply Z.shiftr_nonneg. lia.
  - cbn [snd]. apply calloc_grid_inv. lia.
  - intros j s Hj Hs. now apply octave_inv.
Qed.

End HeightmapFacts.

(** The cell [(x, y)] of a heightmap of the given [size]. *)
Definition cell {FO : FloatOps} (size : Z) (farr : list FLOAT) (x y : Z) : FLOAT :=
  aget f0 farr (x + y * (size + 1)).

(** C3: the claim has a heightmap of [(size + 1)^2] values for every
    size [2^k]. From [2^15] on MakeHeightmap returns none: at [2^15] the
    bytes asked of [calloc] do not fit a [size_t], the block is NULL and
    the loops write through it; from [2^16] on the cell count
    [sinc * sinc] itself does not fit a [LONG]. *)
Theorem MakeHeightmap_overflow {FO : FloatOps} {RO : RandOps} (k : Z) (dmpf : FLOAT) (g : rng) :
  15 <= k <= 31 -> MakeHeightmap (2 ^ k) dmpf g = Crash.
Proof.
  intros Hk.
  assert (H : k = 15 \/ k = 16 \/ k = 17 \/ k = 18 \/ k = 19 \/ k = 20 \/ k = 21 \/
              k = 22 \/ k = 23 \/ k = 24 \/ k = 25 \/ k = 26 \/ k = 27 \/ k = 28 \/
              k = 29 \/ k = 30 \/ k = 31) by lia.
  repeat (destruct H as [->|H]; [reflexivity|]). subst k. reflexivity.
Qed.

(** The size [2^16], where [65537 * 65537] does not fit a [LONG]. *)
Lemma MakeHeightmap_overflow_witness :
  MakeHeightmap (2 ^ 16) (flit 1 0) (srand 1) = Crash.
Proof. apply (@MakeHeightmap_overflow binary32 msvcrt 16 (flit 1 0) (srand 1)). lia. Defined.

(** Within the sizes whose block can be had, [2^k] with [1 <= k <= 14],
    MakeHeightmap returns a heightmap of exactly [(size + 1)^2] values
    in which the value at [(size, y)] equals the value at [(0, y)] for
    every [y], the value at [(x, size)] equals the value at [(x, 0)] for
    every [x], and the four corners are equal, for every roughness. *)
Theorem MakeHeightmap_wraps {FO : FloatOps} {RO : RandOps} (k : Z) (dmpf : FLOAT) (g : rng) :
  1 <= k <= 14 ->
  exists farr g',
    MakeHeightmap (2 ^ k) dmpf g = Ret (Some farr, g') /\
    Z.of_nat (length farr) = (2 ^ k + 1) ^ 2 /\
    (forall y, 0 <= y <= 2 ^ k -> cell (2 ^ k) farr (2 ^ k) y = cell (2 ^ k) farr 0 y) /\
    (forall x, 0 <= x <= 2 ^ k -> cell (2 ^ k) farr x (2 ^ k) = cell (2 ^ k) farr x 0) /\
    cell (2 ^ k) farr (2 ^ k) 0 = cell (2 ^ k) farr 0 0 /\
    cell (2 ^ k) farr 0 (2 ^ k) = cell (2 ^ k) farr 0 0 /\
    cell (2 ^ k) farr (2 ^ k) (2 ^ k) = cell (2 ^ k) farr 0 0.
Proof.
  intros Hk.
  destruct (MakeHeightmap_pow2 k dmpf g Hk) as (farr & g' & Heq & Hlen & Hc & Hr).
  cbn [fst] in *.
  assert (Hpos : 0 < 2 ^ k) by (apply Z.pow_pos_nonneg; lia).
  exists farr, g'. unfold cell. repeat split.
  - exact Heq.
  - rewrite Hlen. rewrite Z2Nat.id by nia. ring.
  - exact Hc.
  - exact Hr.
  - apply Hc. lia.
  - apply (Hr 0). lia.
  - rewrite (Hc (2 ^ k)) by lia. apply (Hr 0). lia.
Qed.

(** The size 4. *)
Lemma MakeHeightmap_wraps_witness :
  exists farr g',
    MakeHeightmap (2 ^ 2) (flit 1 0) (srand 1) = Ret (Some farr, g') /\
    Z.of_nat (length farr) = (2 ^ 2 + 1) ^ 2 /\
    (forall y, 0 <= y <= 2 ^ 2 -> cell (2 ^ 2) farr (2 ^ 2) y = cell (2 ^ 2) farr 0 y) /\
    (forall x, 0 <= x <= 2 ^ 2 -> cell (2 ^ 2) farr x (2 ^ 2) = cell (2 ^ 2) farr x 0) /\
    cell (2 ^ 2) farr (2 ^ 2) 0 = cell (2 ^ 2) farr 0 0 /\
    cell (2 ^ 2) farr 0 (2 ^ 2) = cell (2 ^ 2) farr 0 0 /\
    cell (2 ^ 2) farr (2 ^ 2) (2 ^ 2) = cell (2 ^ 2) farr 0 0.
Proof. apply (@MakeHeightmap_wraps binary32 msvcrt 2); lia. Defined.

(** C7: [size = 0] is not a power of two, and MakeHeightmap returns a
    heightmap of one cell for it, where the claim has NULL. *)
Theorem MakeHeightmap_zero {FO : FloatOps} {RO : RandOps} (dmpf : FLOAT) (g : rng) :
  MakeHeightmap 0 dmpf g = Ret (Some [f0], g).
Proof. reflexivity. Qed.

(** A positive [size] with [size & (size - 1) == 0] is a power of two. *)
Lemma land_pred_pow2 (size : Z) :
  0 < size -> Z.land size (size - 1) = 0 -> size = 2 ^ Z.log2 size.
Proof.
  intros Hpos Hland.
  destruct (Z.log2_spec size Hpos) as [Hlo Hhi].
  destruct (Z.eq_dec size (2 ^ Z.log2 size)) as [E|Hne]; [exact E|exfalso].
  assert (Hk : Z.log2 (size - 1) = Z.log2 size).
  { apply Z.log2_unique; [apply Z.log2_nonneg|lia]. }
  assert (Hb1 : Z.testbit size (Z.log2 size) = true) by (apply Z.bit_log2; lia).
  assert (Hb2 : Z.testbit (size - 1) (Z.log2 size) = true).
  { rewrite <- Hk. apply Z.bit_log2. pose proof (Z.pow_pos_nonneg 2 (Z.log2 size)) as Hp.
    pose proof (Z.log2_nonneg size). lia. }
  assert (Hb : Z.testbit (Z.land size (size - 1)) (Z.log2 size) = true)
    by (rewrite Z.land_spec, Hb1, Hb2; reflexivity).
  rewrite Hland, Z.bits_0 in Hb. discriminate Hb.
Qed.

(** For a [UINT] [size] other than zero MakeHeightmap returns NULL exactly
    when [size] is no power of two or is 1: the guard is its only way
    to NULL. *)
Theorem MakeHeightmap_null_iff {FO : FloatOps} {RO : RandOps} (size : Z) (dmpf : FLOAT) (g : rng) :
  0 < size < 2 ^ 32 ->
  (exists g', MakeHeightmap size dmpf g = Ret (None, g')) <->
  (size = 1 \/ ~ exists k, 0 <= k /\ size = 2 ^ k).
Proof.
  intros Hsz. unfold MakeHeightmap.
  rewrite (uint_small (size - 1)) by lia.
  destruct (Z.land size (size - 1) =? 0) eqn:El; cbn [negb orb].
  - apply Z.eqb_eq in El. destruct (size =? 1) eqn:E1.
    + apply Z.eqb_eq in E1. split; [now left|]. intros _. now exists g.
    + apply Z.eqb_neq in E1. split.
      * intros [g' H]. exfalso. revert H.
        destruct (negb _); [discriminate|].
        destruct (calloc_bytes _ _ _) as [farr|].
        -- destruct (halving _ _ _) as [? [? ?]]. discriminate.
        -- replace (Z.shiftr size 1 =? 0) with false; [discriminate|].
           symmetry. apply Z.eqb_neq. rewrite Z.shiftr_div_pow2 by lia.
           change (2 ^ 1) with 2. intros H0.
           assert (size < 2) by (apply Z.div_small_iff in H0; lia). lia.
      * intros [H|H]; [contradiction|]. exfalso. apply H.
        exists (Z.log2 size). split; [apply Z.log2_nonneg|].
        apply land_pred_pow2; [lia|exact El].
  - apply Z.eqb_neq in El. split; [|intros _; now exists g].
    intros _. right. intros (k & Hk & ->). apply El. now apply land_pow2_pred.
Qed.

(** The size 6 lies in the range of the theorem. *)
Lemma MakeHeightmap_null_iff_witness :
  (exists g', MakeHeightmap 6 (flit 1 0) (srand 1) = Ret (None, g')) <->
  (6 = 1 \/ ~ exists k, 0 <= k /\ 6 = 2 ^ k).
Proof. apply (@MakeHeightmap_null_iff binary32 msvcrt 6 (flit 1 0) (srand 1)). lia. Defined.

(** ** BlurHeightmap *)

(** The loop rule for a counting loop that runs to its end. *)
Lemma for_up_count {S} (P : Z -> S -> Prop) (a hi : Z) (body : Z -> S -> S) (s : S) :
  a <= hi -> P a s ->
  (forall j s, a <= j < hi -> P j s -> P (j + 1) (body j s)) ->
  P hi (for_up a hi 1 body s).
Proof.
  intros Hle H0 Hstep. unfold for_up.
  remember (Z.to_nat (hi - a)) as n eqn:En.
  revert a s Hle H0 Hstep En. induction n as [|n IH]; intros a s Hle H0 Hstep En; simpl.
  - assert (a = hi) by lia. now subst.
  - destruct (a <? hi) eqn:E; [|lia].
    apply IH; [lia| | |lia].
    + apply Hstep; [lia|assumption].
    + intros j s' Hj. apply Hstep. lia.
Qed.

(** A sweep over the cells [(a, b)] of a square: each cell is written
    once, from what it held before. *)
Lemma sweep_spec {A} (d : A) (n : Z) (idx : Z -> Z -> Z) (F : Z -> Z -> A -> A) (l : list A) :
  0 <= n ->
  (forall a b a' b', 0 <= a < n -> 0 <= b < n -> 0 <= a' < n -> 0 <= b' < n ->
     idx a b = idx a' b' -> a = a' /\ b = b') ->
  (forall a b, 0 <= a < n -> 0 <= b < n -> 0 <= idx a b < Z.of_nat (length l)) ->
  let l' := for_up 0 n 1
              (fun a l => for_up 0 n 1
                 (fun b l => aset l (idx a b) (F a b (aget d l (idx a b)))) l) l in
  length l' = length l /\
  forall a b, 0 <= a < n -> 0 <= b < n ->
    aget d l' (idx a b) = F a b (aget d l (idx a b)).
Proof.
  intros Hn Hinj Hin.
  set (done := fun (t : list A) (a b : Z) => aget d t (idx a b) = F a b (aget d l (idx a b))).
  set (same := fun (t : list A) (a b : Z) => aget d t (idx a b) = aget d l (idx a b)).
  cut ((fun a t =>
          length t = length l /\
          (forall a' b', 0 <= a' < a -> 0 <= b' < n -> done t a' b') /\
          (forall a' b', a <= a' < n -> 0 <= b' < n -> same t a' b'))
       n
       (for_up 0 n 1
          (fun a l => for_up 0 n 1
             (fun b l => aset l (idx a b) (F a b (aget d l (idx a b)))) l) l)).
  { intros (Hl & Hd & _). split; [exact Hl|]. intros a b Ha Hb. apply Hd; lia. }
  apply for_up_count; [lia| |].
  - split; [reflexivity|]. split; [intros; lia|]. intros; reflexivity.
  - intros a t Ha (Hl & Hd & Hs).
    match goal with
    | |- context [for_up 0 n 1 ?body t] =>
        pose proof (for_up_count
             (fun b t' =>
                length t' = length l /\
                (forall a' b', 0 <= a' < a -> 0 <= b' < n -> done t' a' b') /\
                (forall b', 0 <= b' < b -> done t' a b') /\
                (forall b', b <= b' < n -> same t' a b') /\
                (forall a' b', a < a' < n -> 0 <= b' < n -> same t' a' b'))
             0 n body t) as Hrow;
        set (row := for_up 0 n 1 body t) in *
    end.
    cbv beta in Hrow.
    destruct Hrow as (Hl' & Hd' & Hrow & _ & Hs').
    + lia.
    + split; [assumption|]. split; [assumption|]. split; [intros; lia|].
      split; intros; apply Hs; lia.
    + intros b t' Hb (Hl' & Hd' & Hrow & Hrest & Hs').
      assert (Hne : forall a' b', 0 <= a' < n -> 0 <= b' < n -> (a', b') <> (a, b) ->
                      idx a b <> idx a' b').
      { intros a' b' Ha' Hb' Hn' E.
        destruct (Hinj a b a' b') as [-> ->]; [lia|lia|lia|lia|exact E|].
        now apply Hn'. }
      split; [now rewrite length_aset|]. split; [|split; [|split]].
      * intros a' b' Ha' Hb'. unfold done. rewrite aget_aset_ne; [now apply Hd'|].
        apply Hne; [lia|lia|]. intros [= -> ->]. lia.
      * intros b' Hb'. unfold done. destruct (Z.eq_dec b' b) as [->|Hbb].
        -- rewrite aget_aset_eq by (rewrite Hl'; apply Hin; lia).
           rewrite (Hrest b) by lia. reflexivity.
        -- rewrite aget_aset_ne; [apply Hrow; lia|].
           apply Hne; [lia|lia|]. intros [= ->]. lia.
      * intros b' Hb'. unfold same. rewrite aget_aset_ne; [apply Hrest; lia|].
        apply Hne; [lia|lia|]. intros [= ->]. lia.
      * intros a' b' Ha' Hb'. unfold same. rewrite aget_aset_ne; [now apply Hs'|].
        apply Hne; [lia|lia|]. intros [= -> ->]. lia.
    + split; [assumption|]. split.
      * intros a' b' Ha' Hb'. destruct (Z.eq_dec a' a) as [->|Hne].
        -- apply Hrow. lia.
        -- apply Hd'; lia.
      * intros a' b' Ha' Hb'. apply Hs'; lia.
Qed.

Section BlurFacts.
Context {FO : FloatOps}.

(** C4, as amended: BlurHeightmap leaves the heightmap as it is when
    [3 * |sigma|] is zero, when [size] is zero, or when [3 * |sigma|] is
    at least [size]; the sign of [sigma] plays no part. *)
Theorem BlurHeightmap_noop (stale : Z -> FLOAT) (farr : list FLOAT) (size : Z) (fsig : FLOAT) :
  feqb (fmul (fabs fsig) (flit 3 0)) f0 = true \/
  size <= 0 \/
  fleb (of_Z size) (fmul (fabs fsig) (flit 3 0)) = true ->
  BlurHeightmap stale farr size fsig = farr.
Proof.
  intros H. unfold BlurHeightmap.
  destruct (feqb (fmul (fabs fsig) (flit 3 0)) f0) eqn:E0; [reflexivity|].
  destruct H as [H|[H|H]]; [discriminate| |].
  - replace (size <=? 0) with true by (symmetry; apply Z.leb_le; exact H). reflexivity.
  - rewrite H. now rewrite orb_true_r.
Qed.






End BlurFacts.

(** A heightmap with a single peak, for the runs below. *)
Definition peak : list (@FLOAT binary32) :=
  aset (calloc f0 25) 12 (flit 1 0).




(** C4, as stated, fails at [sigma = -1]: the sign is dropped, and the
    heightmap of size 4 with a single peak is blurred. *)
Lemma BlurHeightmap_noop_counterexample :
  fleb (flit (-1) 0) f0 = true /\
  BlurHeightmap (fun _ => f0) peak 4 (flit (-1) 0) <> peak.
Proof.
  split; [reflexivity|]. intros H. vm_compute in H. discriminate H.
Qed.

(** [sigma = 0] lies in the range of the amended claim. *)
Lemma BlurHeightmap_noop_witness :
  BlurHeightmap (fun _ => flit 1 0) peak 4 (flit 0 0) = peak.
Proof.
  apply (@BlurHeightmap_noop binary32 (fun _ => flit 1 0) peak 4 (flit 0 0)).
  left. reflexivity.
Defined.

(** The result of BlurHeightmap varies with what the block of [ftmp]
    held: one heightmap, one size and one [sigma] in the active range,
    two contents of the block, two results. *)
Theorem BlurHeightmap_depends_on_stale :
  BlurHeightmap (fun _ => flit 0 0) peak 4 (flit 1 0) <>
  BlurHeightmap (fun _ => flit 1 0) peak 4 (flit 1 0).
Proof.
  intros H. vm_compute in H. discriminate H.
Qed.

(** The heightmap of a run, [None] when there is none. *)
Definition heights {FO : FloatOps} {RO : RandOps}
    (o : outcome (option (list FLOAT) * rng)) : option (list FLOAT) :=
  match o with
  | Ret (farr, _) => farr
  | Crash => None
  end.

(** C2: two runs of LandscapeVBO's heightmap stage with the same seed
    and the same size that differ only in what the block [malloc]
    returned for [ftmp] held: the heightmaps differ. *)
Theorem landscape_heightmap_not_deterministic :
  match landscape_heightmap (env_of (flit 0 0) f0) 8 1,
        landscape_heightmap (env_of (flit 1 0) f0) 8 1 with
  | Ret (Some farr, _), Ret (Some farr', _) => farr <> farr'
  | _, _ => False
  end.
Proof.
  assert (H : heights (landscape_heightmap (env_of (flit 0 0) f0) 8 1) <>
              heights (landscape_heightmap (env_of (flit 1 0) f0) 8 1) /\
              heights (landscape_heightmap (env_of (flit 0 0) f0) 8 1) <> None /\
              heights (landscape_heightmap (env_of (flit 1 0) f0) 8 1) <> None).
  { repeat split; intros H; vm_compute in H; discriminate H. }
  destruct (landscape_heightmap (env_of (flit 0 0) f0) 8 1) as [[[a|] ga]|];
    destruct (landscape_heightmap (env_of (flit 1 0) f0) 8 1) as [[[b|] gb]|];
    cbn [heights] in H; destruct H as (H1 & H2 & H3); try congruence.
Qed.

(** ** LandscapeVBO *)

Section LandscapeFacts.
Context {FO : FloatOps} {RO : RandOps}.

Lemma corner_vertices_length (nd : Z) (gr fh wl fmin fmax : FLOAT) (farr : list FLOAT)
    (vect0 : list FVEC) :
  length (corner_vertices nd gr fh wl fmin fmax farr vect0) = length vect0.
Proof.
  unfold corner_vertices.
  apply (for_up_inv_state (fun _ => True) (fun vc => length vc = length vect0));
    [exact I|auto|reflexivity|].
  intros y vc _ _ Hvc. cbv zeta.
  match goal with
  | |- context [for_up ?a ?hi ?st ?b ?s] =>
      destruct (for_up_inv (fun _ (p : Z * list FVEC) => length (snd p) = length vect0)
                  a hi st b s) as [j H]; [exact Hvc| |exact H]
  end.
  intros x [dpos vc'] _ H. cbn [snd] in *. now rewrite length_aset.
Qed.

Lemma center_vertices_length (nd : Z) (gr : FLOAT) (vect0 : list FVEC) :
  length (center_vertices nd gr vect0) = length vect0.
Proof.
  unfold center_vertices.
  apply (for_up_inv_state (fun _ => True) (fun vc => length vc = length vect0));
    [exact I|auto|reflexivity|].
  intros y vc _ _ Hvc. cbv zeta.
  match goal with
  | |- context [for_up ?a ?hi ?st ?b ?s] =>
      destruct (for_up_inv (fun _ (p : Z * list FVEC) => length (snd p) = length vect0)
                  a hi st b s) as [j H]; [exact Hvc| |exact H]
  end.
  intros x [dpos vc'] _ H. cbn [snd] in *. now rewrite length_aset.
Qed.

(** The fields LandscapeVBO sets that do not depend on the heights. *)
Lemma landscape_mesh_fields (e : Env) (nd flgs1 seed0 : Z) (gr fh wl : FLOAT)
    (lscp : list FHEI) (retn : FVBO) (ix : list FTRI) (farr : list FLOAT) (g g' : rng)
    (land : FVBO) :
  landscape_mesh e nd flgs1 seed0 gr fh wl lscp retn ix farr g = Ret (land, g') ->
  ndim land = nd /\ ndot land = ndot retn /\ npol land = uint (3 * 4 * nd * nd) /\
  indx land = ix /\ length (vect land) = length (vect retn) /\
  wlvl land = wl /\ seed land = seed0 /\ flgs land = flgs1 /\ next land = None.
Proof.
  unfold landscape_mesh. generalize (MakeFacetTex 64 g). intros tex.
  destruct (height_range e nd farr) as [fmin fmax].
  destruct (landscape_colors _ _ _ _ _ _) as [cl|]; [|discriminate].
  cbn [mbind outcome_bind obind].
  intros [= <- <-]. cbn [ndim ndot npol indx vect wlvl seed flgs next].
  rewrite center_vertices_length, corner_vertices_length. repeat split.
Qed.

(** The one NULL exit of LandscapeVBO is its test of the parameters. *)
Lemma LandscapeVBO_cases (e : Env) (ndim0 flgs0 seed0 : Z) (grid0 fhei0 wlvl0 : FLOAT)
    (lscp : option (list FHEI)) :
  match LandscapeVBO e ndim0 flgs0 seed0 grid0 fhei0 wlvl0 lscp with
  | Ret None => lscp = None \/ ndim0 = 0 \/ fleb grid0 f0 = true
  | Ret (Some m) =>
      lscp <> None /\ ndim0 <> 0 /\ fleb grid0 f0 = false /\
      ndim m = uint (2 ^ ndim0) /\
      ndot m = uint ((ndim m + 1) * (ndim m + ndim m + 2)) /\
      npol m = uint (3 * 4 * ndim m * ndim m) /\
      indx m = index_pass (ndim m) (calloc FTRI_zero (1 + Z.shiftr (ndot m) 1)) /\
      length (vect m) = Z.to_nat (ndot m)
  | Crash => lscp <> None /\ ndim0 <> 0 /\ fleb grid0 f0 = false
  end.
Proof.
  unfold LandscapeVBO. destruct lscp as [lscp|]; [|now left].
  destruct (ndim0 =? 0) eqn:En; [right; left; lia|].
  destruct (fleb grid0 f0) eqn:Eg; [right; right; reflexivity|].
  cbn [orb].
  assert (Hguard : Some lscp <> None /\ ndim0 <> 0 /\ false = false)
    by (repeat split; [discriminate|lia]).
  set (nd := uint (2 ^ ndim0)).
  unfold MakeVBO.
  destruct (uint ((nd + 1) * (nd + nd + 2)) =? 0) eqn:Ed; [exact Hguard|].
  cbn [indx vect clrs norm texc ndot].
  destruct (landscape_heightmap e nd seed0) as [[[farr|] g]|]; [|exact Hguard|exact Hguard].
  match goal with
  | |- context [landscape_mesh ?a ?b ?c ?d ?e1 ?f ?g1 ?h ?r ?i ?j ?k] =>
      pose proof (landscape_mesh_fields a b c d e1 f g1 h r i j k) as Hf;
      destruct (landscape_mesh a b c d e1 f g1 h r i j k) as [[land g']|]
  end; [|exact Hguard].
  cbn [mbind outcome_bind obind].
  destruct (ObjectVBO (Some land) DEF_NOBJ g') as [nx|]; [|exact Hguard].
  cbn [mbind outcome_bind obind].
  destruct (Hf g' land eq_refl) as (H1 & H2 & H3 & H4 & H5 & _).
  cbn [ndot vect] in H2, H5. rewrite length_calloc in H5.
  destruct Hguard as (G1 & G2 & G3).
  unfold set_next. cbn [ndim ndot npol indx vect].
  rewrite H1, H2, H3, H4, H5. repeat split; assumption.
Qed.

(** C5, as amended: LandscapeVBO returns NULL exactly when [lscp] is
    NULL, [ndim] is zero or [grid <= 0]; it makes no test of the band
    table's end mark and none of the height range, so neither a table
    without the zero entry nor a flat heightmap is turned away. *)
Theorem LandscapeVBO_null_iff (e : Env) (ndim0 flgs0 seed0 : Z) (grid0 fhei0 wlvl0 : FLOAT)
    (lscp : option (list FHEI)) :
  LandscapeVBO e ndim0 flgs0 seed0 grid0 fhei0 wlvl0 lscp = Ret None <->
  (lscp = None \/ ndim0 = 0 \/ fleb grid0 f0 = true).
Proof.
  split.
  - intros H. pose proof (LandscapeVBO_cases e ndim0 flgs0 seed0 grid0 fhei0 wlvl0 lscp) as Hc.
    rewrite H in Hc. exact Hc.
  - intros H. unfold LandscapeVBO. destruct lscp as [lscp|]; [|reflexivity].
    destruct H as [H|[H|H]]; [discriminate| |].
    + subst ndim0. reflexivity.
    + rewrite H. now rewrite orb_true_r.
Qed.

End LandscapeFacts.

(** The scan of LandscapeVBO for the minimum and the maximum starts one
    cell past the heightmap: its first round takes [past_end e], what
    lies behind the block, into both. *)
Theorem height_range_past_end {FO : FloatOps} (e : Env) (nd : Z) (farr : list FLOAT) :
  0 <= nd -> Z.of_nat (length farr) = (nd + 1) * (nd + 1) ->
  height_range e nd farr =
  for_down ((nd + 1) * (nd + 1) - 1) (-1)
    (fun x '(fmin, fmax) =>
       let h := aget (past_end e) farr x in
       (if fltb fmin h then fmin else h, if fltb h fmax then fmax else h))
    (if fltb (aget f0 farr 0) (past_end e) then aget f0 farr 0 else past_end e,
     if fltb (past_end e) (aget f0 farr 0) then aget f0 farr 0 else past_end e).
Proof.
  intros Hnd Hlen. unfold height_range, for_down.
  set (n := (nd + 1) * (nd + 1)) in *.
  assert (Hn : 0 < n) by (unfold n; nia).
  replace (Z.to_nat (n - -1)) with (S (Z.to_nat (n - 1 - -1))) by lia.
  cbn [for_down_fuel].
  replace (-1 <? n) with true by (symmetry; apply Z.ltb_lt; lia).
  assert (Hpast : aget (past_end e) farr n = past_end e).
  { unfold aget. replace (n <? 0) with false by (symmetry; apply Z.ltb_ge; lia).
    rewrite (proj2 (lookup_ge_None farr (Z.to_nat n))) by lia. reflexivity. }
  rewrite Hpast. reflexivity.
Qed.

(** A heightmap of size 1. *)
Lemma height_range_past_end_witness :
  height_range (env_of (flit 0 0) (flit 1 0)) 1 (calloc f0 4) =
  for_down ((1 + 1) * (1 + 1) - 1) (-1)
    (fun x '(fmin, fmax) =>
       let h := aget (past_end (env_of (flit 0 0) (flit 1 0))) (calloc f0 4) x in
       (if fltb fmin h then fmin else h, if fltb h fmax then fmax else h))
    (if fltb (aget f0 (calloc f0 4) 0) (past_end (env_of (flit 0 0) (flit 1 0)))
     then aget f0 (calloc f0 4) 0 else past_end (env_of (flit 0 0) (flit 1 0)),
     if fltb (past_end (env_of (flit 0 0) (flit 1 0))) (aget f0 (calloc f0 4) 0)
     then aget f0 (calloc f0 4) 0 else past_end (env_of (flit 0 0) (flit 1 0))).
Proof.
  apply (@height_range_past_end binary32 (env_of (flit 0 0) (flit 1 0)) 1 (calloc f0 4));
    [lia|reflexivity].
Defined.

(** ** The colours of a mesh under water *)

(** A colour whose alpha byte is 128 is its RGB bytes with bit 31 set. *)
Lemma water_rgba (W : Z) :
  0 <= W < 2 ^ 32 -> FCLR_A W = 128 ->
  Z.lor (Z.land W 0xFFFFFF) 0x80000000 = W.
Proof.
  intros HW HA. unfold FCLR_A in HA.
  apply Z.bits_inj'. intros n Hn.
  rewrite Z.lor_spec, Z.land_spec.
  change 0xFFFFFF with (Z.ones 24). change 0x80000000 with (2 ^ 31).
  destruct (Z.lt_ge_cases n 24) as [Hlt|Hge].
  - rewrite Z.ones_spec_low by lia. rewrite Z.pow2_bits_false by lia.
    now rewrite andb_true_r, orb_false_r.
  - rewrite Z.ones_spec_high by lia. rewrite andb_false_r, orb_false_l.
    rewrite Z.pow2_bits_eqb by lia.
    destruct (Z.lt_ge_cases n 32) as [Hlt|Hge'].
    + assert (Hb : Z.testbit (Z.land (Z.shiftr W 24) 0xFF) (n - 24) = Z.testbit 128 (n - 24))
        by now rewrite HA.
      rewrite Z.land_spec, Z.shiftr_spec in Hb by lia.
      change 0xFF with (Z.ones 8) in Hb. rewrite Z.ones_spec_low in Hb by lia.
      rewrite andb_true_r in Hb. replace (n - 24 + 24) with n in Hb by lia.
      rewrite Hb. change 128 with (2 ^ 7). rewrite Z.pow2_bits_eqb by lia.
      destruct (Z.eqb_spec 31 n), (Z.eqb_spec 7 (n - 24)); (reflexivity || lia).
    + replace (31 =? n) with false by (symmetry; apply Z.eqb_neq; lia).
      symmetry. apply Z.bits_above_log2; [lia|].
      destruct (Z.eq_dec W 0) as [->|Hnz]; [simpl; lia|].
      apply Z.log2_lt_pow2; [lia|].
      apply Z.lt_le_trans with (2 ^ 32); [lia|]. apply Z.pow_le_mono_r; lia.
Qed.

Lemma land_rgb_idem (W : Z) : Z.land (Z.land W 0xFFFFFF) 0x00FFFFFF = Z.land W 0xFFFFFF.
Proof. rewrite <- Z.land_assoc. reflexivity. Qed.

Lemma aset_aset {A} (l : list A) (i : Z) (v w : A) : aset (aset l i v) i w = aset l i w.
Proof.
  unfold aset. destruct (i <? 0); [reflexivity|]. apply list_insert_insert_eq.
Qed.

(** A loop whose rounds never crash is the loop of the plain rounds. *)
Lemma for_up_ret {S} (a hi : Z) (body : Z -> outcome S -> outcome S) (pure : Z -> S -> S) (s : S) :
  (forall j s, a <= j < hi -> body j (Ret s) = Ret (pure j s)) ->
  for_up a hi 1 body (Ret s) = Ret (for_up a hi 1 pure s).
Proof.
  unfold for_up. generalize (Z.to_nat (hi - a)) as fuel. intros fuel.
  revert a s. induction fuel as [|n IH]; intros a s Hb; simpl; [reflexivity|].
  destruct (a <? hi) eqn:E; [|reflexivity].
  rewrite Hb by lia. apply IH. intros j s' Hj. apply Hb. lia.
Qed.

(** The place of the corner vertex [(x, y)] and of the centre vertex of
    the cell [(x, y)] in the vertex arrays, as LandscapeVBO computes
    them. *)
Definition corner_slot (nd x y : Z) : Z := Z.shiftl (y * (nd + 1)) 1 + x.
Definition center_slot (nd x y : Z) : Z := Z.shiftl (y * (nd + 1)) 1 + x + (nd + 1).

Lemma corner_slot_eq (nd x y : Z) : corner_slot nd x y = x + y * (2 * (nd + 1)).
Proof. unfold corner_slot. rewrite Z.shiftl_mul_pow2 by lia. change (2 ^ 1) with 2. lia. Qed.

Lemma center_slot_eq (nd x y : Z) : center_slot nd x y = (x + (nd + 1)) + y * (2 * (nd + 1)).
Proof. unfold center_slot. rewrite Z.shiftl_mul_pow2 by lia. change (2 ^ 1) with 2. lia. Qed.

Section WaterColors.
Context {FO : FloatOps}.
Variables (nd : Z) (fh wl : FLOAT) (A W : Z) (vc : list FVEC).

(** The comparisons of the band heights [8.0] and [0.0] with [0.0]. *)
Hypothesis pos_8 : fltb f0 (flit 8 0) = true.
Hypothesis pos_0 : fltb f0 (flit 0 0) = false.
Hypothesis nonpos_8 : fleb (flit 8 0) f0 = false.
Hypothesis nonpos_0 : fleb (flit 0 0) f0 = true.

Hypothesis nd_pos : 1 <= nd.
Hypothesis water_range : 0 <= W < 2 ^ 32.
Hypothesis water_alpha : FCLR_A W = 128.

(** Every corner and every centre vertex lies at the water level. *)
Hypothesis corners_at_water :
  forall x y, 0 <= x <= nd -> 0 <= y <= nd ->
    feqb (vz (aget FVEC_zero vc (corner_slot nd x y))) wl = true.
Hypothesis centers_at_water :
  forall x y, 0 <= x < nd -> 0 <= y < nd ->
    feqb (vz (aget FVEC_zero vc (center_slot nd x y))) wl = true.

Definition two_bands : list FHEI := [mkFHEI (flit 8 0) A; mkFHEI (flit 0 0) W].

Lemma band_total_two :
  band_total two_bands 0 (of_Z 0) = Ret (fadd (of_Z 0) (flit 8 0), 1).
Proof. unfold two_bands. simpl. rewrite pos_8, pos_0. reflexivity. Qed.

Lemma band_color_two (fmin : FLOAT) : band_color two_bands fmin = Ret (Z.lor A 0xFF000000).
Proof.
  unfold band_color, two_bands. cbn [band_walk fhei]. rewrite pos_8.
  destruct (fltb f0 (fsub fmin (flit 8 0))).
  - rewrite pos_0. unfold f0 in *. unfold band_at. simpl. rewrite nonpos_0. reflexivity.
  - unfold f0 in *. unfold band_at. simpl. rewrite nonpos_8. reflexivity.
Qed.

Lemma center_at_water (i : Z) :
  (exists x y, 0 <= x < nd /\ 0 <= y < nd /\ i = (x + (nd + 1)) + y * (2 * (nd + 1))) ->
  feqb (vz (aget FVEC_zero vc i)) wl = true.
Proof.
  intros (x & y & Hx & Hy & ->). rewrite <- center_slot_eq. now apply centers_at_water.
Qed.

Lemma corner_color_water (fmax : FLOAT) (y x : Z) (cl : list FCLR) :
  0 <= x <= nd -> 0 <= y <= nd ->
  corner_color nd fh wl fmax (Z.land W 0xFFFFFF) (FCLR_A W) two_bands vc y x cl =
  Ret (aset cl (corner_slot nd x y) W).
Proof.
  intros Hx Hy. unfold corner_color. rewrite band_color_two.
  cbn [mbind outcome_bind obind].
  fold (corner_slot nd x y). rewrite corners_at_water by assumption.
  rewrite water_alpha. change (uint (128 * 0x1000000)) with 0x80000000.
  rewrite water_rgba by assumption. rewrite aset_aset.
  rewrite !Z.shiftl_mul_pow2 by lia. change (2 ^ 1) with 2.
  assert (E : forall a b c d : bool, a = true -> b = true -> c = true -> d = true ->
                a && b && c && d = true) by (intros; subst; reflexivity).
  rewrite E; [reflexivity| | | |]; apply center_at_water;
    destruct (Z.ltb_spec 0 x), (Z.ltb_spec x nd), (Z.ltb_spec 0 y), (Z.ltb_spec y nd);
    first [ exists (x - 1), (y - 1); lia | exists (x - 1), y; lia
          | exists x, (y - 1); lia | exists x, y; lia
          | exists (nd - 1), (y - 1); lia | exists (nd - 1), y; lia
          | exists 0, (y - 1); lia | exists 0, y; lia
          | exists (x - 1), (nd - 1); lia | exists (x - 1), 0; lia
          | exists x, (nd - 1); lia | exists x, 0; lia
          | exists (nd - 1), (nd - 1); lia | exists (nd - 1), 0; lia
          | exists 0, (nd - 1); lia | exists 0, 0; lia ].
Qed.

Lemma corner_colors_water (fmax : FLOAT) (cl0 : list FCLR) :
  Z.of_nat (length cl0) = (nd + 1) * (nd + nd + 2) ->
  exists cl,
    corner_colors nd fh wl fmax (Z.land W 0xFFFFFF) (FCLR_A W) two_bands vc cl0 = Ret cl /\
    length cl = length cl0 /\
    forall x y, 0 <= x <= nd -> 0 <= y <= nd -> aget 0 cl (corner_slot nd x y) = W.
Proof.
  intros Hlen. unfold corner_colors.
  rewrite (for_up_ret 0 (nd + 1) _
             (fun y cl => for_up 0 (nd + 1) 1 (fun x cl => aset cl (corner_slot nd x y) W) cl)).
  - eexists. split; [reflexivity|].
    destruct (sweep_spec 0 (nd + 1) (fun y x => corner_slot nd x y) (fun _ _ _ => W) cl0)
      as [Hl Hv]; [lia| | |].
    + intros a b a' b' Ha Hb Ha' Hb'. rewrite !corner_slot_eq. intros E.
      destruct (cell_index_inj (2 * (nd + 1)) b a b' a'); [lia|lia|exact E|]. now split.
    + intros a b Ha Hb. rewrite corner_slot_eq.
      assert (a * (2 * (nd + 1)) <= nd * (2 * (nd + 1)))
        by (apply Z.mul_le_mono_nonneg_r; lia).
      assert (0 <= a * (2 * (nd + 1))) by (apply Z.mul_nonneg_nonneg; lia).
      lia.
    + split; [exact Hl|]. intros x y Hx Hy. apply (Hv y x); lia.
  - intros y cl Hy. apply for_up_ret. intros x cl' Hx.
    cbn [mbind outcome_bind obind]. apply corner_color_water; lia.
Qed.

Lemma center_color_water (y x : Z) (cl : list FCLR) :
  0 <= x <= nd -> 0 <= y <= nd ->
  (forall x' y', 0 <= x' <= nd -> 0 <= y' <= nd -> aget 0 cl (corner_slot nd x' y') = W) ->
  exists c,
    center_color nd wl (Z.land W 0xFFFFFF) (FCLR_A W) vc y x cl =
      aset cl (center_slot nd x y) c /\
    (x < nd -> y < nd -> c = W).
Proof.
  intros Hx Hy Hc. unfold center_color. cbv zeta.
  assert (HW : forall i, (exists x' y', 0 <= x' <= nd /\ 0 <= y' <= nd /\
                            i = x' + y' * (2 * (nd + 1))) -> aget 0 cl i = W).
  { intros i (x' & y' & Hx' & Hy' & ->). rewrite <- corner_slot_eq. now apply Hc. }
  fold (center_slot nd x y).
  rewrite !Z.shiftl_mul_pow2 by lia. change (2 ^ 1) with 2.
  rewrite (HW (x + y * (nd + 1) * 2)) by (exists x, y; lia).
  rewrite (HW (x + (if y <? nd then y * (nd + 1) * 2 + (nd + 1) * 2 else 0)))
    by (destruct (Z.ltb_spec y nd); [exists x, (y + 1); lia|exists x, 0; lia]).
  rewrite (HW ((if x <? nd then x + 1 else 0) + y * (nd + 1) * 2))
    by (destruct (Z.ltb_spec x nd); [exists (x + 1), y; lia|exists 0, y; lia]).
  rewrite (HW ((if x <? nd then x + 1 else 0) +
               (if y <? nd then y * (nd + 1) * 2 + (nd + 1) * 2 else 0)))
    by (destruct (Z.ltb_spec x nd), (Z.ltb_spec y nd);
        [exists (x + 1), (y + 1); lia|exists (x + 1), 0; lia
        |exists 0, (y + 1); lia|exists 0, 0; lia]).
  eexists. split; [reflexivity|]. intros Hxn Hyn.
  rewrite centers_at_water by lia.
  rewrite Z.eqb_refl.
  change ((0 + 0 + 0 + 0) * (255 - FCLR_A W) =? 0) with true. cbv iota.
  change (Z.shiftr ((0 + 0 + 0 + 0) * (255 - FCLR_A W)) 2) with 0.
  unfold set_A. rewrite land_rgb_idem. rewrite water_alpha.
  change (Z.shiftl (Z.land (128 + 0) 0xFF) 24) with 0x80000000.
  now apply water_rgba.
Qed.

Lemma center_colors_water (cl : list FCLR) :
  Z.of_nat (length cl) = (nd + 1) * (nd + nd + 2) ->
  (forall x y, 0 <= x <= nd -> 0 <= y <= nd -> aget 0 cl (corner_slot nd x y) = W) ->
  (forall x y, 0 <= x <= nd -> 0 <= y <= nd ->
     aget 0 (center_colors nd wl (Z.land W 0xFFFFFF) (FCLR_A W) vc cl) (corner_slot nd x y) = W) /\
  (forall x y, 0 <= x < nd -> 0 <= y < nd ->
     aget 0 (center_colors nd wl (Z.land W 0xFFFFFF) (FCLR_A W) vc cl) (center_slot nd x y) = W).
Proof.
  intros Hlen Hc. unfold center_colors.
  set (corners := fun t : list FCLR =>
         forall x y, 0 <= x <= nd -> 0 <= y <= nd -> aget 0 t (corner_slot nd x y) = W).
  set (center := fun (t : list FCLR) (x y : Z) => aget 0 t (center_slot nd x y) = W).
  assert (Hne_corner : forall x y x' y', 0 <= x <= nd -> 0 <= x' <= nd ->
            center_slot nd x y <> corner_slot nd x' y').
  { intros x y x' y' Hx Hx'. rewrite center_slot_eq, corner_slot_eq. intros E.
    destruct (cell_index_inj (2 * (nd + 1)) (x + (nd + 1)) y x' y'); lia. }
  assert (Hne_center : forall x y x' y', 0 <= x <= nd -> 0 <= x' <= nd ->
            (x, y) <> (x', y') -> center_slot nd x y <> center_slot nd x' y').
  { intros x y x' y' Hx Hx' Hn. rewrite !center_slot_eq. intros E.
    destruct (cell_index_inj (2 * (nd + 1)) (x + (nd + 1)) y (x' + (nd + 1)) y');
      [lia|lia|exact E|].
    apply Hn. f_equal; lia. }
  assert (Hin : forall x y, 0 <= x <= nd -> 0 <= y <= nd ->
            0 <= center_slot nd x y < (nd + 1) * (nd + nd + 2)).
  { intros x y Hx Hy. rewrite center_slot_eq.
    assert (y * (2 * (nd + 1)) <= nd * (2 * (nd + 1)))
      by (apply Z.mul_le_mono_nonneg_r; lia).
    assert (0 <= y * (2 * (nd + 1))) by (apply Z.mul_nonneg_nonneg; lia).
    lia. }
  cut ((fun y t =>
          length t = length cl /\ corners t /\
          (forall x' y', 0 <= x' < nd -> 0 <= y' < nd -> y' < y -> center t x' y'))
       (nd + 1)
       (for_up 0 (nd + 1) 1
          (fun y cl => for_up 0 (nd + 1) 1
             (center_color nd wl (Z.land W 0xFFFFFF) (FCLR_A W) vc y) cl) cl)).
  { intros (_ & H1 & H2). split; [exact H1|]. intros x y Hx Hy. apply H2; lia. }
  apply for_up_count; [lia| |].
  - split; [reflexivity|]. split; [exact Hc|]. intros; lia.
  - intros y t Hy (Hl & Hcr & Hd).
    match goal with
    | |- context [for_up 0 (nd + 1) 1 ?body t] =>
        pose proof (for_up_count
             (fun x t' =>
                length t' = length cl /\ corners t' /\
                (forall x' y', 0 <= x' < nd -> 0 <= y' < nd -> y' < y -> center t' x' y') /\
                (forall x', 0 <= x' < nd -> x' < x -> y < nd -> center t' x' y))
             0 (nd + 1) body t) as Hrow;
        set (row := for_up 0 (nd + 1) 1 body t) in *
    end.
    cbv beta in Hrow.
    destruct Hrow as (Hl' & Hcr' & Hd' & Hrow).
    + lia.
    + split; [assumption|]. split; [assumption|]. split; [assumption|]. intros; lia.
    + intros x t' Hx (Hl' & Hcr' & Hd' & Hrow).
      destruct (center_color_water y x t') as (c & -> & Hcw); [lia|lia|exact Hcr'|].
      split; [now rewrite length_aset|]. split; [|split].
      * intros x' y' Hx' Hy'. rewrite aget_aset_ne; [now apply Hcr'|].
        apply Hne_corner; lia.
      * intros x' y' Hx' Hy' Hlt. unfold center. rewrite aget_aset_ne; [now apply Hd'|].
        apply Hne_center; [lia|lia|]. intros [= -> ->]. lia.
      * intros x' Hx' Hlt Hyn. unfold center. destruct (Z.eq_dec x' x) as [->|Hxx].
        -- rewrite aget_aset_eq by (rewrite Hl', Hlen; apply Hin; lia).
           apply Hcw; lia.
        -- rewrite aget_aset_ne; [apply Hrow; lia|].
           apply Hne_center; [lia|lia|]. intros [= ->]. lia.
    + split; [assumption|]. split; [assumption|].
      intros x' y' Hx' Hy' Hlt. destruct (Z.eq_dec y' y) as [->|Hne].
      * apply Hrow; lia.
      * apply Hd'; lia.
Qed.

(** The colours LandscapeVBO gives a mesh that lies at the water level
    everywhere, for the band table [{8, A}, {0, W}]. *)
Lemma landscape_colors_water (clrs0 : list FCLR) :
  Z.of_nat (length clrs0) = (nd + 1) * (nd + nd + 2) ->
  exists cl,
    landscape_colors nd fh wl two_bands vc clrs0 = Ret cl /\
    (forall x y, 0 <= x <= nd -> 0 <= y <= nd -> aget 0 cl (corner_slot nd x y) = W) /\
    (forall x y, 0 <= x < nd -> 0 <= y < nd -> aget 0 cl (center_slot nd x y) = W).
Proof.
  intros Hlen. unfold landscape_colors. rewrite band_total_two.
  cbn [mbind outcome_bind obind].
  change (band_at two_bands 1) with (Ret (mkFHEI (flit 0 0) W)).
  cbn [mbind outcome_bind obind fclr].
  destruct (corner_colors_water (fadd (of_Z 0) (flit 8 0)) clrs0 Hlen) as (cl & -> & Hl & Hc).
  cbn [mbind outcome_bind obind].
  eexists. split; [reflexivity|].
  apply center_colors_water; [now rewrite Hl|exact Hc].
Qed.

End WaterColors.

(** The colour loops on their own, with the band table
    [{8, A}, {0, Water}], the alpha of [Water] being 128, and a vertex
    array that lies at the water level throughout: every corner vertex
    and every centre vertex gets exactly the colour [Water], alpha 128
    included. *)
Lemma water_mesh_colors {FO : FloatOps} (nd : Z) (fh wl : FLOAT) (A W : Z) (vc : list FVEC)
    (clrs0 : list FCLR) :
  fltb f0 (flit 8 0) = true -> fltb f0 (flit 0 0) = false ->
  fleb (flit 8 0) f0 = false -> fleb (flit 0 0) f0 = true ->
  1 <= nd -> 0 <= W < 2 ^ 32 -> FCLR_A W = 128 ->
  Z.of_nat (length clrs0) = (nd + 1) * (nd + nd + 2) ->
  (forall x y, 0 <= x <= nd -> 0 <= y <= nd ->
     feqb (vz (aget FVEC_zero vc (corner_slot nd x y))) wl = true) ->
  (forall x y, 0 <= x < nd -> 0 <= y < nd ->
     feqb (vz (aget FVEC_zero vc (center_slot nd x y))) wl = true) ->
  exists cl,
    landscape_colors nd fh wl [mkFHEI (flit 8 0) A; mkFHEI (flit 0 0) W] vc clrs0 = Ret cl /\
    (forall x y, 0 <= x <= nd -> 0 <= y <= nd ->
       aget 0 cl (corner_slot nd x y) = W /\ FCLR_A (aget 0 cl (corner_slot nd x y)) = 128) /\
    (forall x y, 0 <= x < nd -> 0 <= y < nd ->
       aget 0 cl (center_slot nd x y) = W /\ FCLR_A (aget 0 cl (center_slot nd x y)) = 128).
Proof.
  intros H1 H2 H3 H4 Hnd HW HA Hlen Hco Hce.
  destruct (landscape_colors_water nd fh wl A W vc H1 H2 H3 H4 Hnd HW HA Hco Hce clrs0 Hlen)
    as (cl & Heq & Hc1 & Hc2).
  exists cl. split; [exact Heq|]. split; intros x y Hx Hy.
  - rewrite Hc1 by assumption. now split.
  - rewrite Hc2 by assumption. now split.
Qed.

(** ** The index list of the landscape *)

Section IndexFacts.

Lemma index_pass_spec (nd : Z) (indx0 : list FTRI) :
  0 <= nd -> nd * nd <= Z.of_nat (length indx0) ->
  length (index_pass nd indx0) = length indx0 /\
  (forall x y, 0 <= x < nd -> 0 <= y < nd ->
     aget FTRI_zero (index_pass nd indx0) (y * nd + x) = index_cell nd (corner_slot nd x y)) /\
  (forall i, nd * nd <= i -> aget FTRI_zero (index_pass nd indx0) i = aget FTRI_zero indx0 i).
Proof.
  intros Hnd Hlen. unfold index_pass.
  set (done := fun (t : list FTRI) (x y : Z) =>
                 aget FTRI_zero t (y * nd + x) = index_cell nd (corner_slot nd x y)).
  set (rest := fun (t : list FTRI) (k : Z) =>
                 forall i, k <= i -> aget FTRI_zero t i = aget FTRI_zero indx0 i).
  match goal with
  | |- context [for_up 0 nd 1 ?body (0, indx0)] =>
      pose proof (for_up_count
           (fun y (p : Z * list FTRI) =>
              fst p = y * nd /\ length (snd p) = length indx0 /\
              (forall x' y', 0 <= x' < nd -> 0 <= y' < y -> done (snd p) x' y') /\
              rest (snd p) (y * nd))
           0 nd body (0, indx0)) as H;
      set (res := for_up 0 nd 1 body (0, indx0)) in *
  end.
  cbv beta in H. destruct H as (_ & Hl & Hd & Hr).
  - lia.
  - cbn [fst snd]. split; [lia|]. split; [reflexivity|]. split; [intros; lia|].
    intros i _. reflexivity.
  - intros y [i ix] Hy (Hi & Hl & Hd & Hr). cbn [fst snd] in *. subst i.
    match goal with
    | |- context [for_up 0 nd 1 ?body ?s0] =>
        pose proof (for_up_count
             (fun x (p : Z * Z * list FTRI) =>
                fst (fst p) = corner_slot nd x y /\ snd (fst p) = y * nd + x /\
                length (snd p) = length indx0 /\
                (forall x' y', 0 <= x' < nd -> 0 <= y' < y -> done (snd p) x' y') /\
                (forall x', 0 <= x' < x -> done (snd p) x' y) /\
                rest (snd p) (y * nd + x))
             0 nd body s0) as Hrow;
        destruct (for_up 0 nd 1 body s0) as [[dpos' i'] ix']
    end.
    cbv beta in Hrow. cbn [fst snd] in Hrow.
    destruct Hrow as (_ & Hi' & Hl' & Hd' & Hrow & Hr').
    + lia.
    + unfold corner_slot. split; [lia|]. split; [lia|]. split; [assumption|].
      split; [assumption|]. split; [intros; lia|].
      intros i Hi. apply Hr. lia.
    + intros x [[dpos i] ix''] Hx (Hdp & Hi & Hl'' & Hd'' & Hrow & Hr''). cbn [fst snd] in *.
      subst dpos i.
      split; [unfold corner_slot; lia|]. split; [lia|].
      split; [now rewrite length_aset|]. split; [|split].
      * intros x' y' Hx' Hy'. unfold done. rewrite aget_aset_ne; [now apply Hd''|]. nia.
      * intros x' Hx'. unfold done. destruct (Z.eq_dec x' x) as [->|Hne].
        -- apply aget_aset_eq. rewrite Hl''. nia.
        -- rewrite aget_aset_ne; [apply Hrow; lia|]. lia.
      * intros i Hi. rewrite aget_aset_ne by lia. apply Hr''. lia.
    + cbn [fst snd]. split; [lia|]. split; [assumption|]. split.
      * intros x' y' Hx' Hy'. destruct (Z.eq_dec y' y) as [->|Hne].
        -- apply Hrow. lia.
        -- apply Hd'; lia.
      * intros i Hi. apply Hr'. lia.
  - split; [exact Hl|]. split.
    + intros x y Hx Hy. apply Hd; lia.
    + exact Hr.
Qed.

(** The corner and the centre vertices of a landscape of size [nd], by
    their places in the vertex arrays. *)
Definition mesh_vertices (nd : Z) : list Z :=
  (seqZ 0 (nd + 1) ≫= fun y => (fun x => corner_slot nd x y) <$> seqZ 0 (nd + 1)) ++
  (seqZ 0 nd ≫= fun y => (fun x => center_slot nd x y) <$> seqZ 0 nd).

Lemma length_bind_const {A B} (f : A -> list B) (n : nat) (l : list A) :
  (forall a, a ∈ l -> length (f a) = n) -> length (l ≫= f) = (length l * n)%nat.
Proof.
  induction l as [|a l IH]; intros H; [reflexivity|].
  rewrite bind_cons, length_app, IH, H; [simpl; lia|left|].
  intros b Hb. apply H. now right.
Qed.

Lemma mesh_vertices_length (nd : Z) :
  0 <= nd -> Z.of_nat (length (mesh_vertices nd)) = (nd + 1) ^ 2 + nd ^ 2.
Proof.
  intros Hnd. unfold mesh_vertices. rewrite length_app.
  rewrite (length_bind_const _ (Z.to_nat (nd + 1)))
    by (intros; now rewrite length_fmap, length_seqZ).
  rewrite (length_bind_const _ (Z.to_nat nd))
    by (intros; now rewrite length_fmap, length_seqZ).
  rewrite !length_seqZ. nia.
Qed.

Lemma elem_of_mesh_vertices (nd v : Z) :
  v ∈ mesh_vertices nd <->
  (exists x y, 0 <= x <= nd /\ 0 <= y <= nd /\ v = corner_slot nd x y) \/
  (exists x y, 0 <= x < nd /\ 0 <= y < nd /\ v = center_slot nd x y).
Proof.
  unfold mesh_vertices. rewrite elem_of_app, !list_elem_of_bind.
  split.
  - intros [(y & Hv & Hy)|(y & Hv & Hy)];
      apply list_elem_of_fmap in Hv; destruct Hv as (x & -> & Hx);
      apply elem_of_seqZ in Hx, Hy; [left|right]; exists x, y; lia.
  - intros [(x & y & Hx & Hy & ->)|(x & y & Hx & Hy & ->)]; [left|right];
      exists y; (split; [apply list_elem_of_fmap; exists x; split; [reflexivity|]|]);
      apply elem_of_seqZ; lia.
Qed.

Lemma mesh_vertices_NoDup (nd : Z) : 0 <= nd -> NoDup (mesh_vertices nd).
Proof.
  intros Hnd. unfold mesh_vertices. apply NoDup_app. split; [|split].
  - apply NoDup_bind; [| |apply NoDup_seqZ].
    + intros y1 y2 v Hy1 Hy2 Hv1 Hv2.
      apply list_elem_of_fmap in Hv1, Hv2.
      destruct Hv1 as (x1 & -> & Hx1), Hv2 as (x2 & E & Hx2).
      apply elem_of_seqZ in Hx1, Hx2. rewrite !corner_slot_eq in E.
      destruct (cell_index_inj (2 * (nd + 1)) x1 y1 x2 y2); lia.
    + intros y _. apply NoDup_fmap_2_strong; [|apply NoDup_seqZ].
      intros x1 x2 _ _. unfold corner_slot. lia.
  - intros v Hv1 Hv2.
    apply list_elem_of_bind in Hv1, Hv2.
    destruct Hv1 as (y1 & Hv1 & Hy1), Hv2 as (y2 & Hv2 & Hy2).
    apply list_elem_of_fmap in Hv1, Hv2.
    destruct Hv1 as (x1 & -> & Hx1), Hv2 as (x2 & E & Hx2).
    apply elem_of_seqZ in Hx1, Hx2. rewrite corner_slot_eq, center_slot_eq in E.
    destruct (cell_index_inj (2 * (nd + 1)) x1 y1 (x2 + (nd + 1)) y2); lia.
  - apply NoDup_bind; [| |apply NoDup_seqZ].
    + intros y1 y2 v Hy1 Hy2 Hv1 Hv2.
      apply list_elem_of_fmap in Hv1, Hv2.
      destruct Hv1 as (x1 & -> & Hx1), Hv2 as (x2 & E & Hx2).
      apply elem_of_seqZ in Hx1, Hx2. rewrite !center_slot_eq in E.
      destruct (cell_index_inj (2 * (nd + 1)) (x1 + (nd + 1)) y1 (x2 + (nd + 1)) y2); lia.
    + intros y _. apply NoDup_fmap_2_strong; [|apply NoDup_seqZ].
      intros x1 x2 _ _. unfold center_slot. lia.
Qed.

(** The first [12 * n] slots of an index array are its first [n] cells. *)
Lemma take_slots (n : nat) (ix : list FTRI) :
  take (12 * n) (ix ≫= FTRI_slots) = take n ix ≫= FTRI_slots.
Proof.
  revert n. induction ix as [|t ix IH]; intros n.
  - csimpl. now rewrite !take_nil.
  - destruct n as [|n]; [reflexivity|].
    rewrite bind_cons. replace (12 * S n)%nat with (12 + 12 * n)%nat by lia.
    cbn [take]. rewrite bind_cons. unfold FTRI_slots at 1 3.
    cbn [app Nat.add take]. now rewrite IH.
Qed.

(** A cell [(x, y)] refers to its centre and to its four corners. *)
Lemma elem_of_index_cell (nd x y v : Z) :
  v ∈ FTRI_slots (index_cell nd (corner_slot nd x y)) <->
  v = center_slot nd x y \/ v = corner_slot nd x y \/ v = corner_slot nd (x + 1) y \/
  v = corner_slot nd x (y + 1) \/ v = corner_slot nd (x + 1) (y + 1).
Proof.
  unfold FTRI_slots, index_cell. cbn [ta tb tc td te tf tg th ti tj tk tl].
  rewrite !elem_of_cons, elem_of_nil.
  rewrite center_slot_eq, !corner_slot_eq. lia.
Qed.

Lemma elem_of_index_pass (nd v : Z) (indx0 : list FTRI) :
  1 <= nd -> nd * nd <= Z.of_nat (length indx0) ->
  v ∈ take (Z.to_nat (12 * (nd * nd))) (index_pass nd indx0 ≫= FTRI_slots) <->
  exists x y, 0 <= x < nd /\ 0 <= y < nd /\
              v ∈ FTRI_slots (index_cell nd (corner_slot nd x y)).
Proof.
  intros Hnd Hlen.
  destruct (index_pass_spec nd indx0) as (Hl & Hcell & _); [lia|assumption|].
  replace (Z.to_nat (12 * (nd * nd))) with (12 * Z.to_nat (nd * nd))%nat by lia.
  rewrite take_slots, list_elem_of_bind. split.
  - intros (t & Hv & Ht). apply elem_of_take in Ht. destruct Ht as (i & Hi & Hlt).
    exists (Z.of_nat i mod nd), (Z.of_nat i / nd).
    assert (0 <= Z.of_nat i mod nd < nd) by (apply Z.mod_pos_bound; lia).
    assert (0 <= Z.of_nat i / nd < nd).
    { split; [apply Z.div_pos; lia|]. apply Z.div_lt_upper_bound; lia. }
    split; [assumption|]. split; [assumption|].
    rewrite <- Hcell by assumption.
    replace (Z.of_nat i / nd * nd + Z.of_nat i mod nd) with (Z.of_nat i)
      by (rewrite (Z.div_mod (Z.of_nat i) nd) at 1; lia).
    unfold aget. destruct (Z.of_nat i <? 0) eqn:E; [lia|].
    rewrite Nat2Z.id, Hi. exact Hv.
  - intros (x & y & Hx & Hy & Hv).
    exists (aget FTRI_zero (index_pass nd indx0) (y * nd + x)). split.
    + now rewrite Hcell.
    + apply elem_of_take. exists (Z.to_nat (y * nd + x)). split; [|nia].
      unfold aget. destruct (y * nd + x <? 0) eqn:E; [nia|].
      destruct (index_pass nd indx0 !! Z.to_nat (y * nd + x)) as [t|] eqn:Et; [reflexivity|].
      apply lookup_ge_None in Et. nia.
Qed.

(** Every vertex of the landscape is referred to by a cell, and a cell
    refers to vertices of the landscape only. *)
Lemma cells_cover_vertices (nd v : Z) :
  1 <= nd ->
  (exists x y, 0 <= x < nd /\ 0 <= y < nd /\
               v ∈ FTRI_slots (index_cell nd (corner_slot nd x y))) <->
  v ∈ mesh_vertices nd.
Proof.
  intros Hnd. rewrite elem_of_mesh_vertices. split.
  - intros (x & y & Hx & Hy & Hv). apply elem_of_index_cell in Hv.
    destruct Hv as [->|[->|[->|[->| ->]]]].
    + right. exists x, y. lia.
    + left. exists x, y. lia.
    + left. exists (x + 1), y. lia.
    + left. exists x, (y + 1). lia.
    + left. exists (x + 1), (y + 1). lia.
  - intros [(x & y & Hx & Hy & ->)|(x & y & Hx & Hy & ->)].
    + exists (if x <? nd then x else nd - 1), (if y <? nd then y else nd - 1).
      destruct (Z.ltb_spec x nd), (Z.ltb_spec y nd);
        (split; [lia|]; split; [lia|]; apply elem_of_index_cell).
      * right; left. reflexivity.
      * right; right; right; left. f_equal; lia.
      * right; right; left. f_equal; lia.
      * right; right; right; right. f_equal; lia.
    + exists x, y. split; [lia|]. split; [lia|]. apply elem_of_index_cell. now left.
Qed.

End IndexFacts.

(** The element array of a mesh: the [npol] index slots DrawVBO hands to
    [glDrawElements]. *)
Definition element_array {FO : FloatOps} (v : FVBO) : list Z :=
  take (Z.to_nat (npol v)) (indx v ≫= FTRI_slots).

(** The mesh a run returns has the property [P]. *)
Definition returns {A} (o : outcome (option A)) (P : A -> Prop) : Prop :=
  match o with
  | Ret (Some a) => P a
  | _ => False
  end.

(** C1, as amended: a landscape that LandscapeVBO returns for the size
    [N = 2^k], [1 <= k <= 14], has [(N + 1) * (2 * N + 2)] entries in its
    vertex arrays ([ndot]) and [4 * N^2] triangles, that is [12 * N^2]
    index slots ([npol]); the index slots refer to [(N + 1)^2 + N^2]
    distinct vertices, each within the vertex arrays. *)
Theorem LandscapeVBO_counts {FO : FloatOps} {RO : RandOps} (e : Env) (k flgs0 seed0 : Z)
    (grid0 fhei0 wlvl0 : FLOAT) (lscp : option (list FHEI)) (m : FVBO) :
  1 <= k <= 14 ->
  LandscapeVBO e k flgs0 seed0 grid0 fhei0 wlvl0 lscp = Ret (Some m) ->
  ndim m = 2 ^ k /\
  ndot m = (2 ^ k + 1) * (2 * 2 ^ k + 2) /\
  Z.of_nat (length (vect m)) = ndot m /\
  npol m = 3 * (4 * (2 ^ k) ^ 2) /\
  Z.of_nat (length (element_array m)) = npol m /\
  Z.of_nat (length (remove_dups (element_array m))) = (2 ^ k + 1) ^ 2 + (2 ^ k) ^ 2 /\
  (forall v, v ∈ element_array m -> 0 <= v < ndot m).
Proof.
  intros Hk Hrun.
  pose proof (LandscapeVBO_cases e k flgs0 seed0 grid0 fhei0 wlvl0 lscp) as Hc.
  rewrite Hrun in Hc. destruct Hc as (_ & _ & _ & Hnd & Hdot & Hpol & Hix & Hvec).
  assert (Hlo : 2 ^ 1 <= 2 ^ k) by (apply Z.pow_le_mono_r; lia).
  assert (Hhi : 2 ^ k <= 2 ^ 14) by (apply Z.pow_le_mono_r; lia).
  change (2 ^ 1) with 2 in Hlo. change (2 ^ 14) with 16384 in Hhi.
  rewrite uint_small in Hnd by lia.
  set (N := 2 ^ k) in *. rewrite Hnd in *.
  rewrite uint_small in Hdot by nia. rewrite uint_small in Hpol by nia.
  assert (Hcells : N * N <= Z.of_nat (length (calloc FTRI_zero (1 + Z.shiftr (ndot m) 1)))).
  { rewrite length_calloc, Z.shiftr_div_pow2 by lia. change (2 ^ 1) with 2.
    rewrite Hdot. replace ((N + 1) * (N + N + 2)) with ((N + 1) * (N + 1) * 2) by lia.
    rewrite Z.div_mul by lia. nia. }
  assert (Hmem : forall v, v ∈ element_array m <-> v ∈ mesh_vertices N).
  { intros v. unfold element_array. rewrite Hix, Hpol.
    replace (3 * 4 * N * N) with (12 * (N * N)) by lia.
    rewrite elem_of_index_pass by (lia || assumption).
    apply cells_cover_vertices. lia. }
  split; [reflexivity|]. split; [rewrite Hdot; lia|]. split; [rewrite Hvec; lia|].
  split; [rewrite Hpol; lia|]. split; [|split].
  - unfold element_array. rewrite Hix.
    destruct (index_pass_spec N (calloc FTRI_zero (1 + Z.shiftr (ndot m) 1)))
      as (Hl & _ & _); [lia|assumption|].
    rewrite length_take, (length_bind_const _ 12) by reflexivity.
    rewrite Hl. rewrite Hpol in *. lia.
  - rewrite <- (mesh_vertices_length N) by lia. f_equal.
    apply Permutation_length. apply NoDup_Permutation.
    + apply NoDup_remove_dups.
    + apply mesh_vertices_NoDup. lia.
    + intros v. rewrite elem_of_remove_dups. apply Hmem.
  - intros v Hv. apply Hmem, elem_of_mesh_vertices in Hv. rewrite Hdot.
    destruct Hv as [(x & y & Hx & Hy & ->)|(x & y & Hx & Hy & ->)];
      [rewrite corner_slot_eq|rewrite center_slot_eq];
      assert (y * (2 * (N + 1)) <= N * (2 * (N + 1)))
        by (apply Z.mul_le_mono_nonneg_r; lia);
      assert (0 <= y * (2 * (N + 1))) by (apply Z.mul_nonneg_nonneg; lia); lia.
Qed.

(** The scenario of the specification: size 4, grid spacing 16, height
    range 600, water level -150, bands [{1, A}, {0, Water}], seed 1. *)
Definition scenario_bands : list (@FHEI binary32) :=
  [mkFHEI (flit 1 0) 0xFF30A15D; mkFHEI (flit 0 0) 0x80AC630D].

Definition scenario : outcome (option (@FVBO binary32)) :=
  LandscapeVBO (env_of f0 f0) 2 63 1 (flit 16 0) (flit 600 0) (flit (-150) 0)
    (Some scenario_bands).

(** The scenario returns a mesh, and the mesh has the counts of the
    theorem. *)
Lemma LandscapeVBO_counts_witness :
  returns scenario
    (fun m =>
       ndim m = 2 ^ 2 /\
       ndot m = (2 ^ 2 + 1) * (2 * 2 ^ 2 + 2) /\
       Z.of_nat (length (vect m)) = ndot m /\
       npol m = 3 * (4 * (2 ^ 2) ^ 2) /\
       Z.of_nat (length (element_array m)) = npol m /\
       Z.of_nat (length (remove_dups (element_array m))) = (2 ^ 2 + 1) ^ 2 + (2 ^ 2) ^ 2 /\
       (forall v, v ∈ element_array m -> 0 <= v < ndot m)).
Proof.
  assert (E : returns scenario (fun _ => True)) by (vm_compute; exact I).
  revert E. unfold returns, scenario.
  destruct (LandscapeVBO _ _ _ _ _ _ _ _) as [[m|]|] eqn:Erun; intros E;
    [|contradiction|contradiction].
  apply (@LandscapeVBO_counts binary32 msvcrt (env_of f0 f0) 2 63 1 (flit 16 0) (flit 600 0)
           (flit (-150) 0) (Some scenario_bands) m); [lia|exact Erun].
Defined.

(** C1, as stated, fails in the scenario: the mesh has 50 vertices, not
    [25 + 16 = 41]. *)
Lemma LandscapeVBO_counts_counterexample :
  returns scenario
    (fun m => ndot m = 50 /\ Z.of_nat (length (vect m)) = 50 /\ ndot m <> 25 + 16).
Proof. vm_compute. repeat split. discriminate. Qed.

(** A band table whose last entry has the height [-1]: it has no entry
    of height zero. *)
Definition no_zero_bands : list (@FHEI binary32) :=
  [mkFHEI (flit 8 0) 0xFF30A15D; mkFHEI (flit (-1) 0) 0x80AC630D].

(** The mesh stage of LandscapeVBO for the size 4 on a flat heightmap. *)
Definition flat_landscape : outcome (@FVBO binary32 * rng) :=
  match MakeVBO 50 with
  | Some retn =>
      landscape_mesh (env_of f0 f0) 4 63 1 (flit 16 0) (flit 600 0) (flit (-150) 0)
        scenario_bands retn (index_pass 4 (indx retn)) (calloc f0 25) (srand 1)
  | None => Crash
  end.

(** C5, as stated, fails: LandscapeVBO builds a mesh from a band table
    without an entry of height zero, and its mesh stage builds one from
    a heightmap whose minimum and maximum are equal. *)
Lemma LandscapeVBO_null_counterexample :
  (Forall (fun b => feqb (fhei b) f0 = false) no_zero_bands /\
   returns (LandscapeVBO (env_of f0 f0) 2 63 1 (flit 16 0) (flit 600 0) (flit (-150) 0)
              (Some no_zero_bands))
     (fun m => ndot m = 50)) /\
  (height_range (env_of f0 f0) 4 (calloc f0 25) = (f0, f0) /\
   match flat_landscape with
   | Ret (land, _) => ndot land = 50
   | Crash => False
   end).
Proof.
  split; split.
  - repeat constructor.
  - vm_compute. reflexivity.
  - reflexivity.
  - vm_compute. reflexivity.
Qed.

(** ** ObjectVBO *)

(** The run crashes. *)
Definition crashes {A} (o : outcome A) : Prop :=
  match o with
  | Crash => True
  | Ret _ => False
  end.

Lemma crashes_eq {A} (o : outcome A) : crashes o -> o = Crash.
Proof. destruct o; [contradiction|reflexivity]. Qed.

(** C8: with no centre vertex above the water ObjectVBO neither returns
    NULL nor an empty selection: [MakeVBO(0)] is NULL and the next
    statement writes through it. *)
Theorem ObjectVBO_no_spot {FO : FloatOps} {RO : RandOps} (vobj : FVBO) (inum : Z) (g : rng) :
  0 < inum -> count_spots vobj = 0 ->
  ObjectVBO (Some vobj) inum g = Crash.
Proof.
  intros Hn Hc. unfold ObjectVBO, select_spots. rewrite Hc.
  replace (inum =? 0) with false by (symmetry; apply Z.eqb_neq; lia).
  replace (0 <? inum) with true by (symmetry; apply Z.ltb_lt; lia).
  reflexivity.
Qed.

(** A mesh of size 4 that lies at the water level 0 everywhere. *)
Definition flooded : @FVBO binary32 :=
  {| next := None; flgs := 63; ndim := 4; ndot := 50; npol := 192; ntex := None;
     seed := 1; grid := flit 64 0; wlvl := f0;
     indx := index_pass 4 (calloc FTRI_zero 26);
     vect := calloc FVEC_zero 50; norm := calloc FVEC_zero 50;
     clrs := calloc 0 50; texc := calloc FTEX_zero 50 |}.

Lemma ObjectVBO_no_spot_witness : ObjectVBO (Some flooded) DEF_NOBJ (srand 1) = Crash.
Proof. apply (@ObjectVBO_no_spot binary32 msvcrt flooded DEF_NOBJ (srand 1)); reflexivity. Defined.

(** The same through LandscapeVBO: a water level at the top of the
    height range floods every vertex, and the build crashes. *)
Lemma LandscapeVBO_flooded :
  LandscapeVBO (env_of f0 f0) 2 63 1 (flit 16 0) (flit 600 0) (flit 300 0)
    (Some scenario_bands) = Crash.
Proof. apply crashes_eq. vm_compute. exact I. Qed.

(** *** The selection of ObjectVBO *)

(** A counting loop is a left fold over its indices. *)
Lemma for_up_foldl {S} (a hi : Z) (body : Z -> S -> S) (s : S) :
  for_up a hi 1 body s = foldl (fun s j => body j s) s (seqZ a (hi - a)).
Proof.
  unfold for_up. remember (Z.to_nat (hi - a)) as n eqn:En.
  revert a s En. induction n as [|n IH]; intros a s En.
  - rewrite seqZ_nil by lia. reflexivity.
  - rewrite seqZ_cons by lia. cbn [for_up_fuel foldl].
    replace (a <? hi) with true by (symmetry; apply Z.ltb_lt; lia).
    rewrite IH by lia. do 2 f_equal; lia.
Qed.

Lemma foldl_bind_list {S A B} (f : S -> B -> S) (h : A -> list B) (l : list A) (s : S) :
  foldl f s (l ≫= h) = foldl (fun s a => foldl f s (h a)) s l.
Proof.
  revert s. induction l as [|a l IH]; intros s; [reflexivity|].
  rewrite bind_cons, foldl_app. apply IH.
Qed.

Lemma foldl_same {S A} (f f' : S -> A -> S) (l : list A) (s : S) :
  (forall s a, f s a = f' s a) -> foldl f s l = foldl f' s l.
Proof.
  intros H. revert s. induction l as [|a l IH]; intros s; [reflexivity|].
  cbn. rewrite H. apply IH.
Qed.

Lemma foldl_filter_bool {S A} (c : A -> bool) (f : S -> A -> S) (l : list A) (s : S) :
  foldl (fun s a => if c a then f s a else s) s l =
  foldl f s (filter (fun a => c a = true) l).
Proof.
  revert s. induction l as [|a l IH]; intros s; [reflexivity|].
  cbn [foldl]. rewrite filter_cons. destruct (c a) eqn:E.
  - rewrite decide_True by reflexivity. cbn. apply IH.
  - rewrite decide_False by discriminate. apply IH.
Qed.

Lemma for_down_count {S} (P : Z -> S -> Prop) (a lo : Z) (body : Z -> S -> S) (s : S) :
  lo <= a -> P a s ->
  (forall j s, lo < j <= a -> P j s -> P (j - 1) (body j s)) ->
  P lo (for_down a lo body s).
Proof.
  intros Hle H0 Hstep. unfold for_down.
  remember (Z.to_nat (a - lo)) as n eqn:En.
  revert a s Hle H0 Hstep En. induction n as [|n IH]; intros a s Hle H0 Hstep En; simpl.
  - assert (a = lo) by lia. now subst.
  - destruct (lo <? a) eqn:E; [|lia].
    apply IH; [lia| | |lia].
    + apply Hstep; [lia|assumption].
    + intros j s' Hj. apply Hstep. lia.
Qed.

(** Taking the cell [x] out of the first [n] cells of [l] and putting
    the last of them in its place leaves the other [n - 1]. *)
Lemma swap_remove (l : list Z) (n x : Z) :
  0 <= x < n -> n <= Z.of_nat (length l) ->
  take (Z.to_nat n) l ≡ₚ
  aget 0 l x :: take (Z.to_nat (n - 1)) (aset l x (aget 0 l (n - 1))).
Proof.
  intros Hx Hn. unfold aget, aset.
  replace (x <? 0) with false by (symmetry; apply Z.ltb_ge; lia).
  replace (n - 1 <? 0) with false by (symmetry; apply Z.ltb_ge; lia).
  replace (Z.to_nat n) with (S (Z.to_nat (n - 1))) by lia.
  set (m := Z.to_nat (n - 1)). set (i := Z.to_nat x).
  assert (Hm : (m < length l)%nat) by lia.
  assert (Hi : (i <= m)%nat) by lia.
  destruct (lookup_lt_is_Some_2 l m Hm) as [b Eb].
  rewrite Eb. cbn [default from_option id].
  rewrite (take_S_r l m b Eb).
  destruct (decide (i = m)) as [->|Hne].
  - rewrite Eb. cbn [default from_option id]. rewrite take_insert_ge by lia.
    symmetry. apply Permutation_cons_append.
  - assert (Hlt : (i < m)%nat) by lia.
    destruct (lookup_lt_is_Some_2 l i ltac:(lia)) as [a Ea].
    rewrite Ea. cbn [default from_option id].
    rewrite take_insert_lt by lia.
    assert (Et : take m l !! i = Some a) by (rewrite lookup_take_lt by lia; exact Ea).
    rewrite insert_take_drop by (rewrite length_take; lia).
    rewrite <- (take_drop_middle (take m l) i a Et) at 1.
    set (t1 := take i (take m l)). set (t2 := drop (S i) (take m l)).
    rewrite <- Permutation_cons_append.
    rewrite <- (Permutation_middle t1 t2 a), <- (Permutation_middle t1 t2 b).
    apply perm_swap.
Qed.

Section Spots.
Context {FO : FloatOps} {RO : RandOps}.
Variable vobj : FVBO.

(** The test both scans make of the vertex [x]. *)
Definition above_water (x : Z) : bool :=
  fltb (wlvl vobj) (vz (aget FVEC_zero (vect vobj) x)).

(** The centre vertices in the order of the scans, and those of them
    above the water. *)
Definition center_slots (nd : Z) : list Z :=
  seqZ 0 nd ≫= fun y => seqZ (center_row nd y) nd.

Definition candidates : list Z :=
  filter (fun x => above_water x = true) (center_slots (ndim vobj)).

(** A scan of the centre vertices that acts on those above the water. *)
Lemma scan_foldl {S} (f : Z -> S -> S) (s : S) :
  for_up 0 (ndim vobj) 1
    (fun y s =>
       for_up (center_row (ndim vobj) y) (ndim vobj + center_row (ndim vobj) y) 1
         (fun x s => if above_water x then f x s else s) s) s =
  foldl (fun s x => f x s) s candidates.
Proof.
  unfold candidates, center_slots.
  rewrite <- foldl_filter_bool, foldl_bind_list, for_up_foldl.
  rewrite Z.sub_0_r. apply foldl_same. intros s' y.
  rewrite for_up_foldl. do 2 f_equal. lia.
Qed.

Lemma count_spots_candidates : count_spots vobj = Z.of_nat (length candidates).
Proof.
  unfold count_spots.
  rewrite (scan_foldl (fun _ xh => xh + 1)).
  assert (H : forall l s, foldl (fun s (_ : Z) => s + 1) s l = s + Z.of_nat (length l)).
  { induction l as [|a l IH]; intros s; cbn [foldl length]; [lia|]. rewrite IH. lia. }
  rewrite H. lia.
Qed.

(** [farr[--yh] = x] for each [x] of [l]: the cells below [yh] are
    filled from the top down. *)
Lemma fill_down (l : list Z) (yh : Z) (farr : list Z) :
  Z.of_nat (length l) <= yh <= Z.of_nat (length farr) ->
  foldl (fun st x => (fst st - 1, aset (snd st) (fst st - 1) x)) (yh, farr) l =
  (yh - Z.of_nat (length l),
   take (Z.to_nat (yh - Z.of_nat (length l))) farr ++ reverse l ++ drop (Z.to_nat yh) farr).
Proof.
  revert yh farr. induction l as [|x l IH]; intros yh farr Hyh.
  - cbn [foldl length]. change (Z.of_nat 0) with 0. rewrite Z.sub_0_r.
    rewrite reverse_nil. cbn [app]. now rewrite take_drop.
  - cbn [foldl fst snd]. cbn [length] in Hyh. rewrite IH by (rewrite length_aset; lia).
    cbn [length]. f_equal; [lia|].
    unfold aset. replace (yh - 1 <? 0) with false by (symmetry; apply Z.ltb_ge; lia).
    replace (Z.to_nat (yh - 1 - Z.of_nat (length l))) with
      (Z.to_nat (yh - Z.of_nat (S (length l)))) by lia.
    rewrite take_insert_ge by lia.
    rewrite drop_insert_ge by lia.
    replace (Z.to_nat (yh - 1) - Z.to_nat (yh - 1))%nat with 0%nat by lia.
    assert (Hd : drop (Z.to_nat (yh - 1)) farr =
                 default 0 (farr !! Z.to_nat (yh - 1)) :: drop (Z.to_nat yh) farr).
    { destruct (farr !! Z.to_nat (yh - 1)) as [v|] eqn:E.
      - replace (Z.to_nat yh) with (S (Z.to_nat (yh - 1))) by lia.
        now apply drop_S.
      - apply lookup_ge_None in E. lia. }
    rewrite Hd. cbn [insert list_insert]. rewrite reverse_cons, <- !app_assoc. reflexivity.
Qed.

Lemma fill_spots_candidates :
  fill_spots vobj (count_spots vobj) = reverse candidates.
Proof.
  unfold fill_spots.
  set (n := count_spots vobj).
  transitivity
    (snd (for_up 0 (ndim vobj) 1
            (fun y st =>
               for_up (center_row (ndim vobj) y) (ndim vobj + center_row (ndim vobj) y) 1
                 (fun x st =>
                    if above_water x
                    then (fun x st => (fst st - 1, aset (snd st) (fst st - 1) x)) x st
                    else st) st)
            (n, malloc (fun _ => 0) n))).
  { f_equal. rewrite !for_up_foldl. apply foldl_same. intros st y.
    rewrite !for_up_foldl. apply foldl_same. intros [yh farr] x.
    unfold above_water. cbn [fst snd]. reflexivity. }
  rewrite (scan_foldl (fun x st => (fst st - 1, aset (snd st) (fst st - 1) x))).
  assert (Hn : n = Z.of_nat (length candidates)) by apply count_spots_candidates.
  rewrite fill_down by (rewrite length_malloc; lia).
  cbn [snd]. rewrite Hn, Z.sub_diag. cbn [Z.to_nat take app].
  rewrite drop_ge by (rewrite length_malloc; lia). apply app_nil_r.
Qed.

(** The state of the selection loop when [j] draws are left: the
    anchors drawn so far and the spots still in [farr[0 .. xh - 1]] are
    the candidates. *)
Definition drawn (xh0 xl j : Z) (st : Z * list Z * list Z * rng) : Prop :=
  let '(xh, fobj, farr, _) := st in
  xh = xh0 - xl + j /\
  Z.of_nat (length fobj) = 1 + xl /\
  aget 0 fobj 0 = xl /\
  Z.of_nat (length farr) = xh0 /\
  (aget 0 fobj <$> seqZ (j + 1) (xl - j)) ++ take (Z.to_nat xh) farr ≡ₚ candidates.

Lemma draw_spot_drawn (xh0 xl j : Z) (st : Z * list Z * list Z * rng) :
  0 < j <= xl -> xl <= xh0 ->
  drawn xh0 xl j st -> drawn xh0 xl (j - 1) (draw_spot j st).
Proof.
  intros Hj Hxl. destruct st as [[[xh fobj] farr] g]. unfold drawn, draw_spot.
  intros (Hxh & Hlo & H0 & Hla & Hperm).
  pose proof (rand_nonneg g) as Hr. destruct (rand g) as [r g']. cbn [fst] in Hr.
  assert (Hx : 0 <= Z.rem r xh < xh) by (apply Z.rem_bound_pos; lia).
  set (x := Z.rem r xh) in *.
  split; [lia|]. split; [rewrite length_aset; exact Hlo|].
  split; [rewrite aget_aset_ne by lia; exact H0|].
  split; [rewrite length_aset; exact Hla|].
  replace (j - 1 + 1) with j by lia.
  rewrite (seqZ_cons j) by lia. rewrite fmap_cons.
  rewrite aget_aset_eq by lia.
  replace (Z.succ j) with (j + 1) by lia. replace (Z.pred (xl - (j - 1))) with (xl - j) by lia.
  assert (Hsame : aget 0 (aset fobj j (aget 0 farr x)) <$> seqZ (j + 1) (xl - j) =
                  aget 0 fobj <$> seqZ (j + 1) (xl - j)).
  { apply list_fmap_ext. intros i v Hv. apply lookup_seqZ in Hv.
    apply aget_aset_ne. lia. }
  rewrite Hsame. rewrite <- Hperm.
  rewrite (swap_remove farr xh x) by lia.
  apply Permutation_middle.
Qed.

(** [fobj] after the selection: [fobj[0]] is the lesser of the number
    of candidates and [inum], and the anchors [fobj[1 .. fobj[0]]] are
    candidates, none of them drawn twice. *)
Lemma select_spots_drawn (inum : Z) (g : rng) :
  0 <= inum ->
  let fobj := fst (select_spots vobj inum g) in
  aget 0 fobj 0 = Z.min (count_spots vobj) inum /\
  exists rest, (aget 0 fobj <$> seqZ 1 (aget 0 fobj 0)) ++ rest ≡ₚ candidates.
Proof.
  intros Hin. unfold select_spots.
  set (xh0 := count_spots vobj).
  assert (Hxh0 : xh0 = Z.of_nat (length candidates)) by apply count_spots_candidates.
  set (xl := if xh0 <? inum then xh0 else inum).
  assert (Hxl : xl = Z.min xh0 inum).
  { unfold xl. destruct (xh0 <? inum) eqn:E; [apply Z.ltb_lt in E|apply Z.ltb_ge in E]; lia. }
  assert (Hfill : fill_spots vobj xh0 = reverse candidates) by apply fill_spots_candidates.
  rewrite Hfill.
  pose proof (for_down_count (drawn xh0 xl) xl 0 draw_spot
                (xh0, aset (malloc (fun _ => 0) (1 + xl)) 0 xl, reverse candidates, g)) as H.
  destruct (for_down xl 0 draw_spot _) as [[[xh fobj] farr] g'].
  cbn [fst]. destruct H as (_ & _ & H0 & _ & Hperm).
  - lia.
  - unfold drawn. split; [lia|]. split; [rewrite length_aset, length_malloc; lia|].
    split; [apply aget_aset_eq; rewrite length_malloc; lia|].
    rewrite length_reverse. split; [lia|].
    rewrite Z.sub_diag. rewrite seqZ_nil by lia.
    rewrite fmap_nil. cbn [app].
    rewrite take_ge by (rewrite length_reverse; lia). apply reverse_Permutation.
  - intros j st Hj. apply draw_spot_drawn; lia.
  - split; [lia|]. exists (take (Z.to_nat xh) farr).
    rewrite H0. rewrite Z.sub_0_r in Hperm. exact Hperm.
Qed.

Lemma elem_of_center_slots (nd v : Z) :
  v ∈ center_slots nd <->
  exists x y, 0 <= x < nd /\ 0 <= y < nd /\ v = center_slot nd x y.
Proof.
  unfold center_slots. rewrite list_elem_of_bind. split.
  - intros (y & Hv & Hy). apply elem_of_seqZ in Hv, Hy.
    exists (v - center_row nd y), y. unfold center_slot, center_row in *. lia.
  - intros (x & y & Hx & Hy & ->). exists y. rewrite !elem_of_seqZ.
    unfold center_slot, center_row. lia.
Qed.

Lemma NoDup_center_slots (nd : Z) : NoDup (center_slots nd).
Proof.
  unfold center_slots. apply NoDup_bind; [| |apply NoDup_seqZ].
  - intros y1 y2 v Hy1 Hy2 Hv1 Hv2. apply elem_of_seqZ in Hy1, Hy2, Hv1, Hv2.
    unfold center_row in *. rewrite !Z.shiftl_mul_pow2 in * by lia.
    change (2 ^ 1) with 2 in *. nia.
  - intros y _. apply NoDup_seqZ.
Qed.

Lemma NoDup_candidates : NoDup candidates.
Proof. apply NoDup_filter, NoDup_center_slots. Qed.

Lemma elem_of_candidates (v : Z) :
  v ∈ candidates <->
  (exists x y, 0 <= x < ndim vobj /\ 0 <= y < ndim vobj /\ v = center_slot (ndim vobj) x y) /\
  above_water v = true.
Proof.
  unfold candidates. rewrite list_elem_of_filter, elem_of_center_slots. tauto.
Qed.

End Spots.

(** [ObjectVBO(vobj, inum)] with [inum > 0] and at least one centre
    vertex above the water: the number of such vertices is the number the
    first scan counts; the call draws the lesser of that number and
    [inum] anchors, each a centre vertex above the water, none twice;
    and it returns a mesh of fifteen vertices and twelve triangles for
    each anchor. *)
Theorem ObjectVBO_selects {FO : FloatOps} {RO : RandOps} (vobj : FVBO) (inum : Z) (g : rng) :
  0 < inum -> 0 < count_spots vobj -> Z.min inum (count_spots vobj) < 2 ^ 26 ->
  let fobj := fst (select_spots vobj inum g) in
  let picked := aget 0 fobj <$> seqZ 1 (aget 0 fobj 0) in
  count_spots vobj = Z.of_nat (length (candidates vobj)) /\
  Z.of_nat (length picked) = Z.min inum (count_spots vobj) /\
  NoDup picked /\
  (forall a, a ∈ picked ->
     (exists x y, 0 <= x < ndim vobj /\ 0 <= y < ndim vobj /\
                  a = center_slot (ndim vobj) x y) /\
     fltb (wlvl vobj) (vz (aget FVEC_zero (vect vobj) a)) = true) /\
  exists m, ObjectVBO (Some vobj) inum g = Ret (Some m) /\
            ndot m = 15 * Z.min inum (count_spots vobj) /\
            npol m = 3 * (12 * Z.min inum (count_spots vobj)).
Proof.
  intros Hin Hcnt Hfit fobj picked.
  destruct (select_spots_drawn vobj inum g) as (H0 & rest & Hperm); [lia|].
  fold fobj in H0, Hperm. fold picked in Hperm.
  assert (Hnd : NoDup (picked ++ rest)) by (rewrite Hperm; apply NoDup_candidates).
  apply NoDup_app in Hnd. destruct Hnd as (Hnd & _ & _).
  split; [apply count_spots_candidates|].
  split.
  { unfold picked. rewrite length_fmap, length_seqZ, H0. lia. }
  split; [exact Hnd|]. split.
  { intros a Ha. apply (elem_of_candidates vobj). rewrite <- Hperm.
    apply elem_of_app. now left. }
  unfold ObjectVBO. replace (inum =? 0) with false by (symmetry; apply Z.eqb_neq; lia).
  unfold fobj in H0. destruct (select_spots vobj inum g) as [fo g1]. cbn [fst] in H0.
  rewrite H0. replace (Z.min (count_spots vobj) inum) with (Z.min inum (count_spots vobj)) by lia.
  set (n := Z.min inum (count_spots vobj)) in *.
  assert (Hn : 0 < n < 2 ^ 26) by lia.
  change (2 ^ 26) with 67108864 in Hn.
  rewrite !uint_small by (change (2 ^ 32) with 4294967296; lia).
  unfold MakeVBO. replace (3 * 5 * n =? 0) with false by (symmetry; apply Z.eqb_neq; lia).
  generalize (MakeFacetTex 64 g1). intros [tex g2].
  match goal with
  | |- context [for_down ?a ?lo ?body ?s] => destruct (for_down a lo body s) as [[[[ix vc] nm] cl] tc]
  end.
  eexists. split; [reflexivity|]. cbn [ndot npol]. lia.
Qed.

(** A mesh of size 4 that lies above the water everywhere. *)
Definition dry : @FVBO binary32 :=
  {| next := None; flgs := 63; ndim := 4; ndot := 50; npol := 192; ntex := None;
     seed := 1; grid := flit 64 0; wlvl := flit (-1) 0;
     indx := index_pass 4 (calloc FTRI_zero 26);
     vect := calloc FVEC_zero 50; norm := calloc FVEC_zero 50;
     clrs := calloc 0 50; texc := calloc FTEX_zero 50 |}.

(** Three props on the dry mesh: the call lies in the range of the
    theorem. *)
Lemma ObjectVBO_selects_witness :
  let fobj := fst (select_spots dry 3 (srand 1)) in
  let picked := aget 0 fobj <$> seqZ 1 (aget 0 fobj 0) in
  count_spots dry = Z.of_nat (length (candidates dry)) /\
  Z.of_nat (length picked) = Z.min 3 (count_spots dry) /\
  NoDup picked /\
  (forall a, a ∈ picked ->
     (exists x y, 0 <= x < ndim dry /\ 0 <= y < ndim dry /\
                  a = center_slot (ndim dry) x y) /\
     fltb (wlvl dry) (vz (aget FVEC_zero (vect dry) a)) = true) /\
  exists m, ObjectVBO (Some dry) 3 (srand 1) = Ret (Some m) /\
            ndot m = 15 * Z.min 3 (count_spots dry) /\
            npol m = 3 * (12 * Z.min 3 (count_spots dry)).
Proof.
  apply (@ObjectVBO_selects binary32 msvcrt dry 3 (srand 1)); reflexivity.
Defined.

(** ** Serialize and Deserialize *)

(** The last [n] characters of a path. *)
Definition final_chars (n : nat) (s : string) : string :=
  String.substring (String.length s - n) n s.

(** C9: the path ["a.txt.txt"] ends in [".txt"], and the test finds its
    first [".txt"], which does not end the path: Serialize writes the
    binary format and Deserialize reads it. *)
Theorem text_format_first_occurrence {FO : FloatOps} {RO : RandOps} {WO : WireOps}
    (fs : files) (cam : camera) (vobj : FVBO) :
  final_chars 4 "a.txt.txt" = ".txt"%string /\
  text_format "a.txt.txt" = false /\
  Serialize fs cam "a.txt.txt" vobj =
    (if fopen_wb fs "a.txt.txt"
     then Some (write_raw (seed vobj) (flgs vobj) (camera_fields cam))
     else None).
Proof. repeat split. Qed.

Section PathFacts.
Local Open Scope string_scope.

Lemma string_app_assoc (a b c : string) : (a ++ b) ++ c = a ++ (b ++ c).
Proof. induction a as [|ch a IH]; [reflexivity|]. cbn. now rewrite IH. Qed.

Lemma string_app_length (a b : string) :
  String.length (a ++ b) = (String.length a + String.length b)%nat.
Proof. induction a as [|ch a IH]; [reflexivity|]. cbn. now rewrite IH. Qed.

Lemma string_length_zero (a : string) : String.length a = 0%nat -> a = "".
Proof. destruct a; [reflexivity|discriminate]. Qed.

(** [String.prefix n s] holds exactly when [s] starts with [n]. *)
Lemma prefix_iff (n s : string) : String.prefix n s = true <-> exists r, s = n ++ r.
Proof.
  revert s. induction n as [|ch n IH]; intros s.
  - split; [intros _; now exists s|intros _; now destruct s].
  - destruct s as [|ch' s]; cbn.
    + split; [discriminate|intros (r & H); discriminate H].
    + destruct (Ascii.ascii_dec ch ch') as [->|Hne].
      * rewrite IH. split; intros (r & H); exists r; congruence.
      * split; [discriminate|]. intros (r & [= H _]). now destruct Hne.
Qed.

(** What [strstr] returns starts with the needle, ends the string, and
    nothing before it starts with the needle. *)
Lemma strstr_Some (s needle rest : string) :
  strstr s needle = Some rest ->
  exists q, s = q ++ rest /\
    (exists r, rest = needle ++ r) /\
    (forall q' r', s = q' ++ needle ++ r' -> (String.length q <= String.length q')%nat).
Proof.
  revert rest. induction s as [|ch s IH]; intros rest; cbn [strstr].
  - destruct (String.prefix needle "") eqn:E; [|discriminate].
    intros [= <-]. exists "". split; [reflexivity|]. split; [now apply prefix_iff|].
    intros q' r' _. cbn. lia.
  - destruct (String.prefix needle (String ch s)) eqn:E.
    + intros [= <-]. exists "". split; [reflexivity|]. split; [now apply prefix_iff|].
      intros q' r' _. cbn. lia.
    + intros H. destruct (IH rest H) as (q & Hq & Hr & Hmin).
      exists (String ch q). split; [cbn; now rewrite Hq|]. split; [exact Hr|].
      intros q' r' Hs. destruct q' as [|c' q'].
      * cbn in Hs. assert (String.prefix needle (String ch s) = true)
          by (apply prefix_iff; now exists r').
        congruence.
      * cbn in Hs. injection Hs as _ Hs. cbn. apply le_n_S. now apply (Hmin q' r').
Qed.

Lemma strstr_None (s needle : string) :
  strstr s needle = None -> forall q r, s <> q ++ needle ++ r.
Proof.
  induction s as [|ch s IH]; cbn [strstr].
  - destruct (String.prefix needle "") eqn:E; [discriminate|]. intros _ q r Hs.
    destruct q; [|discriminate]. cbn in Hs.
    assert (String.prefix needle "" = true) by (apply prefix_iff; now exists r). congruence.
  - destruct (String.prefix needle (String ch s)) eqn:E; [discriminate|]. intros H q r Hs.
    destruct q as [|c q].
    + cbn in Hs. assert (String.prefix needle (String ch s) = true)
        by (apply prefix_iff; now exists r).
      congruence.
    + cbn in Hs. injection Hs as _ Hs. now apply (IH H q r).
Qed.

(** The text format is chosen exactly for the paths that end in [.txt]
    and hold [.txt] nowhere else. *)
Theorem text_format_iff (file : string) :
  text_format file = true <->
  (exists p, file = p ++ ".txt") /\
  (forall q r, file = q ++ ".txt" ++ r -> r = "").
Proof.
  unfold text_format, DEF_FEXT, DEF_FEXL, strlen. split.
  - destruct (strstr file ".txt") as [rest|] eqn:E; [|discriminate].
    intros Hlen. apply Z.eqb_eq in Hlen.
    destruct (strstr_Some _ _ _ E) as (q & Hq & (r & Hr) & Hmin).
    assert (r = "").
    { apply string_length_zero. rewrite Hr, string_app_length in Hlen. cbn in Hlen. lia. }
    subst r. split.
    + exists q. now rewrite Hq, Hr.
    + intros q' r' Hs. apply string_length_zero.
      pose proof (Hmin q' r' Hs) as Hle.
      assert (Hl : String.length file = String.length file) by reflexivity.
      rewrite Hs in Hl at 1. rewrite Hq, Hr in Hl.
      rewrite !string_app_length in Hl. cbn in Hl. lia.
  - intros [(p & Hp) Hend].
    destruct (strstr file ".txt") as [rest|] eqn:E.
    + destruct (strstr_Some _ _ _ E) as (q & Hq & (r & Hr) & _).
      assert (r = "") by (apply (Hend q r); now rewrite Hq, Hr).
      subst r. rewrite Hr. reflexivity.
    + exfalso. apply (strstr_None _ _ E p ""). exact Hp.
Qed.

End PathFacts.

(** ** Loops that fill an array *)

Lemma for_down_foldl {S} (a lo : Z) (body : Z -> S -> S) (s : S) :
  for_down a lo body s = foldl (fun s j => body j s) s (reverse (seqZ (lo + 1) (a - lo))).
Proof.
  unfold for_down. remember (Z.to_nat (a - lo)) as n eqn:En.
  revert a s En. induction n as [|n IH]; intros a s En.
  - rewrite seqZ_nil by lia. reflexivity.
  - replace (a - lo) with ((a - 1 - lo) + 1) by lia.
    rewrite seqZ_app by lia. rewrite (seqZ_cons _ 1) by lia. rewrite (seqZ_nil _ (Z.pred 1)) by lia.
    rewrite reverse_app, reverse_singleton. cbn [foldl for_down_fuel app].
    replace (lo <? a) with true by (symmetry; apply Z.ltb_lt; lia).
    replace (lo + 1 + (a - 1 - lo)) with a by lia.
    rewrite IH by lia. reflexivity.
Qed.

(** A loop that carries an index beside the array. *)
Lemma foldl_counter {A} (G : Z -> Z -> A -> A) (xs : list Z) :
  forall (d0 : Z) (l : A) (a : Z),
    xs = seqZ a (Z.of_nat (length xs)) ->
    foldl (fun (s : Z * A) x => (fst s + 1, G (fst s) x (snd s))) (d0, l) xs =
    (d0 + Z.of_nat (length xs), foldl (fun l x => G (d0 + (x - a)) x l) l xs).
Proof.
  induction xs as [|x xs IH]; intros d0 l a Hx.
  - cbn. f_equal. lia.
  - cbn [length] in Hx. rewrite Nat2Z.inj_succ, seqZ_cons in Hx by lia.
    injection Hx as Hx0 Hx. rewrite Z.pred_succ in Hx. subst x.
    cbn [foldl fst snd]. rewrite (IH (d0 + 1) _ (Z.succ a) Hx).
    f_equal; [cbn [length]; lia|].
    replace (d0 + (a - a)) with d0 by lia.
    apply foldl_same. intros l' x. f_equal. lia.
Qed.

Lemma foldl_fmap_list {S A B} (f : S -> B -> S) (h : A -> B) (l : list A) (s : S) :
  foldl f s (h <$> l) = foldl (fun s a => f s (h a)) s l.
Proof. revert s. induction l as [|a l IH]; intros s; [reflexivity|]. cbn. apply IH. Qed.

(** The cells [(x, y)] of a rectangle, row by row. *)
Definition cells (w h : Z) : list (Z * Z) :=
  seqZ 0 h ≫= fun y => (fun x => (x, y)) <$> seqZ 0 w.

Lemma elem_of_cells (w h x y : Z) : (x, y) ∈ cells w h <-> 0 <= x < w /\ 0 <= y < h.
Proof.
  unfold cells. rewrite list_elem_of_bind. split.
  - intros (y' & Hx & Hy). apply list_elem_of_fmap in Hx. destruct Hx as (x' & [= -> ->] & Hx).
    apply elem_of_seqZ in Hx, Hy. lia.
  - intros [Hx Hy]. exists y. split; [|apply elem_of_seqZ; lia].
    apply list_elem_of_fmap. exists x. split; [reflexivity|apply elem_of_seqZ; lia].
Qed.

(** Two nested counting loops are one fold over the cells. *)
Lemma nested_foldl {S} (w h : Z) (f : S -> Z * Z -> S) (s : S) :
  for_up 0 h 1 (fun y s => for_up 0 w 1 (fun x s => f s (x, y)) s) s = foldl f s (cells w h).
Proof.
  unfold cells. rewrite foldl_bind_list, for_up_foldl, Z.sub_0_r.
  apply foldl_same. intros s' y. rewrite for_up_foldl, Z.sub_0_r.
  now rewrite foldl_fmap_list.
Qed.

(** A fold that writes each of its cells once, where the value written
    rests on cells [S] that the fold does not write. *)
Lemma foldl_aset_spec {A K} (d : A) (key : K -> Z) (val : K -> list A -> A) (V : K -> A)
    (S : Z -> Prop) (ks : list K) (l0 : list A) :
  NoDup (key <$> ks) ->
  (forall k, k ∈ ks -> 0 <= key k < Z.of_nat (length l0)) ->
  (forall k, k ∈ ks -> ~ S (key k)) ->
  (forall k l, k ∈ ks -> length l = length l0 ->
     (forall j, S j -> aget d l j = aget d l0 j) -> val k l = V k) ->
  let l' := foldl (fun l k => aset l (key k) (val k l)) l0 ks in
  length l' = length l0 /\
  (forall k, k ∈ ks -> aget d l' (key k) = V k) /\
  (forall j, j ∉ key <$> ks -> aget d l' j = aget d l0 j).
Proof.
  induction ks as [|k ks IH] using rev_ind; intros Hnd Hin HS Hval; cbn zeta.
  - cbn. split; [reflexivity|]. split; [intros k Hk; inversion Hk|reflexivity].
  - rewrite fmap_app in Hnd. apply NoDup_app in Hnd. destruct Hnd as (Hnd & Hdis & _).
    destruct IH as (Hl & Hd & Hr); [exact Hnd| | | |].
    + intros k' Hk'. apply Hin. apply elem_of_app. now left.
    + intros k' Hk'. apply HS. apply elem_of_app. now left.
    + intros k' l Hk'. apply Hval. apply elem_of_app. now left.
    + rewrite foldl_app. cbn [foldl].
      set (l1 := foldl (fun l k => aset l (key k) (val k l)) l0 ks) in *.
      assert (Hk : k ∈ ks ++ [k]) by (apply elem_of_app; right; now left).
      assert (Hnew : key k ∉ key <$> ks).
      { intros H. apply (Hdis (key k) H). cbn. now left. }
      assert (Hv : val k l1 = V k).
      { apply Hval; [exact Hk|exact Hl|]. intros j Hj. apply Hr.
        intros H. apply list_elem_of_fmap in H. destruct H as (k' & E & Hk').
        apply (HS k'); [apply elem_of_app; now left|]. now rewrite <- E. }
      split; [now rewrite length_aset|]. split.
      * intros k' Hk'. apply elem_of_app in Hk'. destruct Hk' as [Hk'|Hk'].
        -- rewrite aget_aset_ne; [now apply Hd|].
           intros E. apply Hnew. rewrite E. apply list_elem_of_fmap. now exists k'.
        -- apply list_elem_of_singleton in Hk'. subst k'.
           rewrite aget_aset_eq by (rewrite Hl; now apply Hin). exact Hv.
      * intros j Hj. rewrite fmap_app in Hj. rewrite aget_aset_ne.
        -- apply Hr. intros H. apply Hj. apply elem_of_app. now left.
        -- intros E. apply Hj. apply elem_of_app. right. cbn. rewrite E. now left.
Qed.

(** ** Concrete runs *)

(** The run ends without a crash. *)
Definition finishes {A} (o : outcome A) : Prop :=
  match o with
  | Ret _ => True
  | Crash => False
  end.

Definition result {A} (d : A) (o : outcome A) : A :=
  match o with
  | Ret a => a
  | Crash => d
  end.

Lemma finishes_eq {A} (d : A) (o : outcome A) : finishes o -> o = Ret (result d o).
Proof. destruct o; [reflexivity|contradiction]. Qed.

(** The mesh of the scenario. *)
Definition scenario_mesh : @FVBO binary32 :=
  match scenario with
  | Ret (Some m) => m
  | _ => dry
  end.

Lemma scenario_mesh_eq :
  LandscapeVBO (env_of f0 f0) 2 63 1 (flit 16 0) (flit 600 0) (flit (-150) 0)
    (Some scenario_bands) = Ret (Some scenario_mesh).
Proof.
  assert (E : returns scenario (fun _ => True)) by (vm_compute; exact I).
  revert E. unfold scenario_mesh, returns, scenario.
  destruct (LandscapeVBO _ _ _ _ _ _ _ _) as [[m|]|];
    [reflexivity|contradiction|contradiction].
Qed.

(** ** DrawVBO *)

Section DrawingFacts.
Context {FO : FloatOps}.

(** Induction along the chain of [next]. *)
Fixpoint FVBO_chain_ind (P : FVBO -> Prop)
    (leaf : forall v, next v = None -> P v)
    (node : forall v c, next v = Some c -> P c -> P v) (v : FVBO) {struct v} : P v :=
  match v as v0 return P v0 with
  | mkFVBO nx fl nd ndt npl ntx sd gr wl ix vc nm cl tc =>
      match nx as nx0
        return P (mkFVBO nx0 fl nd ndt npl ntx sd gr wl ix vc nm cl tc) with
      | None => leaf (mkFVBO None fl nd ndt npl ntx sd gr wl ix vc nm cl tc) eq_refl
      | Some c =>
          node (mkFVBO (Some c) fl nd ndt npl ntx sd gr wl ix vc nm cl tc) c eq_refl
            (FVBO_chain_ind P leaf node c)
      end
  end.

Lemma draw_leaf (fl : Z) (v : FVBO) :
  next v = None -> draw fl v = (draw_calls fl v, set_flgs v (clear_flag fl USE_OBJS)).
Proof. destruct v as [nx]. cbn [next]. intros ->. reflexivity. Qed.

Lemma draw_node (fl : Z) (v c : FVBO) :
  next v = Some c ->
  draw fl v =
  if has_flag fl USE_OBJS then
    let flc := if has_flag (flgs c) USE_OBJS then fl else clear_flag fl USE_OBJS in
    (draw_calls fl v ++ fst (draw flc c), set_next (set_flgs v fl) (Some (snd (draw flc c))))
  else (draw_calls fl v, set_flgs v fl).
Proof. destruct v as [nx]. cbn [next]. intros ->. reflexivity. Qed.

(** Clearing [USE_OBJS] leaves the other five flags as they are. *)
Lemma has_flag_clear_OBJS (fl bit : Z) :
  Z.land (uint (Z.lnot USE_OBJS)) bit = bit ->
  has_flag (clear_flag fl USE_OBJS) bit = has_flag fl bit.
Proof.
  intros H. unfold has_flag, clear_flag. now rewrite <- Z.land_assoc, H.
Qed.

Lemma has_OBJS_clear (fl : Z) : has_flag (clear_flag fl USE_OBJS) USE_OBJS = false.
Proof.
  unfold has_flag, clear_flag. rewrite <- Z.land_assoc.
  change (Z.land (uint (Z.lnot USE_OBJS)) USE_OBJS) with 0. now rewrite Z.land_0_r.
Qed.

Lemma clear_flag_twice (fl bit : Z) :
  clear_flag (clear_flag fl bit) bit = clear_flag fl bit.
Proof. unfold clear_flag. now rewrite <- Z.land_assoc, Z.land_diag. Qed.

Lemma draw_calls_clear_OBJS (fl : Z) (v : FVBO) :
  draw_calls (clear_flag fl USE_OBJS) v = draw_calls fl v.
Proof.
  unfold draw_calls. now rewrite !has_flag_clear_OBJS by reflexivity.
Qed.

Lemma draw_calls_set_flgs (fl fl' : Z) (v : FVBO) :
  draw_calls fl (set_flgs v fl') = draw_calls fl v.
Proof. reflexivity. Qed.

Lemma draw_calls_set_next (fl : Z) (v : FVBO) (nx : option FVBO) :
  draw_calls fl (set_next v nx) = draw_calls fl v.
Proof. reflexivity. Qed.

(** The flags DrawVBO leaves in a mesh. *)
Lemma draw_flgs (fl : Z) (v : FVBO) :
  flgs (snd (draw fl v)) = match next v with None => clear_flag fl USE_OBJS | Some _ => fl end.
Proof.
  destruct (next v) as [c|] eqn:E.
  - rewrite (draw_node fl v c E). destruct (has_flag fl USE_OBJS); reflexivity.
  - rewrite (draw_leaf fl v E). reflexivity.
Qed.

Lemma draw_next (fl : Z) (v : FVBO) :
  next (snd (draw fl v)) =
  match next v with
  | None => None
  | Some c =>
      if has_flag fl USE_OBJS
      then Some (snd (draw (if has_flag (flgs c) USE_OBJS then fl
                            else clear_flag fl USE_OBJS) c))
      else Some c
  end.
Proof.
  destruct (next v) as [c|] eqn:E.
  - rewrite (draw_node fl v c E). destruct (has_flag fl USE_OBJS); [reflexivity|].
    cbn [snd set_flgs next]. exact E.
  - rewrite (draw_leaf fl v E). cbn [snd set_flgs next]. exact E.
Qed.

Lemma set_flgs_set_flgs (v : FVBO) (fl fl' : Z) : set_flgs (set_flgs v fl) fl' = set_flgs v fl'.
Proof. reflexivity. Qed.

(** A second DrawVBO repeats the first. *)
Lemma draw_again (v : FVBO) :
  forall fl, draw (flgs (snd (draw fl v))) (snd (draw fl v)) = draw fl v.
Proof.
  induction v as [v E|v c E IH] using FVBO_chain_ind; intros fl.
  - rewrite (draw_leaf fl v E). cbn [snd]. cbn [set_flgs flgs].
    rewrite draw_leaf by (cbn [set_flgs next]; exact E).
    rewrite draw_calls_clear_OBJS, draw_calls_set_flgs, set_flgs_set_flgs, clear_flag_twice.
    reflexivity.
  - rewrite (draw_node fl v c E). destruct (has_flag fl USE_OBJS) eqn:Ef.
    + cbn zeta. set (flc := if has_flag (flgs c) USE_OBJS then fl else clear_flag fl USE_OBJS).
      cbn [snd]. cbn [set_next set_flgs flgs].
      rewrite (draw_node fl _ (snd (draw flc c))) by reflexivity.
      rewrite Ef. cbn zeta.
      assert (Hflc : (if has_flag (flgs (snd (draw flc c))) USE_OBJS then fl
                      else clear_flag fl USE_OBJS) = flgs (snd (draw flc c))).
      { rewrite draw_flgs. destruct (next c) as [d|].
        - unfold flc. destruct (has_flag (flgs c) USE_OBJS).
          + now rewrite Ef.
          + now rewrite has_OBJS_clear.
        - rewrite has_OBJS_clear. unfold flc. destruct (has_flag (flgs c) USE_OBJS);
            [reflexivity|now rewrite clear_flag_twice]. }
      rewrite Hflc, IH. reflexivity.
    + cbn [snd set_flgs flgs].
      rewrite (draw_node fl _ c) by (cbn [set_flgs next]; exact E).
      rewrite Ef. reflexivity.
Qed.

(** After one DrawVBO every further DrawVBO makes the same calls and
    leaves the meshes as they are. *)
Theorem DrawVBO_again (vobj : option FVBO) :
  DrawVBO (snd (DrawVBO vobj)) = DrawVBO vobj.
Proof.
  destruct vobj as [v|]; [|reflexivity].
  unfold DrawVBO. cbn [snd]. now rewrite draw_again.
Qed.

(** The calls that go through the pointers loaded with the ARB
    extension. *)
Definition is_ARB_call (c : GLcall) : bool :=
  match c with
  | glBindBufferARB _ _ => true
  | _ => false
  end.

(** The counts of the [glDrawElements] calls, in order. *)
Definition element_counts (t : list GLcall) : list Z :=
  t ≫= fun c => match c with glDrawElements n _ => [n] | _ => [] end.

Lemma draw_calls_no_ARB (fl : Z) (v : FVBO) :
  has_flag fl USE_ARBV = false ->
  Forall (fun c => is_ARB_call c = false) (draw_calls fl v).
Proof.
  intros H. unfold draw_calls. rewrite H.
  destruct (has_flag fl USE_FILL), (has_flag fl USE_CLRS), (has_flag fl USE_NORM),
    (has_flag fl USE_TEXC); repeat constructor.
Qed.

Lemma draw_no_ARB (v : FVBO) :
  forall fl, has_flag fl USE_ARBV = false ->
    Forall (fun c => is_ARB_call c = false) (fst (draw fl v)).
Proof.
  induction v as [v E|v c E IH] using FVBO_chain_ind; intros fl H.
  - rewrite (draw_leaf fl v E). now apply draw_calls_no_ARB.
  - rewrite (draw_node fl v c E). destruct (has_flag fl USE_OBJS);
      [|now apply draw_calls_no_ARB].
    cbn [fst]. apply Forall_app. split; [now apply draw_calls_no_ARB|].
    apply IH. destruct (has_flag (flgs c) USE_OBJS); [exact H|].
    now rewrite has_flag_clear_OBJS.
Qed.

Lemma element_counts_draw_calls (fl : Z) (v : FVBO) :
  element_counts (draw_calls fl v) = [npol v].
Proof.
  unfold draw_calls.
  destruct (has_flag fl USE_FILL), (has_flag fl USE_CLRS), (has_flag fl USE_ARBV),
    (has_flag fl USE_NORM), (has_flag fl USE_TEXC); reflexivity.
Qed.

(** What DrawVBO draws of a mesh with one mesh behind it: the mesh, and
    the mesh behind it when [USE_OBJS] is set. *)
Lemma DrawVBO_two (v c : FVBO) :
  next v = Some c -> next c = None ->
  element_counts (fst (DrawVBO (Some v))) =
  if has_flag (flgs v) USE_OBJS then [npol v; npol c] else [npol v].
Proof.
  intros Ev Ec. unfold DrawVBO. cbn [fst].
  rewrite (draw_node _ v c Ev). destruct (has_flag (flgs v) USE_OBJS).
  - cbn [fst]. unfold element_counts. rewrite bind_app.
    fold (element_counts (draw_calls (flgs v) v)).
    rewrite element_counts_draw_calls, draw_leaf by exact Ec.
    cbn [fst]. match goal with |- context [draw_calls ?f c] =>
      fold (element_counts (draw_calls f c)); rewrite element_counts_draw_calls end.
    reflexivity.
  - cbn [fst]. apply element_counts_draw_calls.
Qed.

End DrawingFacts.

(** ** The stages of a run of LandscapeVBO *)

Section Stages.
Context {FO : FloatOps} {RO : RandOps}.

(** What ObjectVBO returns is a mesh of its own, with nothing behind
    it. *)
Lemma ObjectVBO_Some (vobj : FVBO) (inum : Z) (g : rng) (r : option FVBO) :
  ObjectVBO (Some vobj) inum g = Ret r -> inum <> 0 ->
  exists c, r = Some c /\ next c = None /\ flgs c = USE_ARBV /\
            npol c = uint (3 * 3 * 4 * aget 0 (fst (select_spots vobj inum g)) 0) /\
            ndot c = uint (3 * 5 * aget 0 (fst (select_spots vobj inum g)) 0) /\
            ndot c <> 0.
Proof.
  intros H Hn. unfold ObjectVBO in H.
  replace (inum =? 0) with false in H by (symmetry; apply Z.eqb_neq; lia).
  destruct (select_spots vobj inum g) as [fobj g1]. cbn [fst].
  unfold MakeVBO in H.
  destruct (uint (3 * 5 * aget 0 fobj 0) =? 0) eqn:Ez; [discriminate|].
  apply Z.eqb_neq in Ez. revert H. generalize (MakeFacetTex 64 g1). intros [tex g2].
  match goal with
  | |- context [for_down ?a ?lo ?body ?s] => destruct (for_down a lo body s) as [[[[ix vc] nm] cl] tc]
  end.
  intros [= <-]. eexists. split; [reflexivity|]. cbn [next flgs npol ndot].
  repeat split. exact Ez.
Qed.

(** A run of LandscapeVBO that returns a mesh, stage by stage. *)
Lemma LandscapeVBO_Some (e : Env) (ndim0 flgs0 seed0 : Z) (grid0 fhei0 wlvl0 : FLOAT)
    (lscp : option (list FHEI)) (m : FVBO) :
  LandscapeVBO e ndim0 flgs0 seed0 grid0 fhei0 wlvl0 lscp = Ret (Some m) ->
  let nd := uint (2 ^ ndim0) in
  let flgs1 := if has_ARB e then flgs0 else Z.land flgs0 (uint (Z.lnot USE_ARBV)) in
  let fh := fabs fhei0 in
  let wl := if fltb (fmul (flit (-1) (-1)) fh) wlvl0 then wlvl0
            else fmul (flit (-1) (-1)) fh in
  exists tbl retn farr g land g' c,
    lscp = Some tbl /\ ndim0 <> 0 /\ fleb grid0 f0 = false /\
    MakeVBO (uint ((nd + 1) * (nd + nd + 2))) = Some retn /\
    landscape_heightmap e nd seed0 = Ret (Some farr, g) /\
    landscape_mesh e nd flgs1 seed0 grid0 fh wl tbl retn (index_pass nd (indx retn)) farr g =
      Ret (land, g') /\
    ObjectVBO (Some land) DEF_NOBJ g' = Ret (Some c) /\
    m = set_next land (Some c).
Proof.
  intros H nd flgs1 fh wl. unfold LandscapeVBO in H.
  destruct lscp as [tbl|]; [|discriminate].
  destruct (ndim0 =? 0) eqn:En; [discriminate|].
  destruct (fleb grid0 f0) eqn:Eg; [discriminate|].
  cbn [orb] in H. fold nd flgs1 fh wl in H.
  destruct (MakeVBO (uint ((nd + 1) * (nd + nd + 2)))) as [retn|] eqn:Er; [|discriminate].
  destruct (landscape_heightmap e nd seed0) as [[[farr|] g]|] eqn:Eh;
    [|discriminate|discriminate].
  destruct (landscape_mesh e nd flgs1 seed0 grid0 fh wl tbl retn (index_pass nd (indx retn))
              farr g) as [[land g']|] eqn:El; [|discriminate].
  cbn [mbind outcome_bind obind] in H.
  destruct (ObjectVBO (Some land) DEF_NOBJ g') as [nx|] eqn:Eo; [|discriminate].
  cbn [mbind outcome_bind obind] in H. injection H as <-.
  destruct (ObjectVBO_Some land DEF_NOBJ g' nx Eo) as (c & -> & _); [discriminate|].
  exists tbl, retn, farr, g, land, g', c.
  split; [reflexivity|]. split; [apply Z.eqb_neq; exact En|]. split; [reflexivity|].
  split; [reflexivity|]. split; [reflexivity|]. split; [exact El|]. split; [exact Eo|reflexivity].
Qed.

End Stages.

(** ** The flags of a landscape *)

Section Flags.
Context {FO : FloatOps} {RO : RandOps}.

(** [flgs] as LandscapeVBO stores it. *)
Definition stored_flgs (e : Env) (flgs0 : Z) : Z :=
  if has_ARB e then flgs0 else Z.land flgs0 (uint (Z.lnot USE_ARBV)).

Lemma stored_flgs_twice (e : Env) (flgs0 : Z) :
  stored_flgs e (stored_flgs e flgs0) = stored_flgs e flgs0.
Proof.
  unfold stored_flgs. destruct (has_ARB e); [reflexivity|].
  now rewrite <- Z.land_assoc, Z.land_diag.
Qed.

Lemma landscape_mesh_flgs (e : Env) (nd fl fl' seed0 : Z) (gr fh wl : FLOAT)
    (tbl : list FHEI) (retn : FVBO) (ix : list FTRI) (farr : list FLOAT) (g g' : rng)
    (land : FVBO) :
  landscape_mesh e nd fl seed0 gr fh wl tbl retn ix farr g = Ret (land, g') ->
  landscape_mesh e nd fl' seed0 gr fh wl tbl retn ix farr g = Ret (set_flgs land fl', g').
Proof.
  unfold landscape_mesh. generalize (MakeFacetTex 64 g). intros tex.
  destruct (height_range e nd farr) as [fmin fmax].
  destruct (landscape_colors _ _ _ _ _ _) as [cl|]; [|discriminate].
  cbn [mbind outcome_bind obind]. intros [= <- <-]. reflexivity.
Qed.

Lemma ObjectVBO_set_flgs (v : FVBO) (fl inum : Z) (g : rng) :
  ObjectVBO (Some (set_flgs v fl)) inum g = ObjectVBO (Some v) inum g.
Proof. reflexivity. Qed.

Lemma LandscapeVBO_stored_flgs (e : Env) (ndim0 flgs0 seed0 : Z) (grid0 fhei0 wlvl0 : FLOAT)
    (lscp : option (list FHEI)) (m : FVBO) :
  LandscapeVBO e ndim0 flgs0 seed0 grid0 fhei0 wlvl0 lscp = Ret (Some m) ->
  flgs m = stored_flgs e flgs0.
Proof.
  intros H.
  destruct (LandscapeVBO_Some e ndim0 flgs0 seed0 grid0 fhei0 wlvl0 lscp m H)
    as (tbl & retn & farr & g & land & g' & c & -> & Hn & Hg & Er & Eh & El & Eo & ->).
  destruct (landscape_mesh_fields _ _ _ _ _ _ _ _ _ _ _ _ _ _ El)
    as (_ & _ & _ & _ & _ & _ & _ & Hf & _).
  exact Hf.
Qed.

(** The flags take no part in the terrain: with other flags
    LandscapeVBO builds the same mesh, its field [flgs] apart. *)
Theorem LandscapeVBO_flags (e : Env) (ndim0 flgs0 flgs' seed0 : Z) (grid0 fhei0 wlvl0 : FLOAT)
    (lscp : option (list FHEI)) (m : FVBO) :
  LandscapeVBO e ndim0 flgs0 seed0 grid0 fhei0 wlvl0 lscp = Ret (Some m) ->
  seed m = seed0 /\ flgs m = stored_flgs e flgs0 /\
  LandscapeVBO e ndim0 flgs' seed0 grid0 fhei0 wlvl0 lscp =
    Ret (Some (set_flgs m (stored_flgs e flgs'))).
Proof.
  intros H.
  destruct (LandscapeVBO_Some e ndim0 flgs0 seed0 grid0 fhei0 wlvl0 lscp m H)
    as (tbl & retn & farr & g & land & g' & c & -> & Hn & Hg & Er & Eh & El & Eo & ->).
  destruct (landscape_mesh_fields _ _ _ _ _ _ _ _ _ _ _ _ _ _ El)
    as (_ & _ & _ & _ & _ & _ & Hs & Hf & _).
  split; [exact Hs|]. split; [exact Hf|].
  unfold LandscapeVBO.
  replace (ndim0 =? 0) with false by (symmetry; apply Z.eqb_neq; exact Hn).
  rewrite Hg. cbn [orb]. rewrite Er, Eh. fold (stored_flgs e flgs').
  rewrite (landscape_mesh_flgs _ _ _ (stored_flgs e flgs') _ _ _ _ _ _ _ _ _ _ _ El).
  cbn [mbind outcome_bind obind]. rewrite ObjectVBO_set_flgs, Eo.
  reflexivity.
Qed.

End Flags.

(** The scenario with other flags. *)
Lemma LandscapeVBO_flags_witness :
  seed scenario_mesh = 1 /\
  flgs scenario_mesh = stored_flgs (env_of f0 f0) 63 /\
  LandscapeVBO (env_of f0 f0) 2 2 1 (flit 16 0) (flit 600 0) (flit (-150) 0)
    (Some scenario_bands) =
    Ret (Some (set_flgs scenario_mesh (stored_flgs (env_of f0 f0) 2))).
Proof.
  apply (@LandscapeVBO_flags binary32 msvcrt (env_of f0 f0) 2 63 2 1 (flit 16 0) (flit 600 0)
           (flit (-150) 0) (Some scenario_bands) scenario_mesh).
  exact scenario_mesh_eq.
Defined.

(** ** What Deserialize reads and writes *)

Section PersistenceFacts.
Context {FO : FloatOps} {RO : RandOps} {WO : WireOps}.

(** The mesh of a run of Deserialize and what the run writes. *)
Definition Deserialize_mesh (r : camera * outcome (option FVBO) * option image) :
    outcome (option FVBO) := snd (fst r).
Definition Deserialize_camera (r : camera * outcome (option FVBO) * option image) : camera :=
  fst (fst r).
Definition Deserialize_written (r : camera * outcome (option FVBO) * option image) :
    option image := snd r.

(** Deserialize never returns NULL, and it writes [file] exactly when it
    has not read it, the build has not crashed and [file] can be opened
    for writing. *)
Theorem Deserialize_writes_iff (e : Env) (fs : files) (g : rng) (now : Z) (file : string)
    (open : bool) (flgs0 seed0 : Z) :
  fleb (flit 16 0) f0 = false ->
  let r := Deserialize e fs g now file open flgs0 seed0 in
  Deserialize_mesh r <> Ret None /\
  (is_Some (Deserialize_written r) <->
   (open = false \/ fopen_rb fs file = None) /\
   Deserialize_mesh r <> Crash /\ fopen_wb fs file = true).
Proof.
  intros Hgrid r. subst r. unfold Deserialize, Deserialize_mesh, Deserialize_written.
  set (seed1 := if seed0 =? 0 then uint (fst (rand g) * now) else seed0).
  assert (Hnn : forall fl sd, LandscapeVBO e DEF_LPWR fl sd (flit 16 0) (flit 600 0)
                  (fmul (flit (-1) (-2)) (flit 600 0)) (Some Deserialize_lscp) <> Ret None).
  { intros fl sd H.
    pose proof (LandscapeVBO_cases e DEF_LPWR fl sd (flit 16 0) (flit 600 0)
                  (fmul (flit (-1) (-2)) (flit 600 0)) (Some Deserialize_lscp)) as Hc.
    rewrite H in Hc. destruct Hc as [Hc|[Hc|Hc]]; [discriminate|discriminate|congruence]. }
  destruct (if open then fopen_rb fs file else None) as [img|] eqn:Eo.
  - destruct (if text_format file then _ else _) as [[sd fg] fl].
    cbn [fst snd]. split; [apply Hnn|]. unfold LandscapeVBO_file.
    split.
    + destruct (LandscapeVBO _ _ _ _ _ _ _ _) as [[m|]|]; intros [x Hx]; discriminate Hx.
    + intros [[H|H] _]; [subst open; discriminate|].
      destruct open; [congruence|discriminate].
  - cbn [fst snd]. split; [apply Hnn|]. unfold LandscapeVBO_file.
    assert (Hopen : open = false \/ fopen_rb fs file = None)
      by (destruct open; [right; exact Eo|now left]).
    pose proof (Hnn flgs0 seed1) as Hn.
    destruct (LandscapeVBO _ _ _ _ _ _ _ _) as [[m|]|].
    + unfold Serialize. destruct (fopen_wb fs file).
      * split; [intros _; repeat split; [exact Hopen|discriminate]|intros _; eexists; reflexivity].
      * split; [intros [x Hx]; discriminate Hx|intros (_ & _ & H); discriminate H].
    + now destruct Hn.
    + split; [intros [x Hx]; discriminate Hx|intros (_ & H & _); now destruct H].
Qed.

Lemma LandscapeVBO_file_None (fs : files) (c : camera) (res : outcome (option FVBO)) :
  LandscapeVBO_file fs c None res = None.
Proof. destruct res as [[m|]|]; reflexivity. Qed.

(** Reading back what Serialize wrote: Deserialize builds the landscape
    from the seed and the flags of the mesh that was saved and writes
    nothing; from a binary file it takes the camera and the light as
    they were saved. The hypotheses are what the C library promises of
    [fread] after [fwrite] and of [%u] read after [%u] written. *)
Theorem Serialize_Deserialize (e : Env) (fs fs' : files) (g : rng) (now : Z) (file : string)
    (flgs0 seed0 : Z) (saved : camera) (vobj : FVBO) (img : image) :
  (forall sd fg fl old, read_raw (write_raw sd fg fl) old = (sd, fg, fl)) ->
  (forall sd fg fl old, exists fl', scan_FRMT (print_FRMT sd fg fl) old = (sd, fg, fl')) ->
  Serialize fs saved file vobj = Some img ->
  fopen_rb fs' file = Some img ->
  let r := Deserialize e fs' g now file true flgs0 seed0 in
  Deserialize_mesh r =
    LandscapeVBO e DEF_LPWR (flgs vobj) (seed vobj) (flit 16 0) (flit 600 0)
      (fmul (flit (-1) (-2)) (flit 600 0)) (Some Deserialize_lscp) /\
  Deserialize_written r = None /\
  (text_format file = false ->
   camera_fields (Deserialize_camera r) = camera_fields saved).
Proof.
  intros Hraw Htxt Hs Hr r. subst r.
  unfold Deserialize, Deserialize_mesh, Deserialize_written, Deserialize_camera.
  rewrite Hr. unfold Serialize in Hs.
  destruct (fopen_wb fs file); [|discriminate]. injection Hs as <-.
  destruct (text_format file).
  - destruct (Htxt (seed vobj) (flgs vobj) (camera_fields saved)
                (if seed0 =? 0 then uint (fst (rand g) * now) else seed0, flgs0,
                 camera_fields CamLightReset)) as [fl' ->].
    cbn [fst snd]. split; [reflexivity|].
    split; [apply LandscapeVBO_file_None|discriminate].
  - rewrite Hraw. cbn [fst snd]. split; [reflexivity|].
    split; [apply LandscapeVBO_file_None|]. intros _. reflexivity.
Qed.

End PersistenceFacts.

(** Files of which none can be read and all can be written. *)
Definition blank_disk : @files binary32 tagged_wire :=
  {| fopen_rb := fun _ => None; fopen_wb := fun _ => true |}.

(** A first start of the program: there is no [conf.txt] yet. *)
Lemma Deserialize_writes_iff_witness :
  let r := Deserialize (env_of f0 f0) blank_disk (srand 1) 1 "conf.txt" true 63 1 in
  Deserialize_mesh r <> Ret None /\
  (is_Some (Deserialize_written r) <->
   (true = false \/ fopen_rb blank_disk "conf.txt" = None) /\
   Deserialize_mesh r <> Crash /\ fopen_wb blank_disk "conf.txt" = true).
Proof.
  apply (@Deserialize_writes_iff binary32 msvcrt tagged_wire (env_of f0 f0) blank_disk
           (srand 1) 1 "conf.txt" true 63 1).
  reflexivity.
Defined.

(** The binary file ["map.bin"] as Serialize leaves it for the mesh
    [dry] and the camera at rest. *)
Definition saved_disk : @files binary32 tagged_wire :=
  {| fopen_rb := fun _ => Serialize blank_disk CamLightReset "map.bin" dry;
     fopen_wb := fun _ => true |}.

Lemma Serialize_Deserialize_witness :
  let r := Deserialize (env_of f0 f0) saved_disk (srand 1) 1 "map.bin" true 0 0 in
  Deserialize_mesh r =
    LandscapeVBO (env_of f0 f0) DEF_LPWR (flgs dry) (seed dry) (flit 16 0) (flit 600 0)
      (fmul (flit (-1) (-2)) (flit 600 0)) (Some Deserialize_lscp) /\
  Deserialize_written r = None /\
  (text_format "map.bin" = false ->
   camera_fields (Deserialize_camera r) = camera_fields CamLightReset).
Proof.
  apply (@Serialize_Deserialize binary32 msvcrt tagged_wire (env_of f0 f0) blank_disk
           saved_disk (srand 1) 1 "map.bin" 0 0 CamLightReset dry
           (write_raw (seed dry) (flgs dry) (camera_fields CamLightReset))).
  - intros sd fg fl old. reflexivity.
  - intros sd fg fl old. exists fl. reflexivity.
  - reflexivity.
  - reflexivity.
Defined.

(** ** The window procedure *)

Section WindowFacts.
Context {FO : FloatOps} {RO : RandOps} {WO : WireOps}.



(** [USE_ARBV] is clear in the flags of the landscape. *)
Definition ARBV_clear (l : option FVBO) : Prop :=
  match l with
  | Some m => has_flag (flgs m) USE_ARBV = false
  | None => True
  end.

Lemma Deserialize_ARBV_clear (e : Env) (fs : files) (g : rng) (now : Z) (file : string)
    (open : bool) (flgs0 seed0 : Z) (l : option FVBO) :
  has_ARB e = false ->
  Deserialize_mesh (Deserialize e fs g now file open flgs0 seed0) = Ret l ->
  ARBV_clear l.
Proof.
  intros He. unfold Deserialize, Deserialize_mesh.
  assert (H : forall fl sd,
            LandscapeVBO e DEF_LPWR fl sd (flit 16 0) (flit 600 0)
              (fmul (flit (-1) (-2)) (flit 600 0)) (Some Deserialize_lscp) = Ret l ->
            ARBV_clear l).
  { intros fl sd Hrun. destruct l as [m|]; [|exact I].
    pose proof (LandscapeVBO_stored_flgs e _ fl sd _ _ _ _ m Hrun) as Hf.
    unfold ARBV_clear. rewrite Hf. unfold stored_flgs. rewrite He.
    unfold has_flag. rewrite <- Z.land_assoc.
    change (Z.land (uint (Z.lnot USE_ARBV)) USE_ARBV) with 0. now rewrite Z.land_0_r. }
  destruct (if open then fopen_rb fs file else None) as [img|].
  - destruct (if text_format file then _ else _) as [[sd fg] fl]. cbn [fst snd]. apply H.
  - cbn [fst snd]. apply H.
Qed.

Lemma land_lxor_distr (a b c : Z) :
  Z.land (Z.lxor a b) c = Z.lxor (Z.land a c) (Z.land b c).
Proof.
  apply Z.bits_inj'. intros n _. rewrite Z.land_spec, !Z.lxor_spec, !Z.land_spec.
  now destruct (Z.testbit a n), (Z.testbit b n), (Z.testbit c n).
Qed.

Lemma toggle_ARBV_clear (bit : Z) (w w' : window) :
  Z.land bit USE_ARBV = 0 -> toggle bit w = Ret w' ->
  ARBV_clear (land w) -> ARBV_clear (land w').
Proof.
  intros Hb. unfold toggle. destruct (land w) as [v|]; [|discriminate].
  intros [= <-]. cbn [land ARBV_clear set_flgs flgs]. unfold has_flag.
  now rewrite land_lxor_distr, Hb, Z.lxor_0_r.
Qed.

Lemma key_down_ARBV_clear (wPrm : Z) (w w' : window) :
  key_down false wPrm w = Ret w' -> ARBV_clear (land w) -> ARBV_clear (land w').
Proof.
  unfold key_down. set (k := Z.land wPrm 0xFF).
  set (wa := {| keys := aset (keys w) k true; cam := cam w; land := land w; path := path w |}).
  change (land w) with (land wa).
  assert (Hsame : Ret wa = Ret w' -> ARBV_clear (land wa) -> ARBV_clear (land w'))
    by (intros [= <-]; exact id).
  destruct (k =? VK_RETURN); [intros [= <-]; exact id|].
  destruct (k =? chr "Z"); [exact Hsame|].
  destruct (k =? chr "X"); [now apply toggle_ARBV_clear|].
  destruct (k =? chr "C"); [now apply toggle_ARBV_clear|].
  destruct (k =? chr "V"); [now apply toggle_ARBV_clear|].
  destruct (k =? chr "B"); [now apply toggle_ARBV_clear|].
  destruct (k =? chr "N"); [now apply toggle_ARBV_clear|].
  exact Hsame.
Qed.

Lemma DrawVBO_ARBV_clear (l : option FVBO) :
  ARBV_clear l ->
  ARBV_clear (snd (DrawVBO l)) /\ Forall (fun c => is_ARB_call c = false) (fst (DrawVBO l)).
Proof.
  destruct l as [v|]; [|intros _; split; [exact I|constructor]].
  cbn [ARBV_clear DrawVBO fst snd]. intros H. split; [|now apply draw_no_ARB].
  rewrite draw_flgs. destruct (next v); [exact H|].
  now rewrite has_flag_clear_OBJS.
Qed.

Lemma step_ARBV_clear (ev : event) (w w' : window) (t t' : list GLcall) :
  step false ev (w, t) = Ret (w', t') ->
  ARBV_clear (land w) /\ Forall (fun c => is_ARB_call c = false) t ->
  ARBV_clear (land w') /\ Forall (fun c => is_ARB_call c = false) t'.
Proof.
  intros Hs [Hl Ht]. destruct ev as [k|k|f|st p fs g now|]; cbn [step] in Hs.
  - destruct (key_down false k w) as [w1|] eqn:E; [|discriminate].
    cbn [mbind outcome_bind obind] in Hs. injection Hs as <- <-.
    split; [now apply (key_down_ARBV_clear k w)|exact Ht].
  - injection Hs as <- <-. now split.
  - injection Hs as <- <-. now split.
  - destruct (regenerate _ fs g now w) as [[w1 out]|] eqn:E; [|discriminate].
    cbn [mbind outcome_bind obind fst] in Hs. injection Hs as <- <-.
    split; [|exact Ht]. unfold regenerate in E.
    destruct (aget false (keys w) VK_SPACE); [|now injection E as <- _].
    destruct (land w) as [v|]; [|discriminate].
    match type of E with context [Deserialize ?e ?f ?g ?n ?p ?o ?fl ?sd] =>
      pose proof (Deserialize_ARBV_clear e f g n p o fl sd) as Hd;
      unfold Deserialize_mesh in Hd;
      destruct (Deserialize e f g n p o fl sd) as [[cam1 res] out1]
    end.
    cbn [fst snd] in Hd. destruct res as [l1|]; [|discriminate].
    injection E as <- _. cbn [land]. now apply Hd.
  - injection Hs as <- <-. destruct (DrawVBO_ARBV_clear (land w) Hl) as [H1 H2].
    split; [exact H1|]. apply Forall_app. now split.
Qed.

Lemma run_ARBV_clear (evs : list event) :
  forall st st',
    ARBV_clear (land (fst st)) /\ Forall (fun c => is_ARB_call c = false) (snd st) ->
    run false evs st = Ret st' ->
    ARBV_clear (land (fst st')) /\ Forall (fun c => is_ARB_call c = false) (snd st').
Proof.
  induction evs as [|ev evs IH]; intros [w1 t1] st' Hinv Hr; cbn [run] in Hr.
  - injection Hr as <-. exact Hinv.
  - destruct (step false ev (w1, t1)) as [[w2 t2]|] eqn:E; [|discriminate].
    cbn [mbind outcome_bind obind] in Hr. apply (IH (w2, t2)); [|exact Hr].
    now apply (step_ARBV_clear ev w1 w2 t1 t2).
Qed.

(** WM_INITDIALOG without the ARB extension leaves [USE_ARBV] clear. *)
Lemma init_dialog_ARBV_clear (stale : Z -> FLOAT) (past : FLOAT) (fs : files) (g : rng)
    (now : Z) (file : string) (w0 : window) (out : option image) :
  init_dialog {| has_ARB := false; stale := stale; past_end := past |} fs g now file =
    Ret (w0, out) ->
  ARBV_clear (land w0).
Proof.
  intros Hinit. unfold init_dialog in Hinit.
  match type of Hinit with context [Deserialize ?e ?f ?g ?n ?p ?o ?fl ?sd] =>
    pose proof (Deserialize_ARBV_clear e f g n p o fl sd) as Hd;
    unfold Deserialize_mesh in Hd;
    destruct (Deserialize e f g n p o fl sd) as [[cam1 res] out1]
  end.
  cbn [fst snd] in Hd. destruct res as [l1|]; [|discriminate].
  injection Hinit as <- _. cbn [land]. now apply Hd.
Qed.

(** A program without the ARB extension never calls through the
    pointers it has not loaded. The landscape of its window comes from
    LandscapeVBO (called by Deserialize when the window is created and
    whenever the landscape is built anew); whatever keys are pressed,
    files dropped and landscapes built anew afterwards, no DrawVBO of
    the landscape binds a buffer, the props included, whose mesh
    ObjectVBO marks [USE_ARBV]. *)
Theorem session_without_ARB (e : Env) (ndim0 flgs0 seed0 : Z) (grid0 fhei0 wlvl0 : FLOAT)
    (lscp : option (list FHEI)) (l : option FVBO) (ks : list bool) (cm : camera)
    (pth : string) (evs : list event) (st : window * list GLcall) :
  has_ARB e = false ->
  LandscapeVBO e ndim0 flgs0 seed0 grid0 fhei0 wlvl0 lscp = Ret l ->
  run false evs ({| keys := ks; cam := cm; land := l; path := pth |}, []) = Ret st ->
  Forall (fun c => is_ARB_call c = false) (snd st).
Proof.
  intros He Hland Hrun.
  assert (H0 : ARBV_clear l).
  { destruct l as [m|]; [|exact I].
    pose proof (LandscapeVBO_stored_flgs e _ flgs0 _ _ _ _ _ m Hland) as Hf.
    unfold ARBV_clear. rewrite Hf. unfold stored_flgs. rewrite He.
    unfold has_flag. rewrite <- Z.land_assoc.
    change (Z.land (uint (Z.lnot USE_ARBV)) USE_ARBV) with 0. now rewrite Z.land_0_r. }
  apply (run_ARBV_clear evs ({| keys := ks; cam := cm; land := l; path := pth |}, []) st);
    [|exact Hrun].
  split; [exact H0|constructor].
Qed.

End WindowFacts.



(** A session without the ARB extension: the scenario is built, then
    the keys [Z] and [N] are pressed between three DrawVBO. *)
Definition plain_env : @Env binary32 :=
  {| has_ARB := false; stale := fun _ => f0; past_end := f0 |}.

Definition blank_window : @window binary32 :=
  {| keys := calloc false 256; cam := CamLightReset; land := None; path := "conf.txt" |}.

Definition plain_events : list (@event binary32 msvcrt tagged_wire) :=
  [Draw; KeyDown (chr "Z"); Draw; KeyDown (chr "N"); KeyUp (chr "N"); Draw].

Lemma session_without_ARB_witness :
  Forall (fun c => is_ARB_call c = false)
    (snd (result (blank_window, [])
            (run false plain_events
               ({| keys := calloc false 256; cam := CamLightReset;
                   land := result None
                             (LandscapeVBO plain_env 2 63 1 (flit 16 0) (flit 600 0)
                                (flit (-150) 0) (Some scenario_bands));
                   path := "conf.txt" |}, [])))).
Proof.
  apply (@session_without_ARB binary32 msvcrt tagged_wire plain_env 2 63 1 (flit 16 0)
           (flit 600 0) (flit (-150) 0) (Some scenario_bands)
           (result None
              (LandscapeVBO plain_env 2 63 1 (flit 16 0) (flit 600 0) (flit (-150) 0)
                 (Some scenario_bands)))
           (calloc false 256) CamLightReset "conf.txt" plain_events
           (result (blank_window, [])
              (run false plain_events
                 ({| keys := calloc false 256; cam := CamLightReset;
                     land := result None
                               (LandscapeVBO plain_env 2 63 1 (flit 16 0) (flit 600 0)
                                  (flit (-150) 0) (Some scenario_bands));
                     path := "conf.txt" |}, [])))).
  - reflexivity.
  - apply (finishes_eq None). vm_compute. exact I.
  - apply finishes_eq. vm_compute. exact I.
Defined.

(** ** The command line *)

Section CommandLine.
Local Open Scope string_scope.

(** The characters WinMain steps over in front of the path. *)
Definition blank (c : ascii) : Prop := c = " "%char \/ c = "034"%char.

Lemma skip_blanks_spec (s : string) :
  exists pre, s = pre ++ skip_blanks s /\
    Forall blank (list_ascii_of_string pre) /\
    match skip_blanks s with
    | String c _ => ~ blank c
    | EmptyString => True
    end.
Proof.
  induction s as [|c s IH].
  - exists "". repeat split. constructor.
  - cbn [skip_blanks].
    destruct (Ascii.eqb c " " || Ascii.eqb c "034")%bool eqn:E.
    + destruct IH as (pre & Hs & Hp & Hf). exists (String c pre).
      split; [cbn; now rewrite <- Hs|]. split; [|exact Hf].
      cbn. constructor; [|exact Hp].
      apply orb_true_iff in E. destruct E as [E|E]; apply Ascii.eqb_eq in E; [now left|now right].
    + exists "". split; [reflexivity|]. split; [constructor|].
      apply orb_false_iff in E. destruct E as [E1 E2].
      apply Ascii.eqb_neq in E1, E2. intros [H|H]; contradiction.
Qed.

Lemma skip_blanks_all (s : string) :
  Forall blank (list_ascii_of_string s) -> skip_blanks s = "".
Proof.
  induction s as [|c s IH]; [reflexivity|]. cbn. intros H.
  apply Forall_cons in H. destruct H as [[-> | ->] H]; cbn; now apply IH.
Qed.

Lemma cut_at_quote_spec (s : string) :
  exists post, s = cut_at_quote s ++ post /\
    (post = "" \/ exists rest, post = String "034" rest) /\
    Forall (fun c => c <> "034"%char) (list_ascii_of_string (cut_at_quote s)).
Proof.
  induction s as [|c s IH].
  - exists "". repeat split; [now left|constructor].
  - cbn [cut_at_quote]. destruct (Ascii.eqb c "034") eqn:E.
    + apply Ascii.eqb_eq in E. subst c. exists (String "034" s).
      split; [reflexivity|]. split; [right; now exists s|constructor].
    + apply Ascii.eqb_neq in E. destruct IH as (post & Hs & Hp & Hf).
      exists post. split; [cbn; now rewrite <- Hs|]. split; [exact Hp|].
      cbn. now constructor.
Qed.

(** The path WinMain takes from its command line: the default file for
    an empty command line; otherwise the command line without the blanks
    and double quotes in front of it, up to the next double quote. A
    command line of blanks alone gives the empty path, not the default
    file. *)
Theorem command_path_spec (cmdl : string) :
  (cmdl = "" -> command_path cmdl = "conf.txt") /\
  (cmdl <> "" ->
   exists pre post,
     cmdl = pre ++ command_path cmdl ++ post /\
     Forall blank (list_ascii_of_string pre) /\
     (post = "" \/ exists rest, post = String "034" rest) /\
     Forall (fun c => c <> "034"%char) (list_ascii_of_string (command_path cmdl)) /\
     match command_path cmdl with
     | String c _ => ~ blank c
     | EmptyString => True
     end) /\
  (cmdl <> "" -> Forall blank (list_ascii_of_string cmdl) -> command_path cmdl = "").
Proof.
  split; [intros ->; reflexivity|].
  assert (Hlen : cmdl <> "" -> command_path cmdl = cut_at_quote (skip_blanks cmdl)).
  { intros Hne. unfold command_path, strlen. destruct cmdl as [|c0 cmdl0]; [contradiction|].
    replace (Z.of_nat (String.length (String c0 cmdl0)) =? 0)%Z with false
      by (symmetry; apply Z.eqb_neq; cbn [String.length]; lia).
    reflexivity. }
  split; intros Hne; rewrite (Hlen Hne).
  - destruct (skip_blanks_spec cmdl) as (pre & Hs & Hp & Hf).
    destruct (cut_at_quote_spec (skip_blanks cmdl)) as (post & Hc & Hq & Hn).
    exists pre, post. split; [now rewrite <- Hc|]. split; [exact Hp|].
    split; [exact Hq|]. split; [exact Hn|].
    destruct (skip_blanks cmdl) as [|c r]; cbn [cut_at_quote]; [exact I|].
    destruct (Ascii.eqb c "034") eqn:E; [exact I|exact Hf].
  - intros Hb. now rewrite skip_blanks_all.
Qed.

End CommandLine.

(** ** The band table *)

Section BandFacts.
Context {FO : FloatOps}.

(** A band proper: its height compares as positive. *)
Definition positive_band (b : FHEI) : Prop :=
  fltb f0 (fhei b) = true /\ fleb (fhei b) f0 = false.

(** The entry that ends the table: its height compares as not positive. *)
Definition end_mark (b : FHEI) : Prop :=
  fltb f0 (fhei b) = false /\ fleb (fhei b) f0 = true.

Lemma band_walk_range (bands : list FHEI) (term : FHEI) (rest : list FHEI) :
  Forall positive_band bands -> end_mark term ->
  forall i fmin, exists j,
    band_walk (bands ++ term :: rest) i fmin = Ret j /\
    i <= j <= i + Z.of_nat (length bands).
Proof.
  intros Hb [Ht _]. induction bands as [|b bands IH]; intros i fmin.
  - exists i. cbn. rewrite Ht. split; [reflexivity|lia].
  - apply Forall_cons in Hb. destruct Hb as [[Hp _] Hb]. cbn [app band_walk]. rewrite Hp.
    destruct (fltb f0 (fsub fmin (fhei b))).
    + destruct (IH Hb (i + 1) (fsub fmin (fhei b))) as (j & -> & Hj).
      exists j. split; [reflexivity|]. cbn [length]. lia.
    + exists i. split; [reflexivity|]. cbn [length]. lia.
Qed.

Lemma band_at_app (bands : list FHEI) (term : FHEI) (rest : list FHEI) (j : Z) :
  0 <= j <= Z.of_nat (length bands) ->
  (j < Z.of_nat (length bands) /\
   exists b, b ∈ bands /\ band_at (bands ++ term :: rest) j = Ret b) \/
  (j = Z.of_nat (length bands) /\ band_at (bands ++ term :: rest) j = Ret term).
Proof.
  intros Hj. unfold band_at.
  replace (j <? 0) with false by (symmetry; apply Z.ltb_ge; lia).
  destruct (decide (j < Z.of_nat (length bands))) as [Hlt|Hge].
  - left. split; [exact Hlt|].
    destruct (lookup_lt_is_Some_2 bands (Z.to_nat j)) as [b Eb]; [lia|].
    exists b. split; [now apply list_elem_of_lookup_2 in Eb|].
    rewrite lookup_app_l by lia. now rewrite Eb.
  - right. split; [lia|]. rewrite lookup_app_r by lia.
    replace (Z.to_nat j - length bands)%nat with 0%nat by lia. reflexivity.
Qed.

(** With at least one band in front of the end mark the lookup ends on
    a band. *)
Lemma band_color_band (bands : list FHEI) (term : FHEI) (rest : list FHEI) (fmin : FLOAT) :
  Forall positive_band bands -> end_mark term -> bands <> [] ->
  exists b, b ∈ bands /\
    band_color (bands ++ term :: rest) fmin = Ret (Z.lor (fclr b) 0xFF000000).
Proof.
  intros Hb Ht Hne. unfold band_color.
  destruct (band_walk_range bands term rest Hb Ht 0 fmin) as (j & -> & Hj).
  cbn [mbind outcome_bind obind].
  destruct (band_at_app bands term rest j) as [(Hlt & b & Hin & ->)|(-> & ->)]; [lia| |].
  - cbn [mbind outcome_bind obind].
    pose proof (proj1 (Forall_forall _ _) Hb b Hin) as [_ Hle]. rewrite Hle.
    destruct (band_at_app bands term rest j) as [(_ & b' & Hin' & ->)|(Hj' & _)]; [lia| |lia].
    exists b'. split; [exact Hin'|reflexivity].
  - cbn [mbind outcome_bind obind]. destruct Ht as [_ Ht2]. rewrite Ht2.
    assert (Hlen : 0 < Z.of_nat (length bands)) by (destruct bands; [contradiction|cbn; lia]).
    destruct (band_at_app bands term rest (Z.of_nat (length bands) - 1))
      as [(_ & b & Hin & ->)|(Hj' & _)]; [lia| |lia].
    exists b. split; [exact Hin|reflexivity].
Qed.

(** The colour LandscapeVBO looks up for a height: with a table of
    bands that ends in an end mark it is the colour of one of the bands,
    its alpha set to 255, for every height, a NaN included; the colour
    of the end mark is never taken. A table that begins with its end
    mark is read in front of its first entry. *)
Theorem band_color_spec (bands : list FHEI) (term : FHEI) (rest : list FHEI) (fmin : FLOAT) :
  Forall positive_band bands -> end_mark term ->
  (bands = [] -> band_color (bands ++ term :: rest) fmin = Crash) /\
  (bands <> [] ->
   exists b, b ∈ bands /\
     band_color (bands ++ term :: rest) fmin = Ret (Z.lor (fclr b) 0xFF000000)).
Proof.
  intros Hb Ht. split.
  - intros ->. destruct Ht as [Ht1 Ht2]. unfold band_color. cbn [app band_walk].
    rewrite Ht1. cbn [mbind outcome_bind obind].
    change (band_at (term :: rest) 0) with (Ret term).
    cbn [mbind outcome_bind obind]. rewrite Ht2. reflexivity.
  - intros Hne. now apply band_color_band.
Qed.

End BandFacts.

(** The table of Deserialize: four bands and the end mark. *)
Lemma band_color_spec_witness :
  (take 4 (@Deserialize_lscp binary32) = [] ->
   band_color (take 4 Deserialize_lscp ++ mkFHEI (flit 0 0) 0x80AC630D :: []) (flit 1 0) =
     Crash) /\
  (take 4 (@Deserialize_lscp binary32) <> [] ->
   exists b, b ∈ take 4 Deserialize_lscp /\
     band_color (take 4 Deserialize_lscp ++ mkFHEI (flit 0 0) 0x80AC630D :: []) (flit 1 0) =
       Ret (Z.lor (fclr b) 0xFF000000)).
Proof.
  apply (@band_color_spec binary32 (take 4 Deserialize_lscp) (mkFHEI (flit 0 0) 0x80AC630D)
           [] (flit 1 0)); [|split; reflexivity].
  repeat constructor.
Defined.

(** ** The vertices of the landscape *)

Lemma for_up_same {S} (a hi : Z) (body body' : Z -> S -> S) (s : S) :
  (forall j s, body j s = body' j s) -> for_up a hi 1 body s = for_up a hi 1 body' s.
Proof.
  intros H. rewrite !for_up_foldl. apply foldl_same. intros s' j. apply H.
Qed.

(** A row of a loop that steps [dpos] beside [x]. *)
Lemma counted_row {A} (G : Z -> Z -> A -> A) (d0 n : Z) (l : A) :
  0 <= n ->
  snd (for_up 0 n 1 (fun x (s : Z * A) => let '(dpos, l) := s in (dpos + 1, G dpos x l))
         (d0, l)) =
  for_up 0 n 1 (fun x l => G (d0 + x) x l) l.
Proof.
  intros Hn. rewrite !for_up_foldl, Z.sub_0_r.
  rewrite (foldl_same _ (fun (s : Z * A) x => (fst s + 1, G (fst s) x (snd s))))
    by (intros [dpos l'] x; reflexivity).
  rewrite (foldl_counter G (seqZ 0 n) d0 l 0) by (now rewrite length_seqZ, Z2Nat.id).
  cbn [snd]. apply foldl_same. intros l' x. now rewrite Z.sub_0_r.
Qed.

Lemma NoDup_cells (w h : Z) : NoDup (cells w h).
Proof.
  unfold cells. apply NoDup_bind; [| |apply NoDup_seqZ].
  - intros y1 y2 p _ _ H1 H2. apply list_elem_of_fmap in H1, H2.
    destruct H1 as (x1 & -> & _), H2 as (x2 & [= _ ->] & _). reflexivity.
  - intros y _. apply NoDup_fmap_2_strong; [|apply NoDup_seqZ].
    intros x1 x2 _ _ [= ->]. reflexivity.
Qed.

Section Vertices.
Context {FO : FloatOps}.

(** The corner vertex [(x, y)] as LandscapeVBO computes it. *)
Definition corner_vertex (nd : Z) (gr fh wl fmin fmax : FLOAT) (farr : list FLOAT)
    (x y : Z) : FVEC :=
  let pz := fsub (fmul (fsub (aget f0 farr (x + y * (nd + 1))) fmin) fmax)
                 (fmul (flit 1 (-1)) fh) in
  mkFVEC (fsub (fmul gr (of_Z x)) (fmul (fmul (flit 1 (-1)) gr) (of_Z nd)))
         (fsub (fmul gr (of_Z y)) (fmul (fmul (flit 1 (-1)) gr) (of_Z nd)))
         (if fltb pz wl then wl else pz).

Lemma corner_vertices_foldl (nd : Z) (gr fh wl fmin fmax : FLOAT) (farr : list FLOAT)
    (vect0 : list FVEC) :
  0 <= nd ->
  corner_vertices nd gr fh wl fmin fmax farr vect0 =
  foldl (fun vc p => aset vc (corner_slot nd (fst p) (snd p))
                       (corner_vertex nd gr fh wl fmin fmax farr (fst p) (snd p)))
    vect0 (cells (nd + 1) (nd + 1)).
Proof.
  intros Hnd. rewrite <- nested_foldl. unfold corner_vertices.
  apply for_up_same. intros y vc.
  rewrite (counted_row (fun dpos x vc =>
             aset vc dpos (corner_vertex nd gr fh wl fmin fmax farr x y))) by lia.
  reflexivity.
Qed.

Lemma corner_slot_inj (nd x y x' y' : Z) :
  0 <= x <= nd -> 0 <= x' <= nd ->
  corner_slot nd x y = corner_slot nd x' y' -> x = x' /\ y = y'.
Proof.
  intros Hx Hx'. rewrite !corner_slot_eq. intros E.
  apply (cell_index_inj (2 * (nd + 1))); lia.
Qed.

Lemma corner_center_slot (nd x y x' y' : Z) :
  0 <= x <= nd -> 0 <= x' < nd -> corner_slot nd x y <> center_slot nd x' y'.
Proof.
  intros Hx Hx'. rewrite corner_slot_eq, center_slot_eq. intros E.
  destruct (cell_index_inj (2 * (nd + 1)) x y (x' + (nd + 1)) y'); lia.
Qed.

Lemma center_slot_inj (nd x y x' y' : Z) :
  0 <= x < nd -> 0 <= x' < nd ->
  center_slot nd x y = center_slot nd x' y' -> x = x' /\ y = y'.
Proof.
  intros Hx Hx'. rewrite !center_slot_eq. intros E.
  destruct (cell_index_inj (2 * (nd + 1)) (x + (nd + 1)) y (x' + (nd + 1)) y'); lia.
Qed.

Lemma slot_bounds (nd x y : Z) :
  0 <= nd -> 0 <= x <= 2 * nd + 1 -> 0 <= y <= nd ->
  0 <= x + y * (2 * (nd + 1)) < (nd + 1) * (nd + nd + 2).
Proof.
  intros Hnd Hx Hy.
  assert (y * (2 * (nd + 1)) <= nd * (2 * (nd + 1))) by (apply Z.mul_le_mono_nonneg_r; lia).
  assert (0 <= y * (2 * (nd + 1))) by (apply Z.mul_nonneg_nonneg; lia).
  lia.
Qed.

(** What the first vertex loop leaves in the array. *)
Lemma corner_vertices_spec (nd : Z) (gr fh wl fmin fmax : FLOAT) (farr : list FLOAT)
    (vect0 : list FVEC) :
  0 <= nd -> Z.of_nat (length vect0) = (nd + 1) * (nd + nd + 2) ->
  forall x y, 0 <= x <= nd -> 0 <= y <= nd ->
    aget FVEC_zero (corner_vertices nd gr fh wl fmin fmax farr vect0) (corner_slot nd x y) =
    corner_vertex nd gr fh wl fmin fmax farr x y.
Proof.
  intros Hnd Hlen x y Hx Hy. rewrite corner_vertices_foldl by exact Hnd.
  destruct (foldl_aset_spec FVEC_zero (fun p => corner_slot nd (fst p) (snd p))
              (fun p _ => corner_vertex nd gr fh wl fmin fmax farr (fst p) (snd p))
              (fun p => corner_vertex nd gr fh wl fmin fmax farr (fst p) (snd p))
              (fun _ => False) (cells (nd + 1) (nd + 1)) vect0) as (_ & Hd & _).
  - apply NoDup_fmap_2_strong; [|apply NoDup_cells].
    intros [x1 y1] [x2 y2] H1 H2 E. apply elem_of_cells in H1, H2. cbn [fst snd] in E.
    destruct (corner_slot_inj nd x1 y1 x2 y2); [lia|lia|exact E|]. now subst.
  - intros [x1 y1] H1. apply elem_of_cells in H1. cbn [fst snd].
    rewrite corner_slot_eq, Hlen. apply slot_bounds; lia.
  - intros k _ [].
  - reflexivity.
  - apply (Hd (x, y)). apply elem_of_cells. lia.
Qed.

(** The centre vertex of the cell [(x, y)], from the corner vertices in
    [vc]. *)
Definition center_vertex (nd : Z) (gr : FLOAT) (vc : list FVEC) (x y : Z) : FVEC :=
  let z := fun x y => vz (aget FVEC_zero vc (corner_slot nd x y)) in
  mkFVEC (fsub (fmul gr (fadd (of_Z x) (flit 1 (-1)))) (fmul (fmul (flit 1 (-1)) gr) (of_Z nd)))
         (fsub (fmul gr (fadd (of_Z y) (flit 1 (-1)))) (fmul (fmul (flit 1 (-1)) gr) (of_Z nd)))
         (fmul (flit 1 (-2))
            (fadd (fadd (fadd (z x y) (z (x + 1) y)) (z x (y + 1))) (z (x + 1) (y + 1)))).

(** The centre vertex as the loop computes it at [dpos]. *)
Definition center_at (nd : Z) (gr : FLOAT) (vc : list FVEC) (x y dpos : Z) : FVEC :=
  mkFVEC (fsub (fmul gr (fadd (of_Z x) (flit 1 (-1)))) (fmul (fmul (flit 1 (-1)) gr) (of_Z nd)))
         (fsub (fmul gr (fadd (of_Z y) (flit 1 (-1)))) (fmul (fmul (flit 1 (-1)) gr) (of_Z nd)))
         (fmul (flit 1 (-2))
            (fadd (fadd (fadd (vz (aget FVEC_zero vc (dpos - nd - 1)))
                              (vz (aget FVEC_zero vc (dpos - nd - 0))))
                        (vz (aget FVEC_zero vc (dpos + nd + 1))))
                  (vz (aget FVEC_zero vc (dpos + nd + 2))))).

Lemma center_vertices_foldl (nd : Z) (gr : FLOAT) (vect0 : list FVEC) :
  0 <= nd ->
  center_vertices nd gr vect0 =
  foldl (fun vc p => aset vc (center_slot nd (fst p) (snd p))
                       (center_at nd gr vc (fst p) (snd p) (center_slot nd (fst p) (snd p))))
    vect0 (cells nd nd).
Proof.
  intros Hnd. rewrite <- nested_foldl. unfold center_vertices.
  apply for_up_same. intros y vc.
  rewrite (counted_row (fun dpos x vc => aset vc dpos (center_at nd gr vc x y dpos))) by lia.
  apply for_up_same. intros x vc'. cbn [fst snd].
  replace (nd + 1 + Z.shiftl (y * (nd + 1)) 1 + x) with (center_slot nd x y)
    by (unfold center_slot; lia).
  reflexivity.
Qed.

(** What the second vertex loop leaves in the array: the centre
    vertices, and the corner vertices as they were. *)
Lemma center_vertices_spec (nd : Z) (gr : FLOAT) (vect0 : list FVEC) :
  0 <= nd -> Z.of_nat (length vect0) = (nd + 1) * (nd + nd + 2) ->
  (forall x y, 0 <= x < nd -> 0 <= y < nd ->
     aget FVEC_zero (center_vertices nd gr vect0) (center_slot nd x y) =
     center_vertex nd gr vect0 x y) /\
  (forall x y, 0 <= x <= nd -> 0 <= y <= nd ->
     aget FVEC_zero (center_vertices nd gr vect0) (corner_slot nd x y) =
     aget FVEC_zero vect0 (corner_slot nd x y)).
Proof.
  intros Hnd Hlen. rewrite center_vertices_foldl by exact Hnd.
  destruct (foldl_aset_spec FVEC_zero (fun p => center_slot nd (fst p) (snd p))
              (fun p vc => center_at nd gr vc (fst p) (snd p) (center_slot nd (fst p) (snd p)))
              (fun p => center_vertex nd gr vect0 (fst p) (snd p))
              (fun j => exists x y, 0 <= x <= nd /\ 0 <= y <= nd /\ j = corner_slot nd x y)
              (cells nd nd) vect0) as (_ & Hd & Hr).
  - apply NoDup_fmap_2_strong; [|apply NoDup_cells].
    intros [x1 y1] [x2 y2] H1 H2 E. apply elem_of_cells in H1, H2. cbn [fst snd] in E.
    destruct (center_slot_inj nd x1 y1 x2 y2); [lia|lia|exact E|]. now subst.
  - intros [x1 y1] H1. apply elem_of_cells in H1. cbn [fst snd].
    rewrite center_slot_eq, Hlen. apply slot_bounds; lia.
  - intros [x1 y1] H1 (x & y & Hx & Hy & E). apply elem_of_cells in H1. cbn [fst snd] in E.
    symmetry in E. revert E. apply corner_center_slot; lia.
  - intros [x1 y1] l H1 _ Hsame. apply elem_of_cells in H1. cbn [fst snd].
    unfold center_at, center_vertex.
    assert (E1 : center_slot nd x1 y1 - nd - 1 = corner_slot nd x1 y1)
      by (unfold center_slot, corner_slot; lia).
    assert (E2 : center_slot nd x1 y1 - nd - 0 = corner_slot nd (x1 + 1) y1)
      by (unfold center_slot, corner_slot; lia).
    assert (E3 : center_slot nd x1 y1 + nd + 1 = corner_slot nd x1 (y1 + 1)).
    { rewrite center_slot_eq, corner_slot_eq. lia. }
    assert (E4 : center_slot nd x1 y1 + nd + 2 = corner_slot nd (x1 + 1) (y1 + 1)).
    { rewrite center_slot_eq, corner_slot_eq. lia. }
    rewrite E1, E2, E3, E4.
    rewrite !Hsame; [reflexivity| | | |].
    + exists (x1 + 1), (y1 + 1). repeat split; lia.
    + exists x1, (y1 + 1). repeat split; lia.
    + exists (x1 + 1), y1. repeat split; lia.
    + exists x1, y1. repeat split; lia.
  - split.
    + intros x y Hx Hy. apply (Hd (x, y)). apply elem_of_cells. lia.
    + intros x y Hx Hy. apply Hr. intros H. apply list_elem_of_fmap in H.
      destruct H as ([x1 y1] & E & H1). apply elem_of_cells in H1. cbn [fst snd] in E.
      revert E. apply corner_center_slot; lia.
Qed.

End Vertices.

(** ** The positions LandscapeVBO gives the vertices *)

Section LandscapeVertices.
Context {FO : FloatOps} {RO : RandOps}.

(** The arrays of the mesh the mesh stage returns. *)
Lemma landscape_mesh_arrays (e : Env) (nd flgs1 seed0 : Z) (gr fh wl : FLOAT)
    (tbl : list FHEI) (retn : FVBO) (ix : list FTRI) (farr : list FLOAT) (g g' : rng)
    (land : FVBO) :
  landscape_mesh e nd flgs1 seed0 gr fh wl tbl retn ix farr g = Ret (land, g') ->
  let hr := height_range e nd farr in
  let vc := center_vertices nd gr
              (corner_vertices nd gr fh wl (fst hr) (fdiv fh (fsub (snd hr) (fst hr))) farr
                 (vect retn)) in
  vect land = vc /\
  landscape_colors nd fh wl tbl vc (clrs retn) = Ret (clrs land) /\
  norm land = unit_normals nd gr (center_normals nd vc (corner_normals nd vc (norm retn))) /\
  texc land = texture_coords nd (texc retn) /\
  grid land = fmul (of_Z nd) gr.
Proof.
  unfold landscape_mesh. generalize (MakeFacetTex 64 g). intros tex.
  destruct (height_range e nd farr) as [fmin fmax]. cbn [fst snd].
  destruct (landscape_colors _ _ _ _ _ _) as [cl|]; [|discriminate].
  cbn [mbind outcome_bind obind]. intros [= <- <-]. cbn [vect clrs norm texc grid].
  repeat split.
Qed.

(** The vertices of a landscape LandscapeVBO returns (size [N = 2^k]):
    the corner vertex [(x, y)] lies at [(grid * x - grid / 2 * N,
    grid * y - grid / 2 * N)] and not below the water level; the centre
    vertex of the cell [(x, y)] lies half a cell further in both
    directions, at a quarter of the sum of the heights of the four
    corners of its cell. *)
Theorem LandscapeVBO_vertices (e : Env) (k flgs0 seed0 : Z) (grid0 fhei0 wlvl0 : FLOAT)
    (lscp : option (list FHEI)) (m : FVBO) :
  let wl := if fltb (fmul (flit (-1) (-1)) (fabs fhei0)) wlvl0 then wlvl0
            else fmul (flit (-1) (-1)) (fabs fhei0) in
  let half := fmul (fmul (flit 1 (-1)) grid0) (of_Z (2 ^ k)) in
  let corner := fun x y => aget FVEC_zero (vect m) (corner_slot (2 ^ k) x y) in
  let center := fun x y => aget FVEC_zero (vect m) (center_slot (2 ^ k) x y) in
  fltb wl wl = false ->
  1 <= k <= 14 ->
  LandscapeVBO e k flgs0 seed0 grid0 fhei0 wlvl0 lscp = Ret (Some m) ->
  wlvl m = wl /\
  (forall x y, 0 <= x <= 2 ^ k -> 0 <= y <= 2 ^ k ->
     vx (corner x y) = fsub (fmul grid0 (of_Z x)) half /\
     vy (corner x y) = fsub (fmul grid0 (of_Z y)) half /\
     fltb (vz (corner x y)) (wlvl m) = false) /\
  (forall x y, 0 <= x < 2 ^ k -> 0 <= y < 2 ^ k ->
     vx (center x y) = fsub (fmul grid0 (fadd (of_Z x) (flit 1 (-1)))) half /\
     vy (center x y) = fsub (fmul grid0 (fadd (of_Z y) (flit 1 (-1)))) half /\
     vz (center x y) =
       fmul (flit 1 (-2))
         (fadd (fadd (fadd (vz (corner x y)) (vz (corner (x + 1) y)))
                     (vz (corner x (y + 1))))
               (vz (corner (x + 1) (y + 1))))).
Proof.
  intros wl half corner center Hwl Hk Hrun.
  destruct (LandscapeVBO_Some e k flgs0 seed0 grid0 fhei0 wlvl0 lscp m Hrun)
    as (tbl & retn & farr & g & land & g' & c & -> & Hn & Hg & Er & Eh & El & Eo & ->).
  assert (Hlo : 2 ^ 1 <= 2 ^ k) by (apply Z.pow_le_mono_r; lia).
  assert (Hhi : 2 ^ k <= 2 ^ 14) by (apply Z.pow_le_mono_r; lia).
  change (2 ^ 1) with 2 in Hlo. change (2 ^ 14) with 16384 in Hhi.
  rewrite (uint_small (2 ^ k)) in Er, El by lia.
  set (N := 2 ^ k) in *.
  rewrite uint_small in Er by nia.
  unfold MakeVBO in Er. destruct ((N + 1) * (N + N + 2) =? 0); [discriminate|].
  injection Er as <-. cbn [vect clrs norm texc indx] in El.
  destruct (landscape_mesh_fields _ _ _ _ _ _ _ _ _ _ _ _ _ _ El)
    as (_ & _ & _ & _ & _ & Hw & _).
  destruct (landscape_mesh_arrays _ _ _ _ _ _ _ _ _ _ _ _ _ _ El) as (Hv & _).
  cbn [vect] in Hv. fold wl in Hw.
  set (hr := height_range e N farr) in *.
  set (l0 := corner_vertices N grid0 (fabs fhei0) wl (fst hr)
               (fdiv (fabs fhei0) (fsub (snd hr) (fst hr))) farr
               (calloc FVEC_zero ((N + 1) * (N + N + 2)))) in *.
  assert (Hlen0 : Z.of_nat (length (calloc FVEC_zero ((N + 1) * (N + N + 2)))) =
                  (N + 1) * (N + N + 2)) by (rewrite length_calloc; nia).
  assert (Hlen : Z.of_nat (length l0) = (N + 1) * (N + N + 2))
    by (unfold l0; now rewrite corner_vertices_length).
  destruct (center_vertices_spec N grid0 l0) as [Hce Hco]; [lia|exact Hlen|].
  assert (Hcorner : forall x y, 0 <= x <= N -> 0 <= y <= N ->
            corner x y = corner_vertex N grid0 (fabs fhei0) wl (fst hr)
                           (fdiv (fabs fhei0) (fsub (snd hr) (fst hr))) farr x y).
  { intros x y Hx Hy. unfold corner, set_next. cbn [vect]. rewrite Hv, Hco by assumption.
    unfold l0. apply corner_vertices_spec; [lia|exact Hlen0|exact Hx|exact Hy]. }
  unfold set_next at 1. cbn [wlvl]. split; [exact Hw|]. split.
  - intros x y Hx Hy. rewrite (Hcorner x y Hx Hy). unfold corner_vertex. cbn [vx vy vz].
    split; [reflexivity|]. split; [reflexivity|]. unfold set_next. cbn [wlvl]. rewrite Hw.
    match goal with |- context [if fltb ?pz wl then _ else _] =>
      destruct (fltb pz wl) eqn:E; [exact Hwl|exact E] end.
  - intros x y Hx Hy.
    assert (Hc : center x y = center_vertex N grid0 l0 x y).
    { unfold center, set_next. cbn [vect]. rewrite Hv. apply Hce; assumption. }
    rewrite Hc. unfold center_vertex. cbn [vx vy vz].
    split; [reflexivity|]. split; [reflexivity|].
    unfold corner, set_next. cbn [vect]. rewrite Hv.
    rewrite !Hco by lia. reflexivity.
Qed.

End LandscapeVertices.

(** The vertices of the scenario. *)
Lemma LandscapeVBO_vertices_witness :
  let wl := if fltb (fmul (flit (-1) (-1)) (fabs (flit 600 0))) (flit (-150) 0)
            then flit (-150) 0 else fmul (flit (-1) (-1)) (fabs (flit 600 0)) in
  let half := fmul (fmul (flit 1 (-1)) (flit 16 0)) (of_Z (2 ^ 2)) in
  let corner := fun x y => aget FVEC_zero (vect scenario_mesh) (corner_slot (2 ^ 2) x y) in
  let center := fun x y => aget FVEC_zero (vect scenario_mesh) (center_slot (2 ^ 2) x y) in
  wlvl scenario_mesh = wl /\
  (forall x y, 0 <= x <= 2 ^ 2 -> 0 <= y <= 2 ^ 2 ->
     vx (corner x y) = fsub (fmul (flit 16 0) (of_Z x)) half /\
     vy (corner x y) = fsub (fmul (flit 16 0) (of_Z y)) half /\
     fltb (vz (corner x y)) (wlvl scenario_mesh) = false) /\
  (forall x y, 0 <= x < 2 ^ 2 -> 0 <= y < 2 ^ 2 ->
     vx (center x y) = fsub (fmul (flit 16 0) (fadd (of_Z x) (flit 1 (-1)))) half /\
     vy (center x y) = fsub (fmul (flit 16 0) (fadd (of_Z y) (flit 1 (-1)))) half /\
     vz (center x y) =
       fmul (flit 1 (-2))
         (fadd (fadd (fadd (vz (corner x y)) (vz (corner (x + 1) y)))
                     (vz (corner x (y + 1))))
               (vz (corner (x + 1) (y + 1))))).
Proof.
  apply (@LandscapeVBO_vertices binary32 msvcrt (env_of f0 f0) 2 63 1 (flit 16 0) (flit 600 0)
           (flit (-150) 0) (Some scenario_bands) scenario_mesh);
    [vm_compute; reflexivity|lia|exact scenario_mesh_eq].
Defined.

(** ** The colours of the landscape *)

(** The bits of a run of [len] ones that starts at the bit [lo]. *)
Lemma testbit_ones_shift (len lo n : Z) :
  0 <= len -> 0 <= lo ->
  Z.testbit (Z.shiftl (Z.ones len) lo) n = (lo <=? n) && (n <? lo + len).
Proof.
  intros Hlen Hlo. destruct (Z.leb_spec lo n) as [H1|H1].
  - rewrite Z.shiftl_spec, Z.testbit_ones_nonneg by lia. cbn [andb].
    destruct (Z.ltb_spec (n - lo) len), (Z.ltb_spec n (lo + len)); try reflexivity; lia.
  - destruct (Z.ltb_spec n 0) as [Hneg|Hn]; [now rewrite Z.testbit_neg_r|].
    rewrite Z.shiftl_spec by lia. now rewrite Z.testbit_neg_r by lia.
Qed.

Lemma mask_byte (n : Z) : Z.testbit 0xFF n = (0 <=? n) && (n <? 8).
Proof. exact (testbit_ones_shift 8 0 n ltac:(lia) ltac:(lia)). Qed.

Lemma mask_R (n : Z) : Z.testbit 0xFFFFFF00 n = (8 <=? n) && (n <? 32).
Proof. exact (testbit_ones_shift 24 8 n ltac:(lia) ltac:(lia)). Qed.

Lemma mask_G (n : Z) :
  Z.testbit 0xFFFF00FF n = (0 <=? n) && (n <? 8) || (16 <=? n) && (n <? 32).
Proof.
  change 0xFFFF00FF with (Z.lor (Z.shiftl (Z.ones 8) 0) (Z.shiftl (Z.ones 16) 16)).
  rewrite Z.lor_spec, !testbit_ones_shift by lia. reflexivity.
Qed.

Lemma mask_B (n : Z) :
  Z.testbit 0xFF00FFFF n = (0 <=? n) && (n <? 16) || (24 <=? n) && (n <? 32).
Proof.
  change 0xFF00FFFF with (Z.lor (Z.shiftl (Z.ones 16) 0) (Z.shiftl (Z.ones 8) 24)).
  rewrite Z.lor_spec, !testbit_ones_shift by lia. reflexivity.
Qed.

Lemma mask_A (n : Z) : Z.testbit 0x00FFFFFF n = (0 <=? n) && (n <? 24).
Proof. exact (testbit_ones_shift 24 0 n ltac:(lia) ltac:(lia)). Qed.

(** Both sides bit by bit: the masks become comparisons, which the
    place of the bit decides. *)
Ltac decide_comparisons :=
  repeat match goal with
         | |- context [?a <=? ?b] =>
             first [replace (a <=? b) with true by (symmetry; apply Z.leb_le; lia)
                   |replace (a <=? b) with false by (symmetry; apply Z.leb_gt; lia)]
         | |- context [?a <? ?b] =>
             first [replace (a <? b) with true by (symmetry; apply Z.ltb_lt; lia)
                   |replace (a <? b) with false by (symmetry; apply Z.ltb_ge; lia)]
         end.

Ltac channel_bits :=
  unfold FCLR_R, FCLR_G, FCLR_B, FCLR_A, set_R, set_G, set_B, set_A;
  apply Z.bits_inj'; intros n Hn;
  repeat first [rewrite Z.land_spec | rewrite Z.lor_spec
               | rewrite Z.shiftr_spec by lia | rewrite Z.shiftl_spec by lia
               | rewrite mask_byte | rewrite mask_R | rewrite mask_G | rewrite mask_B
               | rewrite mask_A | rewrite Z.bits_0];
  destruct (Z.ltb_spec n 8); [|destruct (Z.ltb_spec n 16); [|destruct (Z.ltb_spec n 24);
    [|destruct (Z.ltb_spec n 32)]]];
  decide_comparisons;
  rewrite ?andb_true_r, ?andb_false_r, ?orb_false_r, ?orb_false_l, ?andb_true_l,
    ?andb_false_l;
  try reflexivity; try (f_equal; lia).

Lemma set_all_R (c r g b a : Z) :
  FCLR_R (set_A (set_B (set_G (set_R c r) g) b) a) = Z.land r 0xFF.
Proof. channel_bits. Qed.

Lemma set_all_G (c r g b a : Z) :
  FCLR_G (set_A (set_B (set_G (set_R c r) g) b) a) = Z.land g 0xFF.
Proof. channel_bits. Qed.

Lemma set_all_B (c r g b a : Z) :
  FCLR_B (set_A (set_B (set_G (set_R c r) g) b) a) = Z.land b 0xFF.
Proof. channel_bits. Qed.

Lemma set_all_A (c r g b a : Z) :
  FCLR_A (set_A (set_B (set_G (set_R c r) g) b) a) = Z.land a 0xFF.
Proof. channel_bits. Qed.

(** The four assignments leave nothing of what the cell held. *)
Lemma set_all_zero (c r g b a : Z) :
  set_A (set_B (set_G (set_R c r) g) b) a = set_A (set_B (set_G (set_R 0 r) g) b) a.
Proof. channel_bits. Qed.

Lemma set_A_set_A (c a a' : Z) : set_A (set_A c a) a' = set_A c a'.
Proof. channel_bits. Qed.

Lemma land_byte (v : Z) : 0 <= v <= 255 -> Z.land v 0xFF = v.
Proof.
  intros Hv. change (Z.land v 0xFF) with (Z.land v (Z.ones 8)). rewrite Z.land_ones by lia.
  apply Z.mod_small. change (2 ^ 8) with 256. lia.
Qed.

Lemma channel_range (c : Z) :
  0 <= FCLR_R c <= 255 /\ 0 <= FCLR_G c <= 255 /\ 0 <= FCLR_B c <= 255 /\ 0 <= FCLR_A c <= 255.
Proof.
  unfold FCLR_R, FCLR_G, FCLR_B, FCLR_A. change 0xFF with (Z.ones 8).
  rewrite !Z.land_ones by lia. change (2 ^ 8) with 256. change (Z.ones 8) with 255.
  pose proof (Z.mod_pos_bound c 256). pose proof (Z.mod_pos_bound (Z.shiftr c 8) 256).
  pose proof (Z.mod_pos_bound (Z.shiftr c 16) 256).
  pose proof (Z.mod_pos_bound (Z.shiftr c 24) 256). lia.
Qed.

(** The water colour as LandscapeVBO stores it: [wclr | (wtrn * 0x1000000)]. *)
Definition water_color {FO : FloatOps} (term : FHEI) : FCLR :=
  Z.lor (Z.land (fclr term) 0xFFFFFF) (uint (FCLR_A (fclr term) * 0x1000000)).

Lemma set_A_water (W a : Z) :
  0 <= a <= 255 ->
  set_A (Z.land W 0xFFFFFF) a = Z.lor (Z.land W 0xFFFFFF) (uint (a * 0x1000000)).
Proof.
  intros Ha. unfold set_A. rewrite land_rgb_idem, land_byte by exact Ha.
  rewrite uint_small by lia. rewrite Z.shiftl_mul_pow2 by lia. reflexivity.
Qed.

Section ColorSweeps.
Context {FO : FloatOps}.
Variables (nd : Z) (fh wl fmax : FLOAT) (wclr wtrn : Z) (lscp : list FHEI) (vc : list FVEC).
Variable Band : FCLR -> Prop.
Hypothesis nd_nonneg : 0 <= nd.
Hypothesis band_returns : forall fmin, exists c, band_color lscp fmin = Ret c /\ Band c.

(** The colour the first colour loop leaves in the corner vertex
    [(x, y)]. *)
Definition corner_paint (x y : Z) : FCLR :=
  let dpos := Z.shiftl (y * (nd + 1)) 1 in
  let z := vz (aget FVEC_zero vc (dpos + x)) in
  let fmin := fdiv (fmul fmax (fsub z wl)) (fsub (fmul (flit 1 (-1)) fh) wl) in
  let c := match band_color lscp fmin with Ret c => c | Crash => 0 end in
  if feqb z wl then
    let xl := if 0 <? x then x - 1 else nd - 1 in
    let xh := if x <? nd then x else 0 in
    let yl := if 0 <? y then dpos - (nd + 1) else (nd + 1) + Z.shiftl ((nd - 1) * (nd + 1)) 1 in
    let yh := if y <? nd then dpos + (nd + 1) else (nd + 1) in
    if feqb (vz (aget FVEC_zero vc (xl + yl))) wl &&
       feqb (vz (aget FVEC_zero vc (xl + yh))) wl &&
       feqb (vz (aget FVEC_zero vc (xh + yl))) wl &&
       feqb (vz (aget FVEC_zero vc (xh + yh))) wl
    then Z.lor wclr (uint (wtrn * 0x1000000))
    else c
  else c.

Lemma corner_paint_cases (x y : Z) :
  corner_paint x y = Z.lor wclr (uint (wtrn * 0x1000000)) \/ Band (corner_paint x y).
Proof.
  unfold corner_paint.
  match goal with |- context [band_color lscp ?f] =>
    destruct (band_returns f) as (c & -> & Hc) end.
  destruct (feqb _ wl); [|now right].
  destruct (_ && _); [now left|now right].
Qed.

Lemma corner_color_paint (y x : Z) (cl : list FCLR) :
  corner_color nd fh wl fmax wclr wtrn lscp vc y x cl =
  Ret (aset cl (corner_slot nd x y) (corner_paint x y)).
Proof.
  unfold corner_color, corner_paint, corner_slot.
  match goal with |- context [band_color lscp ?f] =>
    destruct (band_returns f) as (c & -> & _) end.
  cbn [mbind outcome_bind obind].
  destruct (feqb _ wl); [|reflexivity].
  destruct (_ && _); [|reflexivity].
  now rewrite aset_aset.
Qed.

Lemma corner_colors_foldl (clrs0 : list FCLR) :
  corner_colors nd fh wl fmax wclr wtrn lscp vc clrs0 =
  Ret (foldl (fun cl p => aset cl (corner_slot nd (fst p) (snd p))
                            (corner_paint (fst p) (snd p)))
         clrs0 (cells (nd + 1) (nd + 1))).
Proof.
  rewrite <- nested_foldl. unfold corner_colors.
  apply for_up_ret. intros y s _. apply for_up_ret. intros x s' _.
  cbn [mbind outcome_bind obind fst snd]. apply corner_color_paint.
Qed.

Lemma corner_slot_range (x y : Z) :
  0 <= x <= nd -> 0 <= y <= nd -> 0 <= corner_slot nd x y < (nd + 1) * (nd + nd + 2).
Proof. intros Hx Hy. rewrite corner_slot_eq. apply slot_bounds; lia. Qed.

Lemma center_slot_range (x y : Z) :
  0 <= x <= nd -> 0 <= y <= nd -> 0 <= center_slot nd x y < (nd + 1) * (nd + nd + 2).
Proof. intros Hx Hy. rewrite center_slot_eq. apply slot_bounds; lia. Qed.

(** The slots of the second colour loop, the padding included, are
    no corner slots, and no two of them are the same. *)
Lemma corner_padded_slot (x y x' y' : Z) :
  0 <= x <= nd -> 0 <= x' <= nd -> corner_slot nd x y <> center_slot nd x' y'.
Proof.
  intros Hx Hx'. rewrite corner_slot_eq, center_slot_eq. intros E.
  destruct (cell_index_inj (2 * (nd + 1)) x y (x' + (nd + 1)) y'); lia.
Qed.

Lemma padded_slot_inj (x y x' y' : Z) :
  0 <= x <= nd -> 0 <= x' <= nd ->
  center_slot nd x y = center_slot nd x' y' -> x = x' /\ y = y'.
Proof.
  intros Hx Hx'. rewrite !center_slot_eq. intros E.
  destruct (cell_index_inj (2 * (nd + 1)) (x + (nd + 1)) y (x' + (nd + 1)) y'); lia.
Qed.

(** What the first colour loop leaves in the array. *)
Lemma corner_colors_spec (clrs0 : list FCLR) :
  Z.of_nat (length clrs0) = (nd + 1) * (nd + nd + 2) ->
  exists cl, corner_colors nd fh wl fmax wclr wtrn lscp vc clrs0 = Ret cl /\
    length cl = length clrs0 /\
    forall x y, 0 <= x <= nd -> 0 <= y <= nd ->
      aget 0 cl (corner_slot nd x y) = corner_paint x y.
Proof.
  intros Hlen. rewrite corner_colors_foldl. eexists. split; [reflexivity|].
  destruct (foldl_aset_spec 0 (fun p => corner_slot nd (fst p) (snd p))
              (fun p _ => corner_paint (fst p) (snd p))
              (fun p => corner_paint (fst p) (snd p))
              (fun _ => False) (cells (nd + 1) (nd + 1)) clrs0) as (Hl & Hd & _).
  - apply NoDup_fmap_2_strong; [|apply NoDup_cells].
    intros [x1 y1] [x2 y2] H1 H2 E. apply elem_of_cells in H1, H2. cbn [fst snd] in E.
    destruct (corner_slot_inj nd x1 y1 x2 y2); [lia|lia|exact E|]. now subst.
  - intros [x1 y1] H1. apply elem_of_cells in H1. cbn [fst snd].
    rewrite Hlen. apply corner_slot_range; lia.
  - intros k _ [].
  - reflexivity.
  - split; [exact Hl|]. intros x y Hx Hy. apply (Hd (x, y)). apply elem_of_cells. lia.
Qed.

(** The colour the second colour loop computes for the cell [(x, y)]
    from the colours [cl]. *)
Definition center_paint (cl : list FCLR) (x y : Z) : FCLR :=
  let dpos := Z.shiftl (y * (nd + 1)) 1 in
  let xl := x in
  let xh := if x <? nd then x + 1 else 0 in
  let yl := dpos in
  let yh := if y <? nd then dpos + Z.shiftl (nd + 1) 1 else 0 in
  let c00 := aget 0 cl (xl + yl) in
  let c01 := aget 0 cl (xl + yh) in
  let c10 := aget 0 cl (xh + yl) in
  let c11 := aget 0 cl (xh + yh) in
  let c := set_R 0 (Z.shiftr (FCLR_R c00 + FCLR_R c01 + FCLR_R c10 + FCLR_R c11) 2) in
  let c := set_G c (Z.shiftr (FCLR_G c00 + FCLR_G c01 + FCLR_G c10 + FCLR_G c11) 2) in
  let c := set_B c (Z.shiftr (FCLR_B c00 + FCLR_B c01 + FCLR_B c10 + FCLR_B c11) 2) in
  let c := set_A c 255 in
  if feqb (vz (aget FVEC_zero vc (dpos + x + (nd + 1)))) wl then
    let i := ((if FCLR_A c00 =? wtrn then 0 else 1) +
              (if FCLR_A c01 =? wtrn then 0 else 1) +
              (if FCLR_A c10 =? wtrn then 0 else 1) +
              (if FCLR_A c11 =? wtrn then 0 else 1)) * (255 - wtrn) in
    let c := if i =? 0 then wclr else c in
    set_A c (wtrn + Z.shiftr i 2)
  else c.

Lemma center_color_paint (y x : Z) (cl : list FCLR) :
  center_color nd wl wclr wtrn vc y x cl =
  aset cl (center_slot nd x y) (center_paint cl x y).
Proof.
  unfold center_color, center_paint, center_slot. cbv zeta.
  rewrite set_all_zero. reflexivity.
Qed.

Lemma center_colors_foldl (clrs0 : list FCLR) :
  center_colors nd wl wclr wtrn vc clrs0 =
  foldl (fun cl p => aset cl (center_slot nd (fst p) (snd p)) (center_paint cl (fst p) (snd p)))
    clrs0 (cells (nd + 1) (nd + 1)).
Proof.
  rewrite <- nested_foldl. unfold center_colors.
  apply for_up_same. intros y cl. apply for_up_same. intros x cl'.
  cbn [fst snd]. apply center_color_paint.
Qed.

(** The second loop reads corner vertices only. *)
Lemma center_paint_same (cl cl' : list FCLR) (x y : Z) :
  0 <= x <= nd -> 0 <= y <= nd ->
  (forall x' y', 0 <= x' <= nd -> 0 <= y' <= nd ->
     aget 0 cl (corner_slot nd x' y') = aget 0 cl' (corner_slot nd x' y')) ->
  center_paint cl x y = center_paint cl' x y.
Proof.
  intros Hx Hy Hsame. unfold center_paint.
  set (dpos := Z.shiftl (y * (nd + 1)) 1).
  set (xh := if x <? nd then x + 1 else 0).
  set (yh := if y <? nd then dpos + Z.shiftl (nd + 1) 1 else 0).
  assert (Hxh : 0 <= xh <= nd) by (unfold xh; destruct (Z.ltb_spec x nd); lia).
  assert (Hyh : exists y', 0 <= y' <= nd /\ yh = Z.shiftl (y' * (nd + 1)) 1).
  { unfold yh. destruct (Z.ltb_spec y nd).
    - exists (y + 1). split; [lia|]. unfold dpos.
      rewrite !Z.shiftl_mul_pow2 by lia. lia.
    - exists 0. split; [lia|reflexivity]. }
  destruct Hyh as (y' & Hy' & Eyh).
  assert (E00 : aget 0 cl (x + dpos) = aget 0 cl' (x + dpos)).
  { replace (x + dpos) with (corner_slot nd x y) by (unfold corner_slot, dpos; lia).
    now apply Hsame. }
  assert (E01 : aget 0 cl (x + yh) = aget 0 cl' (x + yh)).
  { replace (x + yh) with (corner_slot nd x y') by (unfold corner_slot; lia).
    now apply Hsame. }
  assert (E10 : aget 0 cl (xh + dpos) = aget 0 cl' (xh + dpos)).
  { replace (xh + dpos) with (corner_slot nd xh y) by (unfold corner_slot, dpos; lia).
    now apply Hsame. }
  assert (E11 : aget 0 cl (xh + yh) = aget 0 cl' (xh + yh)).
  { replace (xh + yh) with (corner_slot nd xh y') by (unfold corner_slot; lia).
    now apply Hsame. }
  cbv zeta. rewrite E00, E01, E10, E11. reflexivity.
Qed.

(** What the second colour loop leaves in the array: the colours of
    the centre vertices, and those of the corner vertices as they
    were. *)
Lemma center_colors_spec (cl : list FCLR) :
  Z.of_nat (length cl) = (nd + 1) * (nd + nd + 2) ->
  (forall x y, 0 <= x <= nd -> 0 <= y <= nd ->
     aget 0 (center_colors nd wl wclr wtrn vc cl) (center_slot nd x y) = center_paint cl x y) /\
  (forall x y, 0 <= x <= nd -> 0 <= y <= nd ->
     aget 0 (center_colors nd wl wclr wtrn vc cl) (corner_slot nd x y) =
     aget 0 cl (corner_slot nd x y)).
Proof.
  intros Hlen. rewrite center_colors_foldl.
  destruct (foldl_aset_spec 0 (fun p => center_slot nd (fst p) (snd p))
              (fun p l => center_paint l (fst p) (snd p))
              (fun p => center_paint cl (fst p) (snd p))
              (fun j => exists x y, 0 <= x <= nd /\ 0 <= y <= nd /\ j = corner_slot nd x y)
              (cells (nd + 1) (nd + 1)) cl) as (_ & Hd & Hr).
  - apply NoDup_fmap_2_strong; [|apply NoDup_cells].
    intros [x1 y1] [x2 y2] H1 H2 E. apply elem_of_cells in H1, H2. cbn [fst snd] in E.
    destruct (padded_slot_inj x1 y1 x2 y2); [lia|lia|exact E|]. now subst.
  - intros [x1 y1] H1. apply elem_of_cells in H1. cbn [fst snd].
    rewrite Hlen. apply center_slot_range; lia.
  - intros [x1 y1] H1 (x & y & Hx & Hy & E). apply elem_of_cells in H1. cbn [fst snd] in E.
    symmetry in E. revert E. apply corner_padded_slot; lia.
  - intros [x1 y1] l H1 _ Hsame. apply elem_of_cells in H1. cbn [fst snd].
    apply center_paint_same; [lia|lia|].
    intros x' y' Hx' Hy'. apply Hsame. now exists x', y'.
  - split.
    + intros x y Hx Hy. apply (Hd (x, y)). apply elem_of_cells. lia.
    + intros x y Hx Hy. apply Hr. intros H. apply list_elem_of_fmap in H.
      destruct H as ([x1 y1] & E & H1). apply elem_of_cells in H1. cbn [fst snd] in E.
      revert E. apply corner_padded_slot; lia.
Qed.

End ColorSweeps.

Section LandscapeColors.
Context {FO : FloatOps} {RO : RandOps}.

(** The first walk along the table ends on the end mark. *)
Lemma band_total_app (bands : list FHEI) (term : FHEI) (rest : list FHEI) :
  Forall positive_band bands -> end_mark term ->
  forall i f, exists f',
    band_total (bands ++ term :: rest) i f = Ret (f', i + Z.of_nat (length bands)).
Proof.
  intros Hb [Ht _]. induction bands as [|b bands IH]; intros i f.
  - exists f. cbn. rewrite Ht. f_equal. f_equal. lia.
  - apply Forall_cons in Hb. destruct Hb as [[Hp _] Hb]. cbn [app band_total]. rewrite Hp.
    destruct (IH Hb (i + 1) (fadd f (fhei b))) as (f' & ->). exists f'.
    f_equal. f_equal. cbn [length]. lia.
Qed.

(** The colours of a landscape LandscapeVBO returns (size [N = 2^k]),
    for a table of bands in front of an end mark. A corner vertex has
    the colour of a band, opaque, or the water colour of the end mark.
    The centre vertex of a cell that lies at the water level between
    four corners of the water's alpha has the water colour; every other
    centre vertex has, channel by channel, the mean of the colours of
    the four corners of its cell, opaque above the water and the less
    transparent at the water level the more of its corners are land. *)
Theorem LandscapeVBO_colors (e : Env) (k flgs0 seed0 : Z) (grid0 fhei0 wlvl0 : FLOAT)
    (bands : list FHEI) (term : FHEI) (rest : list FHEI) (m : FVBO) :
  let N := 2 ^ k in
  let wtrn := FCLR_A (fclr term) in
  let corner := fun x y => aget 0 (clrs m) (corner_slot N x y) in
  let center := fun x y => aget 0 (clrs m) (center_slot N x y) in
  let mean := fun (ch : FCLR -> Z) x y =>
    Z.shiftr (ch (corner x y) + ch (corner x (y + 1)) +
              ch (corner (x + 1) y) + ch (corner (x + 1) (y + 1))) 2 in
  let land_corners := fun x y =>
    (if FCLR_A (corner x y) =? wtrn then 0 else 1) +
    (if FCLR_A (corner x (y + 1)) =? wtrn then 0 else 1) +
    (if FCLR_A (corner (x + 1) y) =? wtrn then 0 else 1) +
    (if FCLR_A (corner (x + 1) (y + 1)) =? wtrn then 0 else 1) in
  let at_water := fun x y =>
    feqb (vz (aget FVEC_zero (vect m) (center_slot N x y))) (wlvl m) in
  Forall positive_band bands -> bands <> [] -> end_mark term ->
  1 <= k <= 14 ->
  LandscapeVBO e k flgs0 seed0 grid0 fhei0 wlvl0 (Some (bands ++ term :: rest)) =
    Ret (Some m) ->
  (forall x y, 0 <= x <= N -> 0 <= y <= N ->
     corner x y = water_color term \/
     exists b, b ∈ bands /\ corner x y = Z.lor (fclr b) 0xFF000000) /\
  (forall x y, 0 <= x < N -> 0 <= y < N ->
     let i := land_corners x y * (255 - wtrn) in
     if at_water x y && (i =? 0)
     then center x y = water_color term
     else FCLR_R (center x y) = mean FCLR_R x y /\
          FCLR_G (center x y) = mean FCLR_G x y /\
          FCLR_B (center x y) = mean FCLR_B x y /\
          FCLR_A (center x y) = if at_water x y then wtrn + Z.shiftr i 2 else 255).
Proof.
  intros N wtrn corner center mean land_corners at_water Hb Hne Ht Hk Hrun.
  destruct (LandscapeVBO_Some e k flgs0 seed0 grid0 fhei0 wlvl0 _ m Hrun)
    as (tbl & retn & farr & g & land & g' & c & [= <-] & Hn & Hg & Er & Eh & El & Eo & ->).
  assert (Hlo : 2 ^ 1 <= 2 ^ k) by (apply Z.pow_le_mono_r; lia).
  assert (Hhi : 2 ^ k <= 2 ^ 14) by (apply Z.pow_le_mono_r; lia).
  change (2 ^ 1) with 2 in Hlo. change (2 ^ 14) with 16384 in Hhi.
  rewrite (uint_small (2 ^ k)) in Er, El by lia. fold N in Er, El, Hlo, Hhi.
  rewrite uint_small in Er by nia.
  unfold MakeVBO in Er. destruct ((N + 1) * (N + N + 2) =? 0); [discriminate|].
  injection Er as <-. cbn [vect clrs norm texc indx] in El.
  destruct (landscape_mesh_fields _ _ _ _ _ _ _ _ _ _ _ _ _ _ El)
    as (_ & _ & _ & _ & _ & Hw & _).
  destruct (landscape_mesh_arrays _ _ _ _ _ _ _ _ _ _ _ _ _ _ El) as (Hv & Hc & _).
  cbn [vect clrs] in Hv, Hc.
  set (wl := if fltb (fmul (flit (-1) (-1)) (fabs fhei0)) wlvl0 then wlvl0
             else fmul (flit (-1) (-1)) (fabs fhei0)) in *.
  set (vc := center_vertices N grid0 _) in *.
  unfold landscape_colors in Hc.
  destruct (band_total_app bands term rest Hb Ht 0 (of_Z 0)) as (fmax & Etot).
  rewrite Etot in Hc. cbn [mbind outcome_bind obind] in Hc.
  destruct (band_at_app bands term rest (0 + Z.of_nat (length bands)))
    as [(Hlt & _)|(_ & Eat)]; [lia|lia|].
  rewrite Eat in Hc. cbn [mbind outcome_bind obind] in Hc. fold wtrn in Hc.
  set (wclr := Z.land (fclr term) 0xFFFFFF) in *.
  set (Band := fun c : FCLR => exists b, b ∈ bands /\ c = Z.lor (fclr b) 0xFF000000).
  assert (Hret : forall fmin, exists c,
            band_color (bands ++ term :: rest) fmin = Ret c /\ Band c).
  { intros fmin. destruct (band_color_band bands term rest fmin Hb Ht Hne) as (b & Hin & ->).
    eexists. split; [reflexivity|]. now exists b. }
  assert (Hlen0 : Z.of_nat (length (calloc (0 : FCLR) ((N + 1) * (N + N + 2)))) =
                  (N + 1) * (N + N + 2)) by (rewrite length_calloc; nia).
  destruct (corner_colors_spec N (fabs fhei0) wl fmax wclr wtrn (bands ++ term :: rest) vc
              Band ltac:(lia) Hret _ Hlen0) as (cl1 & Ecl & Hl1 & Hcorner).
  rewrite Ecl in Hc. cbn [mbind outcome_bind obind] in Hc. injection Hc as Hc.
  assert (Hlen1 : Z.of_nat (length cl1) = (N + 1) * (N + N + 2)) by (now rewrite Hl1).
  destruct (center_colors_spec N wl wclr wtrn vc ltac:(lia) cl1 Hlen1) as [Hce Hco].
  rewrite Hc in Hce, Hco.
  assert (Hfin : forall x y, 0 <= x <= N -> 0 <= y <= N ->
            corner x y = aget 0 cl1 (corner_slot N x y)).
  { intros x y Hx Hy. unfold corner, set_next. cbn [clrs]. now apply Hco. }
  split.
  - intros x y Hx Hy. rewrite (Hfin x y Hx Hy), Hcorner by assumption.
    destruct (corner_paint_cases N (fabs fhei0) wl fmax wclr wtrn (bands ++ term :: rest) vc
                Band Hret x y) as [E|E]; [left; exact E|right; exact E].
  - intros x y Hx Hy i.
    assert (Ecen : center x y = center_paint N wl wclr wtrn vc cl1 x y).
    { unfold center, set_next. cbn [clrs]. apply Hce; lia. }
    assert (Eaw : at_water x y = feqb (vz (aget FVEC_zero vc (center_slot N x y))) wl).
    { unfold at_water, set_next. cbn [vect wlvl]. now rewrite Hv, Hw. }
    rewrite Ecen. unfold center_paint.
    replace (x <? N) with true by (symmetry; apply Z.ltb_lt; lia).
    replace (y <? N) with true by (symmetry; apply Z.ltb_lt; lia).
    replace (x + Z.shiftl (y * (N + 1)) 1) with (corner_slot N x y)
      by (unfold corner_slot; lia).
    replace (x + (Z.shiftl (y * (N + 1)) 1 + Z.shiftl (N + 1) 1))
      with (corner_slot N x (y + 1))
      by (unfold corner_slot; rewrite !Z.shiftl_mul_pow2 by lia; lia).
    replace (x + 1 + Z.shiftl (y * (N + 1)) 1) with (corner_slot N (x + 1) y)
      by (unfold corner_slot; lia).
    replace (x + 1 + (Z.shiftl (y * (N + 1)) 1 + Z.shiftl (N + 1) 1))
      with (corner_slot N (x + 1) (y + 1))
      by (unfold corner_slot; rewrite !Z.shiftl_mul_pow2 by lia; lia).
    change (Z.shiftl (y * (N + 1)) 1 + x + (N + 1)) with (center_slot N x y).
    rewrite <- Eaw.
    rewrite <- !Hfin by lia.
    fold (land_corners x y). fold i. cbv zeta.
    pose proof (channel_range (corner x y)) as (R1 & G1 & B1 & A1).
    pose proof (channel_range (corner x (y + 1))) as (R2 & G2 & B2 & A2).
    pose proof (channel_range (corner (x + 1) y)) as (R3 & G3 & B3 & A3).
    pose proof (channel_range (corner (x + 1) (y + 1))) as (R4 & G4 & B4 & A4).
    pose proof (channel_range (fclr term)) as (_ & _ & _ & Hwt). fold wtrn in Hwt.
    assert (Hmean : forall ch, 0 <= ch (corner x y) <= 255 ->
              0 <= ch (corner x (y + 1)) <= 255 -> 0 <= ch (corner (x + 1) y) <= 255 ->
              0 <= ch (corner (x + 1) (y + 1)) <= 255 ->
              Z.land (mean ch x y) 0xFF = mean ch x y).
    { intros ch H1 H2 H3 H4. apply land_byte. unfold mean.
      rewrite Z.shiftr_div_pow2 by lia. change (2 ^ 2) with 4.
      split; [apply Z.div_pos; lia|]. apply Z.div_le_upper_bound; lia. }
    assert (Hi : 0 <= i <= 4 * (255 - wtrn)).
    { unfold i, land_corners.
      destruct (_ =? wtrn), (_ =? wtrn), (_ =? wtrn), (_ =? wtrn); lia. }
    assert (Hsh : 0 <= Z.shiftr i 2 <= 255 - wtrn).
    { rewrite Z.shiftr_div_pow2 by lia. change (2 ^ 2) with 4.
      split; [apply Z.div_pos; lia|]. apply Z.div_le_upper_bound; lia. }
    destruct (at_water x y); cbn [andb].
    + destruct (Z.eqb_spec i 0) as [Ei|Ei].
      * rewrite Ei. change (Z.shiftr 0 2) with 0. rewrite Z.add_0_r.
        unfold wclr. rewrite set_A_water by exact Hwt. reflexivity.
      * rewrite set_A_set_A, set_all_R, set_all_G, set_all_B, set_all_A.
        fold (mean FCLR_R x y). fold (mean FCLR_G x y). fold (mean FCLR_B x y).
        rewrite !Hmean by assumption. rewrite land_byte by lia. repeat split.
    + rewrite set_all_R, set_all_G, set_all_B, set_all_A.
      fold (mean FCLR_R x y). fold (mean FCLR_G x y). fold (mean FCLR_B x y).
      rewrite !Hmean by assumption. repeat split.
Qed.

End LandscapeColors.

(** The colours of the scenario: one band and the end mark. *)
Lemma LandscapeVBO_colors_witness :
  let N := 2 ^ 2 in
  let term := mkFHEI (flit 0 0) 0x80AC630D in
  let wtrn := FCLR_A (fclr term) in
  let corner := fun x y => aget 0 (clrs scenario_mesh) (corner_slot N x y) in
  let center := fun x y => aget 0 (clrs scenario_mesh) (center_slot N x y) in
  let mean := fun (ch : FCLR -> Z) x y =>
    Z.shiftr (ch (corner x y) + ch (corner x (y + 1)) +
              ch (corner (x + 1) y) + ch (corner (x + 1) (y + 1))) 2 in
  let land_corners := fun x y =>
    (if FCLR_A (corner x y) =? wtrn then 0 else 1) +
    (if FCLR_A (corner x (y + 1)) =? wtrn then 0 else 1) +
    (if FCLR_A (corner (x + 1) y) =? wtrn then 0 else 1) +
    (if FCLR_A (corner (x + 1) (y + 1)) =? wtrn then 0 else 1) in
  let at_water := fun x y =>
    feqb (vz (aget FVEC_zero (vect scenario_mesh) (center_slot N x y))) (wlvl scenario_mesh) in
  (forall x y, 0 <= x <= N -> 0 <= y <= N ->
     corner x y = water_color term \/
     exists b, b ∈ [mkFHEI (flit 1 0) 0xFF30A15D] /\ corner x y = Z.lor (fclr b) 0xFF000000) /\
  (forall x y, 0 <= x < N -> 0 <= y < N ->
     let i := land_corners x y * (255 - wtrn) in
     if at_water x y && (i =? 0)
     then center x y = water_color term
     else FCLR_R (center x y) = mean FCLR_R x y /\
          FCLR_G (center x y) = mean FCLR_G x y /\
          FCLR_B (center x y) = mean FCLR_B x y /\
          FCLR_A (center x y) = if at_water x y then wtrn + Z.shiftr i 2 else 255).
Proof.
  apply (@LandscapeVBO_colors binary32 msvcrt (env_of f0 f0) 2 63 1 (flit 16 0) (flit 600 0)
           (flit (-150) 0) [mkFHEI (flit 1 0) 0xFF30A15D] (mkFHEI (flit 0 0) 0x80AC630D) []
           scenario_mesh).
  - repeat constructor.
  - discriminate.
  - split; reflexivity.
  - lia.
  - exact scenario_mesh_eq.
Defined.

(** ** A landscape under water *)

(** The band table of one band and the water, alpha 128. *)
Definition water_bands : list (@FHEI binary32) :=
  [mkFHEI (flit 8 0) 0xFF30A15D; mkFHEI (flit 0 0) 0x80AC630D].

(** [LandscapeVBO(2, 63, 1, 16.0, 600.0, 300.0, water_bands, NULL)],
    the build of size 4 whose water level is the top of the height
    range, up to its call of ObjectVBO: what LandscapeVBO has built
    then. *)
Definition water_stage : outcome (@FVBO binary32 * rng) :=
  let e := env_of f0 f0 in
  let nd := uint (2 ^ 2) in
  let fh := fabs (flit 600 0) in
  let wl := if fltb (fmul (flit (-1) (-1)) fh) (flit 300 0) then flit 300 0
            else fmul (flit (-1) (-1)) fh in
  match MakeVBO (uint ((nd + 1) * (nd + nd + 2))) with
  | None => Crash
  | Some retn =>
      match landscape_heightmap e nd 1 with
      | Crash => Crash
      | Ret (None, _) => Crash
      | Ret (Some farr, g) =>
          landscape_mesh e nd 63 1 (flit 16 0) fh wl water_bands retn
            (index_pass nd (indx retn)) farr g
      end
  end.

(** The vertex in the slot [j] lies at the water level and has the
    colour [W]. *)
Definition water_vertex (land : @FVBO binary32) (W : FCLR) (j : Z) : bool :=
  feqb (vz (aget FVEC_zero (vect land) j)) (wlvl land) && (aget 0 (clrs land) j =? W).

Definition all_water (land : @FVBO binary32) (W : FCLR) : bool :=
  forallb (fun p => water_vertex land W (corner_slot 4 (fst p) (snd p))) (cells 5 5) &&
  forallb (fun p => water_vertex land W (center_slot 4 (fst p) (snd p))) (cells 4 4).

(** C6: the build the claim describes returns no mesh. A landscape
    that LandscapeVBO returns has a centre vertex above its water level,
    whatever the arguments. With the band table [{8, A}, {0, Water}],
    the alpha of [Water] being 128, and the water level at the top of
    the height range, every corner and every centre vertex lies at the
    water level and the colour loops give each of them the colour
    [Water], as the claim has it; then ObjectVBO finds no vertex above
    the water and writes through the NULL that [MakeVBO(0)] returns. *)
Theorem water_build_crashes :
  (forall (FO : FloatOps) (RO : RandOps) (e : Env) (ndim0 flgs0 seed0 : Z)
          (grid0 fhei0 wlvl0 : FLOAT) (lscp : option (list FHEI)) (m : FVBO),
     LandscapeVBO e ndim0 flgs0 seed0 grid0 fhei0 wlvl0 lscp = Ret (Some m) ->
     exists x y, 0 <= x < ndim m /\ 0 <= y < ndim m /\
       fltb (wlvl m) (vz (aget FVEC_zero (vect m) (center_slot (ndim m) x y))) = true) /\
  match water_stage with
  | Ret (land, g) =>
      (forall x y, 0 <= x <= 4 -> 0 <= y <= 4 ->
         feqb (vz (aget FVEC_zero (vect land) (corner_slot 4 x y))) (wlvl land) = true /\
         aget 0 (clrs land) (corner_slot 4 x y) = 0x80AC630D) /\
      (forall x y, 0 <= x < 4 -> 0 <= y < 4 ->
         feqb (vz (aget FVEC_zero (vect land) (center_slot 4 x y))) (wlvl land) = true /\
         aget 0 (clrs land) (center_slot 4 x y) = 0x80AC630D) /\
      ObjectVBO (Some land) DEF_NOBJ g = Crash
  | Crash => False
  end /\
  LandscapeVBO (env_of f0 f0) 2 63 1 (flit 16 0) (flit 600 0) (flit 300 0)
    (Some water_bands) = Crash.
Proof.
  split; [|split].
  - intros FO RO e ndim0 flgs0 seed0 grid0 fhei0 wlvl0 lscp m Hrun.
    destruct (LandscapeVBO_Some e ndim0 flgs0 seed0 grid0 fhei0 wlvl0 lscp m Hrun)
      as (tbl & retn & farr & g & land & g' & c & -> & Hn & Hg & Er & Eh & El & Eo & ->).
    destruct (ObjectVBO_Some land DEF_NOBJ g' (Some c) Eo)
      as (c' & [= <-] & _ & _ & _ & Hcd & Hnz); [discriminate|].
    destruct (select_spots_drawn land DEF_NOBJ g') as [H0 _]; [discriminate|].
    rewrite H0, count_spots_candidates in Hcd.
    destruct (candidates land) as [|a rest] eqn:Ec.
    { exfalso. apply Hnz. rewrite Hcd. reflexivity. }
    assert (Ha : a ∈ candidates land) by (rewrite Ec; apply list_elem_of_here).
    apply elem_of_candidates in Ha. destruct Ha as [(x & y & Hx & Hy & ->) Hab].
    exists x, y. unfold set_next. cbn [ndim wlvl vect]. repeat split; try lia. exact Hab.
  - assert (E : match water_stage with
                | Ret (land, g) =>
                    all_water land 0x80AC630D = true /\
                    crashes (ObjectVBO (Some land) DEF_NOBJ g)
                | Crash => False
                end) by (vm_compute; split; [reflexivity|exact I]).
    destruct water_stage as [[land g]|]; [|contradiction].
    destruct E as [Hall Hcr]. unfold all_water in Hall.
    apply andb_true_iff in Hall. destruct Hall as [Hco Hce].
    rewrite forallb_forall in Hco, Hce.
    assert (Hv : forall j, water_vertex land 0x80AC630D j = true ->
              feqb (vz (aget FVEC_zero (vect land) j)) (wlvl land) = true /\
              aget 0 (clrs land) j = 0x80AC630D).
    { intros j H. unfold water_vertex in H. apply andb_true_iff in H.
      destruct H as [H1 H2]. split; [exact H1|now apply Z.eqb_eq]. }
    split; [|split].
    + intros x y Hx Hy. apply Hv. apply (Hco (x, y)).
      apply list_elem_of_In, elem_of_cells. lia.
    + intros x y Hx Hy. apply Hv. apply (Hce (x, y)).
      apply list_elem_of_In, elem_of_cells. lia.
    + now apply crashes_eq.
  - apply crashes_eq. vm_compute. exact I.
Qed.

(** The scenario returns a landscape: it has a centre vertex above the
    water. *)
Lemma water_build_crashes_witness :
  exists x y, 0 <= x < ndim scenario_mesh /\ 0 <= y < ndim scenario_mesh /\
    fltb (wlvl scenario_mesh)
      (vz (aget FVEC_zero (vect scenario_mesh) (center_slot (ndim scenario_mesh) x y))) = true.
Proof.
  apply (proj1 water_build_crashes binary32 msvcrt (env_of f0 f0) 2 63 1 (flit 16 0)
           (flit 600 0) (flit (-150) 0) (Some scenario_bands) scenario_mesh).
  exact scenario_mesh_eq.
Defined.

(** ** What is drawn of a landscape *)

Section Drawn.
Context {FO : FloatOps} {RO : RandOps}.

(** What DrawVBO draws of a landscape LandscapeVBO returns: the
    [12 * N^2] indices of the landscape and, with [USE_OBJS] set, the 36
    indices of each prop; there are as many props as centre vertices
    above the water, and 50 at most. *)
Theorem LandscapeVBO_drawn (e : Env) (k flgs0 seed0 : Z) (grid0 fhei0 wlvl0 : FLOAT)
    (lscp : option (list FHEI)) (m : FVBO) :
  1 <= k <= 14 ->
  LandscapeVBO e k flgs0 seed0 grid0 fhei0 wlvl0 lscp = Ret (Some m) ->
  let props := Z.min (count_spots m) DEF_NOBJ in
  1 <= props /\
  element_counts (fst (DrawVBO (Some m))) =
  if has_flag (flgs m) USE_OBJS then [12 * (2 ^ k) ^ 2; 36 * props] else [12 * (2 ^ k) ^ 2].
Proof.
  intros Hk Hrun props.
  pose proof (LandscapeVBO_cases e k flgs0 seed0 grid0 fhei0 wlvl0 lscp) as Hc.
  rewrite Hrun in Hc. destruct Hc as (_ & _ & _ & Hnd & _ & Hpol & _).
  assert (Hlo : 2 ^ 1 <= 2 ^ k) by (apply Z.pow_le_mono_r; lia).
  assert (Hhi : 2 ^ k <= 2 ^ 14) by (apply Z.pow_le_mono_r; lia).
  change (2 ^ 1) with 2 in Hlo. change (2 ^ 14) with 16384 in Hhi.
  rewrite uint_small in Hnd by lia. rewrite Hnd in Hpol.
  rewrite uint_small in Hpol by nia.
  destruct (LandscapeVBO_Some e k flgs0 seed0 grid0 fhei0 wlvl0 lscp m Hrun)
    as (tbl & retn & farr & g & land & g' & c & -> & Hn & Hg & Er & Eh & El & Eo & ->).
  destruct (landscape_mesh_fields _ _ _ _ _ _ _ _ _ _ _ _ _ _ El)
    as (_ & _ & _ & _ & _ & _ & _ & _ & Hnx).
  destruct (ObjectVBO_Some land DEF_NOBJ g' (Some c) Eo)
    as (c' & [= <-] & Hcn & _ & Hcp & Hcd & Hnz); [discriminate|].
  destruct (select_spots_drawn land DEF_NOBJ g') as [H0 _]; [discriminate|].
  rewrite H0 in Hcp, Hcd.
  change (count_spots (set_next land (Some c))) with (count_spots land) in props.
  fold props in Hcp, Hcd.
  assert (Hprops : props <= 50) by (unfold props, DEF_NOBJ; lia).
  assert (Hcount : 0 <= count_spots land).
  { rewrite count_spots_candidates. lia. }
  assert (Hpos : 1 <= props).
  { destruct (Z.eq_dec props 0) as [E0|Hne]; [|unfold props, DEF_NOBJ in *; lia].
    rewrite Hcd, E0 in Hnz. now destruct Hnz. }
  split; [exact Hpos|].
  rewrite (DrawVBO_two (set_next land (Some c)) c) by (reflexivity || exact Hcn).
  change (flgs (set_next land (Some c))) with (flgs land).
  rewrite Hpol, Hcp. rewrite uint_small by (change (2 ^ 32) with 4294967296; lia).
  replace (3 * 4 * 2 ^ k * 2 ^ k) with (12 * (2 ^ k) ^ 2) by lia.
  replace (3 * 3 * 4 * props) with (36 * props) by lia. reflexivity.
Qed.

End Drawn.

(** What is drawn of the scenario. *)
Lemma LandscapeVBO_drawn_witness :
  let props := Z.min (count_spots scenario_mesh) DEF_NOBJ in
  1 <= props /\
  element_counts (fst (DrawVBO (Some scenario_mesh))) =
  if has_flag (flgs scenario_mesh) USE_OBJS then [12 * (2 ^ 2) ^ 2; 36 * props]
  else [12 * (2 ^ 2) ^ 2].
Proof.
  apply (@LandscapeVBO_drawn binary32 msvcrt (env_of f0 f0) 2 63 1 (flit 16 0) (flit 600 0)
           (flit (-150) 0) (Some scenario_bands) scenario_mesh);
    [lia|exact scenario_mesh_eq].
Defined.

(** ** The mesh of the props *)

Lemma foldl_project {S T K} (pr : S -> T) (F : S -> K -> S) (G : T -> K -> T)
    (ks : list K) (s : S) :
  (forall s k, pr (F s k) = G (pr s) k) -> pr (foldl F s ks) = foldl G (pr s) ks.
Proof.
  intros H. revert s. induction ks as [|k ks IH]; intros s; [reflexivity|].
  cbn [foldl]. now rewrite IH, H.
Qed.

(** The four triangles of a tier: a fan around the vertex [h]. *)
Definition fan (h : Z) : FTRI :=
  mkFTRI (h + 0) (h + 4) (h + 1) (h + 0) (h + 1) (h + 2)
         (h + 0) (h + 2) (h + 3) (h + 0) (h + 3) (h + 4).

(** The tiers [(x, y)] in the order ObjectVBO builds them. *)
Definition tiers (n : Z) : list (Z * Z) :=
  reverse (seqZ 0 n) ≫= fun x => (fun y => (x, y)) <$> seqZ 0 3.

Lemma elem_of_tiers (n x y : Z) : (x, y) ∈ tiers n <-> 0 <= x < n /\ 0 <= y < 3.
Proof.
  unfold tiers. rewrite list_elem_of_bind. split.
  - intros (x' & Hy & Hx). apply list_elem_of_fmap in Hy. destruct Hy as (y' & [= -> ->] & Hy).
    apply elem_of_reverse, elem_of_seqZ in Hx. apply elem_of_seqZ in Hy. lia.
  - intros [Hx Hy]. exists x. split.
    + apply list_elem_of_fmap. exists y. split; [reflexivity|apply elem_of_seqZ; lia].
    + apply elem_of_reverse, elem_of_seqZ. lia.
Qed.

Lemma NoDup_tiers (n : Z) : NoDup (tiers n).
Proof.
  unfold tiers. apply NoDup_bind; [| |rewrite reverse_Permutation; apply NoDup_seqZ].
  - intros x1 x2 p _ _ H1 H2. apply list_elem_of_fmap in H1, H2.
    destruct H1 as (y1 & -> & _), H2 as (y2 & [= -> _] & _). reflexivity.
  - intros x _. apply NoDup_fmap_2_strong; [|apply NoDup_seqZ].
    intros y1 y2 _ _ [= ->]. reflexivity.
Qed.

Section PropMesh.
Context {FO : FloatOps} {RO : RandOps}.

Definition arr_indx (arr : prop_arrays) : list FTRI := fst (fst (fst (fst arr))).
Definition arr_clrs (arr : prop_arrays) : list FCLR := snd (fst arr).

(** The loop of ObjectVBO over the props, as a fold over the tiers. *)
Lemma props_foldl {T} (pr : prop_arrays -> T) (G : T -> Z * Z -> T) (vobj : FVBO)
    (fobj : list Z) (rgrid : FLOAT) (n : Z) (arr : prop_arrays) :
  (forall fbgn fend fv00 fv01 fv11 fv10 nrm x y arr,
     pr (prop_tier fbgn fend fv00 fv01 fv11 fv10 nrm x y arr) = G (pr arr) (x, y)) ->
  pr (for_down (n - 1) (-1) (prop_object vobj fobj rgrid) arr) = foldl G (pr arr) (tiers n).
Proof.
  intros H. rewrite for_down_foldl. replace (-1 + 1) with 0 by lia.
  replace (n - 1 - -1) with n by lia. unfold tiers.
  rewrite foldl_bind_list.
  apply foldl_project. intros s x. unfold prop_object.
  rewrite for_up_foldl, Z.sub_0_r, foldl_fmap_list.
  apply foldl_project. intros s' y. apply H.
Qed.

Lemma props_indx (vobj : FVBO) (fobj : list Z) (rgrid : FLOAT) (n : Z) (arr : prop_arrays) :
  0 <= n -> 3 * n <= Z.of_nat (length (arr_indx arr)) ->
  length (arr_indx (for_down (n - 1) (-1) (prop_object vobj fobj rgrid) arr)) =
    length (arr_indx arr) /\
  forall x y, 0 <= x < n -> 0 <= y < 3 ->
    aget FTRI_zero (arr_indx (for_down (n - 1) (-1) (prop_object vobj fobj rgrid) arr))
      (x * 3 + y) = fan ((x * 3 + y) * 5).
Proof.
  intros Hn Hlen.
  rewrite (props_foldl arr_indx
             (fun ix p => aset ix (fst p * 3 + snd p) (fan ((fst p * 3 + snd p) * 5))))
    by (intros; destruct arr0 as [[[[ix vc] nm] cl] tc]; reflexivity).
  destruct (foldl_aset_spec FTRI_zero (fun p : Z * Z => fst p * 3 + snd p)
              (fun p _ => fan ((fst p * 3 + snd p) * 5))
              (fun p => fan ((fst p * 3 + snd p) * 5))
              (fun _ => False) (tiers n) (arr_indx arr)) as (Hl & Hd & _).
  - apply NoDup_fmap_2_strong; [|apply NoDup_tiers].
    intros [x1 y1] [x2 y2] H1 H2 E. apply elem_of_tiers in H1, H2. cbn [fst snd] in E.
    assert (x1 = x2) by lia. assert (y1 = y2) by lia. now subst.
  - intros [x1 y1] H1. apply elem_of_tiers in H1. cbn [fst snd]. lia.
  - intros k _ [].
  - reflexivity.
  - split; [exact Hl|]. intros x y Hx Hy. apply (Hd (x, y)). apply elem_of_tiers. lia.
Qed.

Lemma props_clrs (vobj : FVBO) (fobj : list Z) (rgrid : FLOAT) (n : Z) (arr : prop_arrays) :
  0 <= n -> 15 * n <= Z.of_nat (length (arr_clrs arr)) ->
  forall j, 0 <= j < 15 * n ->
    aget 0 (arr_clrs (for_down (n - 1) (-1) (prop_object vobj fobj rgrid) arr)) j = 0xFF00B000.
Proof.
  intros Hn Hlen j Hj.
  rewrite (props_foldl arr_clrs
             (fun cl p => foldl (fun cl i => aset cl ((fst p * 3 + snd p) * 5 + i) 0xFF00B000)
                            cl (seqZ 0 5)))
    by (intros; destruct arr0 as [[[[ix vc] nm] cl] tc]; reflexivity).
  rewrite <- (foldl_same
                (fun cl p => foldl (fun cl q => aset cl ((fst (fst q) * 3 + snd (fst q)) * 5 + snd q)
                                                  0xFF00B000)
                               cl ((fun i => (p, i)) <$> seqZ 0 5)))
    by (intros cl p; now rewrite foldl_fmap_list).
  rewrite <- foldl_bind_list.
  set (ks := tiers n ≫= fun p => (fun i => (p, i)) <$> seqZ 0 5).
  assert (Hks : forall x y i, (x, y, i) ∈ ks <-> (0 <= x < n /\ 0 <= y < 3) /\ 0 <= i < 5).
  { intros x y i. unfold ks. rewrite list_elem_of_bind. split.
    - intros (p & Hi & Hp). apply list_elem_of_fmap in Hi. destruct Hi as (i' & [= <- <-] & Hi).
      apply elem_of_tiers in Hp. apply elem_of_seqZ in Hi. lia.
    - intros [Hp Hi]. exists (x, y). split; [|now apply elem_of_tiers].
      apply list_elem_of_fmap. exists i. split; [reflexivity|apply elem_of_seqZ; lia]. }
  destruct (foldl_aset_spec 0 (fun q : Z * Z * Z => (fst (fst q) * 3 + snd (fst q)) * 5 + snd q)
              (fun _ _ => 0xFF00B000) (fun _ => 0xFF00B000) (fun _ => False) ks (arr_clrs arr))
    as (_ & Hd & _).
  - apply NoDup_fmap_2_strong.
    + intros [[x1 y1] i1] [[x2 y2] i2] H1 H2 E. apply Hks in H1, H2. cbn [fst snd] in E.
      assert (i1 = i2) by lia. assert (y1 = y2) by lia. assert (x1 = x2) by lia. now subst.
    + unfold ks. apply NoDup_bind; [| |apply NoDup_tiers].
      * intros p1 p2 q _ _ H1 H2. apply list_elem_of_fmap in H1, H2.
        destruct H1 as (i1 & -> & _), H2 as (i2 & [= -> _] & _). reflexivity.
      * intros p _. apply NoDup_fmap_2_strong; [|apply NoDup_seqZ].
        intros i1 i2 _ _ [= ->]. reflexivity.
  - intros [[x1 y1] i1] H1. apply Hks in H1. cbn [fst snd]. lia.
  - intros k _ [].
  - reflexivity.
  - assert (H5 : 0 <= j mod 5 < 5) by (apply Z.mod_pos_bound; lia).
    assert (H3 : 0 <= (j / 5) mod 3 < 3) by (apply Z.mod_pos_bound; lia).
    assert (Ht : 0 <= j / 5 < 3 * n).
    { split; [apply Z.div_pos; lia|apply Z.div_lt_upper_bound; lia]. }
    assert (Hx : 0 <= j / 5 / 3 < n).
    { split; [apply Z.div_pos; lia|apply Z.div_lt_upper_bound; lia]. }
    pose proof (Z.div_mod j 5 ltac:(lia)) as E5.
    pose proof (Z.div_mod (j / 5) 3 ltac:(lia)) as E3.
    replace j with ((j / 5 / 3 * 3 + (j / 5) mod 3) * 5 + j mod 5) at 1 by lia.
    apply (Hd (j / 5 / 3, (j / 5) mod 3, j mod 5)). apply Hks. lia.
Qed.

(** The index and colour arrays of the mesh ObjectVBO returns. *)
Lemma ObjectVBO_arrays (vobj : FVBO) (inum : Z) (g : rng) (c : FVBO) :
  ObjectVBO (Some vobj) inum g = Ret (Some c) -> inum <> 0 ->
  let n := aget 0 (fst (select_spots vobj inum g)) 0 in
  exists fobj rgrid vc nm tc,
    let arr := for_down (n - 1) (-1) (prop_object vobj fobj rgrid)
                 (calloc FTRI_zero (1 + Z.shiftr (uint (3 * 5 * n)) 1), vc, nm,
                  calloc 0 (uint (3 * 5 * n)), tc) in
    indx c = arr_indx arr /\ clrs c = arr_clrs arr.
Proof.
  intros H Hn. unfold ObjectVBO in H.
  replace (inum =? 0) with false in H by (symmetry; apply Z.eqb_neq; lia).
  destruct (select_spots vobj inum g) as [fobj g1]. cbn [fst]. cbv zeta.
  unfold MakeVBO in H.
  destruct (uint (3 * 5 * aget 0 fobj 0) =? 0) eqn:Ez; [discriminate|].
  revert H. generalize (MakeFacetTex 64 g1). intros [tex g2] H.
  cbn [indx vect norm clrs texc] in H.
  match type of H with
  | context [for_down ?a ?lo (prop_object vobj fobj ?rg) (_, ?vc, ?nm, _, ?tc)] =>
      exists fobj, rg, vc, nm, tc
  end.
  cbv zeta.
  match type of H with
  | context [for_down ?a ?lo ?body ?s] =>
      destruct (for_down a lo body s) as [[[[ix vc'] nm'] cl] tc']
  end.
  injection H as <-. split; reflexivity.
Qed.

(** The mesh ObjectVBO returns, [n] being the number of props: 15
    vertices and three fans of four triangles for each prop, every
    index within the vertex arrays, every vertex of the same green. *)
Theorem ObjectVBO_mesh (vobj : FVBO) (inum : Z) (g : rng) (c : FVBO) :
  0 < inum < 2 ^ 26 ->
  ObjectVBO (Some vobj) inum g = Ret (Some c) ->
  let n := Z.min (count_spots vobj) inum in
  1 <= n /\ ndot c = 15 * n /\ npol c = 36 * n /\
  (forall t, 0 <= t < 3 * n -> aget FTRI_zero (indx c) t = fan (5 * t)) /\
  Z.of_nat (length (element_array c)) = npol c /\
  (forall v, v ∈ element_array c -> 0 <= v < ndot c) /\
  (forall j, 0 <= j < ndot c -> aget 0 (clrs c) j = 0xFF00B000).
Proof.
  intros Hin Hrun n.
  destruct (ObjectVBO_Some vobj inum g (Some c) Hrun)
    as (c' & [= <-] & _ & _ & Hpol & Hdot & Hnz); [lia|].
  destruct (ObjectVBO_arrays vobj inum g c Hrun) as (fobj & rgrid & vcs & nms & tcs & Hix & Hcl);
    [lia|].
  destruct (select_spots_drawn vobj inum g) as [H0 _]; [lia|].
  cbv zeta in Hix, Hcl. rewrite H0 in Hpol, Hdot, Hix, Hcl. fold n in Hpol, Hdot, Hix, Hcl.
  assert (Hcount : 0 <= count_spots vobj) by (rewrite count_spots_candidates; lia).
  change (2 ^ 26) with 67108864 in Hin.
  assert (Hn0 : 0 <= n < 67108864) by (unfold n; lia).
  rewrite uint_small in Hpol, Hdot, Hix, Hcl by (change (2 ^ 32) with 4294967296; lia).
  assert (Hn : 1 <= n) by (destruct (Z.eq_dec n 0) as [E|E]; [rewrite Hdot, E in Hnz; now destruct Hnz|lia]).
  set (arr0 := (calloc FTRI_zero (1 + Z.shiftr (3 * 5 * n) 1), vcs, nms,
                calloc 0 (3 * 5 * n), tcs))
    in Hix, Hcl.
  assert (Hhalf : 7 * n <= Z.shiftr (3 * 5 * n) 1).
  { rewrite Z.shiftr_div_pow2 by lia. change (2 ^ 1) with 2. apply Z.div_le_lower_bound; lia. }
  assert (Hlen0 : 3 * n <= Z.of_nat (length (arr_indx (arr0 : prop_arrays)))).
  { unfold arr0, arr_indx. cbn [fst]. rewrite length_calloc. lia. }
  destruct (props_indx vobj fobj rgrid n arr0) as [Hl Hfan]; [lia|exact Hlen0|].
  rewrite <- Hix in Hl, Hfan.
  assert (Htri : forall t, 0 <= t < 3 * n -> aget FTRI_zero (indx c) t = fan (5 * t)).
  { intros t Ht.
    assert (H3 : 0 <= t mod 3 < 3) by (apply Z.mod_pos_bound; lia).
    assert (Hx : 0 <= t / 3 < n).
    { split; [apply Z.div_pos; lia|apply Z.div_lt_upper_bound; lia]. }
    pose proof (Z.div_mod t 3 ltac:(lia)) as E3.
    replace t with (t / 3 * 3 + t mod 3) at 1 by lia.
    rewrite Hfan by assumption. f_equal. lia. }
  assert (Hea : element_array c = take (Z.to_nat (3 * n)) (indx c) ≫= FTRI_slots).
  { unfold element_array. rewrite Hpol.
    replace (Z.to_nat (3 * 3 * 4 * n)) with (12 * Z.to_nat (3 * n))%nat by lia.
    apply take_slots. }
  split; [exact Hn|]. split; [rewrite Hdot; lia|]. split; [rewrite Hpol; lia|].
  split; [exact Htri|]. split; [|split].
  - rewrite Hea, (length_bind_const _ 12) by reflexivity.
    rewrite length_take, Hpol. lia.
  - intros v Hv. rewrite Hea in Hv. apply list_elem_of_bind in Hv.
    destruct Hv as (tri & Hv & Ht). apply elem_of_take in Ht. destruct Ht as (i & Hi & Hlt).
    assert (Etri : tri = fan (5 * Z.of_nat i)).
    { rewrite <- Htri by lia. unfold aget.
      replace (Z.of_nat i <? 0) with false by (symmetry; apply Z.ltb_ge; lia).
      now rewrite Nat2Z.id, Hi. }
    subst tri. rewrite Hdot. unfold fan, FTRI_slots in Hv. cbn [ta tb tc td te tf tg th ti tj tk tl] in Hv.
    repeat (apply elem_of_cons in Hv; destruct Hv as [->|Hv]; [lia|]).
    inversion Hv.
  - intros j Hj. rewrite Hcl. rewrite Hdot in Hj.
    apply props_clrs; [lia| |lia].
    unfold arr0, arr_clrs. cbn [fst snd]. rewrite length_calloc. lia.
Qed.

End PropMesh.

(** Three props on the dry mesh. *)
Definition dry_props : @FVBO binary32 :=
  match ObjectVBO (Some dry) 3 (srand 1) with
  | Ret (Some c) => c
  | _ => dry
  end.

Lemma dry_props_eq : ObjectVBO (Some dry) 3 (srand 1) = Ret (Some dry_props).
Proof.
  assert (E : returns (ObjectVBO (Some dry) 3 (srand 1)) (fun _ => True))
    by (vm_compute; exact I).
  revert E. unfold dry_props, returns.
  destruct (ObjectVBO (Some dry) 3 (srand 1)) as [[c|]|];
    [reflexivity|contradiction|contradiction].
Qed.

Lemma ObjectVBO_mesh_witness :
  let n := Z.min (count_spots dry) 3 in
  1 <= n /\ ndot dry_props = 15 * n /\ npol dry_props = 36 * n /\
  (forall t, 0 <= t < 3 * n -> aget FTRI_zero (indx dry_props) t = fan (5 * t)) /\
  Z.of_nat (length (element_array dry_props)) = npol dry_props /\
  (forall v, v ∈ element_array dry_props -> 0 <= v < ndot dry_props) /\
  (forall j, 0 <= j < ndot dry_props -> aget 0 (clrs dry_props) j = 0xFF00B000).
Proof.
  apply (@ObjectVBO_mesh binary32 msvcrt dry 3 (srand 1) dry_props);
    [lia|exact dry_props_eq].
Defined.

(** ** MakeFacetTex *)

(** The two kinds of texel MakeFacetTex writes, for the byte [v]. *)
Definition white_texel (v : Z) : FCLR := set_A (set_B (set_G (set_R 0 255) 255) 255) v.
Definition grey_texel (v : Z) : FCLR := set_A (set_B (set_G (set_R 0 v) v) v) 255.

Definition texel_bytes (v : Z) : bool :=
  (FCLR_R (white_texel v) =? 255) && (FCLR_G (white_texel v) =? 255) &&
  (FCLR_B (white_texel v) =? 255) && (FCLR_A (white_texel v) =? v) &&
  (FCLR_R (grey_texel v) =? v) && (FCLR_G (grey_texel v) =? v) &&
  (FCLR_B (grey_texel v) =? v) && (FCLR_A (grey_texel v) =? 255).

(** The four bytes of a texel are the four values written: checked for
    each of the 256 bytes. *)
Lemma texel_bytes_all (v : Z) : 0 <= v <= 255 -> texel_bytes v = true.
Proof.
  intros Hv.
  assert (H : forallb texel_bytes (seqZ 0 256) = true) by (vm_compute; reflexivity).
  rewrite forallb_forall in H. apply H. apply list_elem_of_In, elem_of_seqZ. lia.
Qed.

(** The byte a draw [r] gives for the amplitude [amp]. *)
Lemma noise_byte (r amp : Z) :
  1 <= amp <= 256 ->
  256 - amp <= Z.land (r mod amp - amp) 0xFF <= 255.
Proof.
  intros Ha. pose proof (Z.mod_pos_bound r amp ltac:(lia)) as Hm.
  set (x := r mod amp) in *. change 0xFF with (Z.ones 8). rewrite Z.land_ones by lia.
  change (2 ^ 8) with 256.
  rewrite <- (Z.mod_add _ 1 256) by lia. rewrite Z.mod_small by lia.
  change (Z.ones 8) with 255. lia.
Qed.

Section FacetFacts.
Context {RO : RandOps}.

(** A texel of the noise of amplitude [amp]: white with a random
    alpha when the texture is transparent, a random grey with alpha 255
    when it is not. *)
Definition noise_texel (trns : bool) (amp : Z) (c : FCLR) : Prop :=
  if trns
  then FCLR_R c = 255 /\ FCLR_G c = 255 /\ FCLR_B c = 255 /\ 256 - amp <= FCLR_A c <= 255
  else FCLR_A c = 255 /\ FCLR_G c = FCLR_R c /\ FCLR_B c = FCLR_R c /\
       256 - amp <= FCLR_R c <= 255.

Lemma draw_texels_spec (trns : bool) (amp : Z) (n : nat) :
  1 <= amp <= 256 ->
  forall done g, Forall (noise_texel trns amp) done ->
    length (fst (draw_texels n trns amp done g)) = (n + length done)%nat /\
    Forall (noise_texel trns amp) (fst (draw_texels n trns amp done g)).
Proof.
  intros Ha. induction n as [|n IH]; intros done g Hd.
  - cbn [draw_texels fst]. fold (reverse done).
    rewrite length_reverse. split; [reflexivity|]. now apply Forall_reverse.
  - cbn [draw_texels]. destruct (rand g) as [r g'].
    pose proof (noise_byte r amp Ha) as Hv.
    set (v := Z.land (r mod amp - amp) 0xFF) in *.
    match goal with |- context [draw_texels n trns amp (?c :: done) g'] =>
      destruct (IH (c :: done) g') as [Hl Hf] end.
    + constructor; [|exact Hd].
      pose proof (texel_bytes_all v ltac:(lia)) as Hb. unfold texel_bytes in Hb.
      repeat (apply andb_true_iff in Hb; destruct Hb as [Hb ?]).
      repeat match goal with H : (_ =? _) = true |- _ => apply Z.eqb_eq in H end.
      unfold noise_texel. destruct trns.
      * fold (white_texel v). repeat split; try assumption; lia.
      * fold (grey_texel v). repeat split; try congruence; lia.
    + split; [rewrite Hl; cbn [length]; lia|exact Hf].
Qed.

(** For a [LONG] [rndc] whose [abs] does not overflow, MakeFacetTex
    returns the name 0 exactly when [|rndc| % 257] is zero; otherwise
    its texture has [256 * 256] texels of noise of that amplitude,
    transparent when [rndc] is negative. *)
Theorem MakeFacetTex_texels (rndc : Z) (g : rng) :
  - 2 ^ 31 < rndc < 2 ^ 31 ->
  let amp := Z.abs rndc mod 257 in
  (amp = 0 -> fst (MakeFacetTex rndc g) = None) /\
  (amp <> 0 ->
   exists tex, fst (MakeFacetTex rndc g) = Some tex /\
     Z.of_nat (length tex) = 256 * 256 /\
     Forall (noise_texel (rndc <? 0) amp) tex).
Proof.
  intros _ amp. unfold MakeFacetTex. fold amp.
  pose proof (Z.mod_pos_bound (Z.abs rndc) 257 ltac:(lia)) as Hm. fold amp in Hm.
  split.
  - intros ->. reflexivity.
  - intros Hne. replace (amp =? 0) with false by (symmetry; apply Z.eqb_neq; exact Hne).
    cbn [fst]. unfold facet_texels.
    destruct (draw_texels_spec (rndc <? 0) amp (Z.to_nat (2 ^ 8 * 2 ^ 8)) ltac:(lia) [] g)
      as [Hl Hf]; [constructor|].
    eexists. split; [reflexivity|]. split; [|exact Hf].
    rewrite Hl. cbn [length]. rewrite Nat.add_0_r, Z2Nat.id by (vm_compute; discriminate).
    reflexivity.
Qed.

End FacetFacts.

(** The grass texture of the landscape, [MakeFacetTex(64)]: every texel
    an opaque grey between 192 and 255. *)
Lemma MakeFacetTex_texels_witness :
  let amp := Z.abs 64 mod 257 in
  (amp = 0 -> fst (MakeFacetTex 64 (srand 1)) = None) /\
  (amp <> 0 ->
   exists tex, fst (MakeFacetTex 64 (srand 1)) = Some tex /\
     Z.of_nat (length tex) = 256 * 256 /\
     Forall (noise_texel (64 <? 0) amp) tex).
Proof. apply (@MakeFacetTex_texels msvcrt 64 (srand 1)). lia. Defined.
